(** * swap.garden: the HTLC resolver and its on-chain escrows

    A shallow embedding of

    - [packages/resolver/src/htlc-resolver.ts]: class [HTLCResolver], in the
      version that deploys the escrows and calls them (the one with
      [srcHTLCAddress] and [dstHTLCAddress] in [SwapOrder]),
    - [packages/resolver/src/index.ts]: the [POST /swap/create] handler,
    - [packages/contracts/evm/contracts/HTLCSource.sol],
      [HTLCDestination.sol] and [HTLCFactory.sol],

    together with the functions of the [ethers] library (a dependency of the
    resolver) that this code calls: [keccak256], [getAddress] and the ABI
    coder for the static types of the order hash.

    Conventions.  Bytes are integers in [0, 256) and byte strings are
    [list Z]; Solidity [uint256], [bytes32] and [address] values are [Z];
    JavaScript strings are [string]; JavaScript integers are [Z].  Everything
    that the code obtains from outside (random bytes, the clock, the process
    environment, the answers of the JSON-RPC nodes, the token contracts) is
    an explicit argument of the operation that consumes it. *)

From stdpp Require Import base option list strings gmap.
From Stdlib Require Import ZArith Ascii String List Lia DecimalString DecimalZ Permutation.
From Stdlib Require HexadecimalString HexadecimalN.
Import ListNotations.
Local Open Scope Z_scope.

(** ** Bytes and hexadecimal text *)

Definition bytes : Type := list Z.

Definition code (c : ascii) : Z := Z.of_nat (nat_of_ascii c).

Definition chr (n : Z) : ascii := ascii_of_nat (Z.to_nat n).

Definition in_range (lo hi : Z) (n : Z) : bool := (lo <=? n) && (n <=? hi).

(** Lower-case hexadecimal digit of a nibble, as [Buffer.toString('hex')]
    and [ethers.hexlify] print it. *)
Definition hex_digit (n : Z) : ascii :=
  if n <? 10 then chr (48 + n) else chr (87 + n).

Definition digit_value (c : ascii) : option Z :=
  let n := code c in
  if in_range 48 57 n then Some (n - 48)
  else if in_range 97 102 n then Some (n - 87)
  else if in_range 65 70 n then Some (n - 55)
  else None.

Fixpoint hex_of_bytes (bs : bytes) : string :=
  match bs with
  | [] => EmptyString
  | b :: rest =>
      String (hex_digit (b / 16)) (String (hex_digit (b mod 16)) (hex_of_bytes rest))
  end.

Fixpoint bytes_of_hex (s : string) : option bytes :=
  match s with
  | EmptyString => Some []
  | String hi (String lo rest) =>
      match digit_value hi, digit_value lo, bytes_of_hex rest with
      | Some h, Some l, Some bs => Some (16 * h + l :: bs)
      | _, _, _ => None
      end
  | String _ EmptyString => None
  end.

Definition ascii_bytes (s : string) : bytes := List.map code (list_ascii_of_string s).

Definition to_lower (c : ascii) : ascii :=
  if in_range 65 90 (code c) then chr (code c + 32) else c.

Definition to_upper (c : ascii) : ascii :=
  if in_range 97 122 (code c) then chr (code c - 32) else c.

Fixpoint map_string (f : ascii -> ascii) (s : string) : string :=
  match s with
  | EmptyString => EmptyString
  | String c rest => String (f c) (map_string f rest)
  end.

Fixpoint exists_string (p : ascii -> bool) (s : string) : bool :=
  match s with
  | EmptyString => false
  | String c rest => p c || exists_string p rest
  end.

Fixpoint forall_string (p : ascii -> bool) (s : string) : bool :=
  match s with
  | EmptyString => true
  | String c rest => p c && forall_string p rest
  end.

(** Big-endian words, as the ABI coder and [abi.encodePacked] lay them out. *)
Fixpoint be_word (bs : bytes) (acc : Z) : Z :=
  match bs with
  | [] => acc
  | b :: rest => be_word rest (256 * acc + b)
  end.

Fixpoint be_bytes (n : nat) (v : Z) : bytes :=
  match n with
  | O => []
  | S n' => be_bytes n' (v / 256) ++ [v mod 256]
  end.

(** ** Keccak-256

    The hash behind [ethers.keccak256] and Solidity's [keccak256]:
    Keccak-f[1600] with rate 136 bytes and the original [0x01] padding.
    The state is the list of the 25 lanes, lane (x, y) at index [x + 5 y]. *)

Module Keccak.

Definition lane_mask : Z := Z.ones 64.

Definition rotl64 (w : Z) (n : Z) : Z :=
  Z.lor (Z.land (Z.shiftl w n) lane_mask) (Z.shiftr w (64 - n)).

Definition lane (st : list Z) (x y : nat) : Z :=
  nth (x mod 5 + 5 * (y mod 5))%nat st 0.

Definition rotation_offsets : list Z :=
  [ 0;  1; 62; 28; 27;
   36; 44;  6; 55; 20;
    3; 10; 43; 25; 39;
   41; 45; 15; 21;  8;
   18;  2; 61; 56; 14].

Definition round_constants : list Z :=
  [0x0000000000000001; 0x0000000000008082; 0x800000000000808A;
   0x8000000080008000; 0x000000000000808B; 0x0000000080000001;
   0x8000000080008081; 0x8000000000008009; 0x000000000000008A;
   0x0000000000000088; 0x0000000080008009; 0x000000008000000A;
   0x000000008000808B; 0x800000000000008B; 0x8000000000008089;
   0x8000000000008003; 0x8000000000008002; 0x8000000000000080;
   0x000000000000800A; 0x800000008000000A; 0x8000000080008081;
   0x8000000000008080; 0x0000000080000001; 0x8000000080008008].

Definition coords : list (nat * nat) :=
  List.flat_map (fun y => List.map (fun x => (x, y)) (seq 0 5)) (seq 0 5).

Definition theta (st : list Z) : list Z :=
  let c x := fold_right Z.lxor 0 (List.map (fun y => lane st x y) (seq 0 5)) in
  let d x := Z.lxor (c (x + 4)%nat) (rotl64 (c (x + 1)%nat) 1) in
  List.map (fun '(x, y) => Z.lxor (lane st x y) (d x)) coords.

Definition rho_pi (st : list Z) : list Z :=
  List.map (fun '(x, y) =>
              let sx := ((x + 3 * y) mod 5)%nat in
              rotl64 (lane st sx x) (nth (sx + 5 * x)%nat rotation_offsets 0))
           coords.

Definition chi (st : list Z) : list Z :=
  List.map (fun '(x, y) =>
              Z.lxor (lane st x y)
                     (Z.land (Z.lxor (lane st (x + 1) y) lane_mask)
                             (lane st (x + 2) y)))
           coords.

Definition iota (rc : Z) (st : list Z) : list Z :=
  match st with
  | [] => []
  | a :: rest => Z.lxor a rc :: rest
  end.

Definition keccak_round (st : list Z) (rc : Z) : list Z :=
  iota rc (chi (rho_pi (theta st))).

Definition keccak_f (st : list Z) : list Z :=
  fold_left keccak_round round_constants st.

Definition rate : nat := 136.

Fixpoint le_word (bs : bytes) : Z :=
  match bs with
  | [] => 0
  | b :: rest => b + 256 * le_word rest
  end.

Fixpoint lanes_of_bytes (n : nat) (bs : bytes) : list Z :=
  match n with
  | O => []
  | S n' => le_word (firstn 8 bs) :: lanes_of_bytes n' (skipn 8 bs)
  end.

Definition absorb_block (st : list Z) (block : bytes) : list Z :=
  let ls := lanes_of_bytes 17 block ++ repeat 0 8 in
  keccak_f (List.map (fun '(a, b) => Z.lxor a b) (combine st ls)).

Definition pad (msg : bytes) : bytes :=
  match (rate - length msg mod rate)%nat with
  | 1%nat => msg ++ [0x81]
  | q => msg ++ [0x01] ++ repeat 0 (q - 2) ++ [0x80]
  end.

Fixpoint absorb (fuel : nat) (st : list Z) (bs : bytes) : list Z :=
  match fuel with
  | O => st
  | S fuel' =>
      match bs with
      | [] => st
      | _ => absorb fuel' (absorb_block st (firstn rate bs)) (skipn rate bs)
      end
  end.

Definition state_byte (st : list Z) (i : nat) : Z :=
  Z.land (Z.shiftr (nth (i / 8) st 0) (8 * Z.of_nat (i mod 8))) 255.

Definition keccak256 (msg : bytes) : bytes :=
  let padded := pad msg in
  let st := absorb (length padded) (repeat 0 25) padded in
  List.map (state_byte st) (seq 0 32).

End Keccak.

(** ** Errors

    Every [throw] of the resolver, every exception of the [ethers] calls it
    makes and every failure of a JSON-RPC round trip is a value of [Error];
    the wrappers [FailedTo...] are the [catch] blocks that re-throw with a
    prefixed message. *)

Inductive Status : Type := pending | executed | completed | cancelled.

Inductive Error : Type :=
  | InvalidBytesLike                  (* ethers: invalid BytesLike value *)
  | InvalidAddress                    (* ethers: invalid address *)
  | BadAddressChecksum                (* ethers: bad address checksum *)
  | BadIcapChecksum                   (* ethers: bad icap checksum *)
  | InvalidBigNumberish               (* ethers: invalid BigNumberish string *)
  | NumericOverflow                   (* ethers: overflow (unsafe JS integer) *)
  | ValueOutOfBounds                  (* ethers: value out-of-bounds *)
  | IncorrectDataLength               (* ethers: incorrect data length *)
  | InvalidPrivateKey                 (* ethers: invalid private key *)
  | ChainError (msg : string)         (* RPC failure or reverted transaction *)
  | Reverted (reason : string)        (* Solidity: require / revert / panic *)
  | OrderNotFound                     (* 'Order not found' *)
  | CannotExecute (s : Status)        (* 'Order status is ..., cannot execute' *)
  | InvalidSecret                     (* 'Invalid secret' *)
  | CannotCancelBeforeTimelock        (* 'Cannot cancel before timelock expires' *)
  | NoProvider (chainId : Z)          (* 'No provider/wallet configured for chain ...' *)
  | NoFactory (chainId : Z)           (* 'No factory address configured for chain ...' *)
  | NoMakerKey                        (* 'No MAKER_PRIVATE_KEY or RESOLVER_PRIVATE_KEY found' *)
  | NoTakerKey                        (* 'No TAKER_PRIVATE_KEY or RESOLVER_PRIVATE_KEY found' *)
  | NoHTLCAddress (chainId : Z)       (* 'No HTLC address found for chain ...' *)
  | FailedToCreateSwapOrder (cause : Error)
  | FailedToWithdraw (cause : Error)
  | FailedToCancel (cause : Error).

Inductive Result (A : Type) : Type :=
  | Ok (a : A)
  | Err (e : Error).
Arguments Ok {A} a.
Arguments Err {A} e.

Definition rbind {A B : Type} (r : Result A) (k : A -> Result B) : Result B :=
  match r with
  | Ok a => k a
  | Err e => Err e
  end.

Declare Scope result_scope.
Delimit Scope result_scope with result.
Notation "'let*' x ':=' r 'in' k" := (rbind r (fun x => k))
  (at level 10, x name, r at level 100, k at level 200) : result_scope.

(** ** The [ethers] functions used by the resolver *)

Module Ethers.
Local Open Scope result_scope.

(** [getBytes]: a string is BytesLike when it matches
    [/^0x([0-9a-f][0-9a-f])*$/i]. *)
Definition getBytes (value : string) : Result bytes :=
  match value with
  | String z (String x digits) =>
      if (code z =? 48) && ((code x =? 120) || (code x =? 88)) then
        match bytes_of_hex digits with
        | Some bs => Ok bs
        | None => Err InvalidBytesLike
        end
      else Err InvalidBytesLike
  | _ => Err InvalidBytesLike
  end.

Definition hexlify (bs : bytes) : string := String "0" (String "x" (hex_of_bytes bs)).

(** [ethers.keccak256(data)]: hash of the bytes that [data] denotes, as a
    lower-case [0x] string of 64 digits. *)
Definition keccak256 (data : string) : Result string :=
  let* bs := getBytes data in
  Ok (hexlify (Keccak.keccak256 bs)).

Definition is_hex_digit (c : ascii) : bool :=
  match digit_value c with Some _ => true | None => false end.

Definition is_upper_AF (c : ascii) : bool := in_range 65 70 (code c).
Definition is_lower_af (c : ascii) : bool := in_range 97 102 (code c).

(** [s.substring(0, n)] and [s.substring(n)] *)
Fixpoint string_take (n : nat) (s : string) : string :=
  match n, s with
  | S n', String c rest => String c (string_take n' rest)
  | _, _ => EmptyString
  end.

Fixpoint string_drop (n : nat) (s : string) : string :=
  match n, s with
  | S n', String _ rest => string_drop n' rest
  | _, _ => s
  end.

(** [while (s.length < n) { s = '0' + s; }] *)
Fixpoint zeros (n : nat) (s : string) : string :=
  match n with
  | O => s
  | S n' => String "0" (zeros n' s)
  end.

Definition pad_start (n : nat) (s : string) : string :=
  zeros (n - String.length s) s.

(** [getChecksumAddress]: EIP-55 capitalisation of the first 40 digits,
    driven by the nibbles of the hash of the ASCII text of these 40 digits
    in lower case; what follows them is left as it is. *)
Fixpoint checksum_digits (digits : string) (hashed : bytes) : string :=
  match digits with
  | String c1 (String c2 rest) =>
      match hashed with
      | h :: hs =>
          String (if 8 <=? h / 16 then to_upper c1 else c1)
                 (String (if 8 <=? h mod 16 then to_upper c2 else c2)
                         (checksum_digits rest hs))
      | [] => digits
      end
  | _ => digits
  end.

Definition getChecksumAddress (digits : string) : string :=
  let lower := map_string to_lower digits in
  String "0" (String "x"
    (checksum_digits lower (Keccak.keccak256 (ascii_bytes (string_take 40 lower))))).

(** The ICAP form of an address, [/^XE[0-9]{2}[0-9A-Za-z]{30,31}$/]. *)
Definition is_digit (c : ascii) : bool := in_range 48 57 (code c).

Definition is_alnum (c : ascii) : bool :=
  is_digit c || in_range 65 90 (code c) || in_range 97 122 (code c).

Definition is_icap (address : string) : bool :=
  match address with
  | String "X" (String "E" (String d1 (String d2 rest))) =>
      is_digit d1 && is_digit d2
      && ((String.length rest =? 30)%nat || (String.length rest =? 31)%nat)
      && forall_string is_alnum rest
  | _ => false
  end.

(** [String(n)] for an integer. *)
Definition number_string (n : Z) : string := NilZero.string_of_int (Z.to_int n).

(** [parseInt(text, 10)] for text that starts with a digit: the value of
    the digits up to the first other character. *)
Fixpoint parseInt_digits (text : string) (acc : Z) : Z :=
  match text with
  | String c rest =>
      if is_digit c then parseInt_digits rest (10 * acc + (code c - 48)) else acc
  | EmptyString => acc
  end.

Definition parseInt (text : string) : Z := parseInt_digits text 0.

(** [ibanLookup]: a digit stands for itself, a capital letter for 10 to
    35; a character without entry joins as the empty string. *)
Definition ibanLookup (c : ascii) : string :=
  if is_digit c then String c EmptyString
  else if in_range 65 90 (code c) then number_string (code c - 55)
  else EmptyString.

Fixpoint iban_expand (s : string) : string :=
  match s with
  | EmptyString => EmptyString
  | String c rest => String.append (ibanLookup c) (iban_expand rest)
  end.

Definition safeDigits : nat := 15.

(** [while (expanded.length >= safeDigits) { ... }]: every round replaces
    15 digits by at most two, so [fuel] rounds suffice for text of [fuel]
    characters. *)
Fixpoint iban_reduce (fuel : nat) (expanded : string) : string :=
  match fuel with
  | O => expanded
  | S fuel' =>
      if (safeDigits <=? String.length expanded)%nat then
        let block := string_take safeDigits expanded in
        iban_reduce fuel'
          (String.append (number_string (parseInt block mod 97))
                         (string_drop safeDigits expanded))
      else expanded
  end.

Definition ibanChecksum (address : string) : string :=
  let address := map_string to_upper address in
  let address :=
    String.append (string_drop 4 address) (String.append (string_take 2 address) "00") in
  let expanded := iban_expand address in
  let expanded := iban_reduce (String.length expanded) expanded in
  let checksum := number_string (98 - parseInt expanded mod 97) in
  pad_start 2 checksum.

(** [fromBase36]: the digits are read in lower case. *)
Definition base36_value (c : ascii) : option Z :=
  if is_digit c then Some (code c - 48)
  else if in_range 97 122 (code c) then Some (code c - 87)
  else None.

Fixpoint fromBase36_digits (value : string) (acc : Z) : option Z :=
  match value with
  | EmptyString => Some acc
  | String c rest =>
      match base36_value c with
      | Some d => fromBase36_digits rest (acc * 36 + d)
      | None => None
      end
  end.

Definition fromBase36 (value : string) : option Z :=
  fromBase36_digits (map_string to_lower value) 0.

(** [value.toString(16)] of a non-negative BigInt. *)
Definition BigInt_toString16 (value : Z) : string :=
  HexadecimalString.NilZero.string_of_uint (N.to_hex_uint (Z.to_N value)).

(** [ethers.getAddress].  The hexadecimal form
    [/^(0x)?[0-9a-fA-F]{40}$/]: a mixed-case input must carry the right
    checksum.  The ICAP form: the two check digits must be right, and the
    base-36 number is printed in hexadecimal, padded to 40 digits (a number
    of more than 160 bits gives 41). *)
Definition getAddress (address : string) : Result string :=
  let digits :=
    match address with
    | String "0" (String "x" rest) => rest
    | _ => address
    end in
  if (String.length digits =? 40)%nat && forall_string is_hex_digit digits then
    let result := getChecksumAddress digits in
    if exists_string is_upper_AF digits && exists_string is_lower_af digits
    then if String.eqb result (String "0" (String "x" digits))
         then Ok result else Err BadAddressChecksum
    else Ok result
  else if is_icap address then
    (* Maybe ICAP? (we only support direct mode) *)
    if String.eqb (string_take 2 (string_drop 2 address)) (ibanChecksum address) then
      match fromBase36 (string_drop 4 address) with
      | Some value => Ok (getChecksumAddress (pad_start 40 (BigInt_toString16 value)))
      | None => Err InvalidAddress
      end
    else Err BadIcapChecksum
  else Err InvalidAddress.

(** JavaScript's [BigInt(string)] on ASCII input: surrounding white space is
    dropped, the empty string is zero, a [0x], [0o] or [0b] prefix selects
    the base, and a decimal literal may carry one sign. *)
Definition is_space (c : ascii) : bool :=
  let n := code c in in_range 9 13 n || (n =? 32).

Fixpoint trim_left (s : string) : string :=
  match s with
  | String c rest => if is_space c then trim_left rest else s
  | EmptyString => EmptyString
  end.

Fixpoint rev_string (s : string) (acc : string) : string :=
  match s with
  | EmptyString => acc
  | String c rest => rev_string rest (String c acc)
  end.

Definition trim (s : string) : string :=
  rev_string (trim_left (rev_string (trim_left s) EmptyString)) EmptyString.

Fixpoint parse_digits (base : Z) (s : string) (acc : Z) : option Z :=
  match s with
  | EmptyString => Some acc
  | String c rest =>
      match digit_value c with
      | Some d => if d <? base then parse_digits base rest (base * acc + d) else None
      | None => None
      end
  end.

Definition parse_nonempty (base : Z) (s : string) : option Z :=
  match s with
  | EmptyString => None
  | _ => parse_digits base s 0
  end.

Definition StringToBigInt (s : string) : option Z :=
  match trim s with
  | EmptyString => Some 0
  | String "0" (String "x" ds) | String "0" (String "X" ds) => parse_nonempty 16 ds
  | String "0" (String "o" ds) | String "0" (String "O" ds) => parse_nonempty 8 ds
  | String "0" (String "b" ds) | String "0" (String "B" ds) => parse_nonempty 2 ds
  | String "-" ds => option_map Z.opp (parse_nonempty 10 ds)
  | String "+" ds => parse_nonempty 10 ds
  | ds => parse_nonempty 10 ds
  end.

Definition of_option {A : Type} (e : Error) (o : option A) : Result A :=
  match o with
  | Some a => Ok a
  | None => Err e
  end.

(** [getBigInt] on a string: the empty string is refused and one leading
    minus sign is peeled off before [BigInt] sees the rest. *)
Definition getBigInt_string (value : string) : Result Z :=
  match value with
  | EmptyString => Err InvalidBigNumberish
  | String "-" rest =>
      match rest with
      | String "-" _ => of_option InvalidBigNumberish (StringToBigInt value)
      | _ => of_option InvalidBigNumberish (option_map Z.opp (StringToBigInt rest))
      end
  | _ => of_option InvalidBigNumberish (StringToBigInt value)
  end.

(** [getBigInt] on a JavaScript integer: only safe integers pass. *)
Definition getBigInt_number (value : Z) : Result Z :=
  if in_range (- 0x1fffffffffffff) 0x1fffffffffffff value
  then Ok value else Err NumericOverflow.

(** The coders of the static types that the order hash uses; each one
    writes a 32-byte word. *)
Definition encode_uint256 (v : Z) : Result bytes :=
  if in_range 0 (2 ^ 256 - 1) v then Ok (be_bytes 32 v) else Err ValueOutOfBounds.

Definition encode_uint256_string (value : string) : Result bytes :=
  let* v := getBigInt_string value in encode_uint256 v.

Definition encode_uint256_number (value : Z) : Result bytes :=
  let* v := getBigInt_number value in encode_uint256 v.

Definition encode_address (value : string) : Result bytes :=
  let* a := getAddress value in
  let* bs := getBytes a in
  Ok (repeat 0 12 ++ bs).

Definition encode_bytes32 (value : string) : Result bytes :=
  let* bs := getBytes value in
  if (length bs =? 32)%nat then Ok bs else Err IncorrectDataLength.

End Ethers.

(** ** The escrow contracts

    A transaction sees the block time and its sender; whether a call into a
    token contract goes through is decided by that token, hence by the
    environment.  A reverted transaction leaves the storage as it was, so a
    contract function maps the storage to [Err (Reverted _)] or to [Ok] of
    the new storage and the log of what it did. *)

Definition uint256_max : Z := 2 ^ 256 - 1.

Record Tx : Type := { block_timestamp : Z; msg_sender : Z }.

Record Tokens : Type := {
  (* token, recipient, amount: IERC20(token).safeTransfer(recipient, amount) *)
  transfer_ok : Z -> Z -> Z -> bool;
  (* token, owner, amount: IERC20(token).safeTransferFrom(owner, address(this), amount) *)
  transferFrom_ok : Z -> Z -> Z -> bool
}.

Inductive Log : Type :=
  | Transfer (token recipient amount : Z)
  | TransferFrom (token owner amount : Z)
  | Withdrawn (orderHash withdrawnBy preimage : Z)
  | Cancelled (orderHash cancelledBy : Z)
  | HTLCSourceDeployed (htlc orderHash maker takerAsset takingAmount hashLock timelock : Z)
  | HTLCDestinationDeployed (htlc orderHash taker makerAsset makingAmount hashLock timelock : Z).

Definition require (cond : bool) (reason : string) : Result unit :=
  if cond then Ok tt else Err (Reverted reason).

(** Checked [uint256] addition of Solidity 0.8. *)
Definition checked_add (a b : Z) : Result Z :=
  if a + b <=? uint256_max then Ok (a + b)
  else Err (Reverted "panic: arithmetic overflow (0x11)").

(** [keccak256(abi.encodePacked(preimage))] for a [bytes32] preimage. *)
Definition keccak256_packed (preimage : Z) : Z :=
  be_word (Keccak.keccak256 (be_bytes 32 preimage)) 0.

Inductive State : Type := PENDING | WITHDRAWN | CANCELLED.

Definition State_eqb (a b : State) : bool :=
  match a, b with
  | PENDING, PENDING | WITHDRAWN, WITHDRAWN | CANCELLED, CANCELLED => true
  | _, _ => false
  end.

Module HTLCSource.
Local Open Scope result_scope.

Record HTLCData : Type := {
  orderHash : Z;
  maker : Z;
  makerAsset : Z;
  makingAmount : Z;
  takerAsset : Z;
  takingAmount : Z;
  hashLock : Z;
  timelock : Z;
  dstChainId : Z;
  state : State;
  withdrawnBy : Z;
  preimage : Z
}.

(** Storage: [htlcData] and the flag of OpenZeppelin's [ReentrancyGuard]. *)
Record Contract : Type := { htlcData : HTLCData; entered : bool }.

Definition constructor (orderHash maker makerAsset makingAmount takerAsset
                        takingAmount hashLock timelock dstChainId : Z) : Contract :=
  {| htlcData := {| orderHash := orderHash; maker := maker;
                    makerAsset := makerAsset; makingAmount := makingAmount;
                    takerAsset := takerAsset; takingAmount := takingAmount;
                    hashLock := hashLock; timelock := timelock;
                    dstChainId := dstChainId; state := PENDING;
                    withdrawnBy := 0; preimage := 0 |};
     entered := false |}.

Definition nonReentrant (c : Contract) : Result unit :=
  require (negb (entered c)) "ReentrancyGuard: reentrant call".

Definition onlyAfterTimelock (tx : Tx) (c : Contract) : Result unit :=
  require (block_timestamp tx >=? timelock (htlcData c)) "Timelock not yet passed".

Definition onlyBeforeTimelock (tx : Tx) (c : Contract) : Result unit :=
  require (block_timestamp tx <? timelock (htlcData c)) "Timelock has passed".

Definition onlyPending (c : Contract) : Result unit :=
  require (State_eqb (state (htlcData c)) PENDING) "Contract not in pending state".

Definition withdraw (tx : Tx) (tok : Tokens) (preimage : Z) (c : Contract)
  : Result (Contract * list Log) :=
  let d := htlcData c in
  let* _ := nonReentrant c in
  let* _ := onlyBeforeTimelock tx c in
  let* _ := onlyPending c in
  let* _ := require (keccak256_packed preimage =? hashLock d) "Invalid preimage" in
  let d' := {| orderHash := orderHash d; maker := maker d;
               makerAsset := makerAsset d; makingAmount := makingAmount d;
               takerAsset := takerAsset d; takingAmount := takingAmount d;
               hashLock := hashLock d; timelock := timelock d;
               dstChainId := dstChainId d; state := WITHDRAWN;
               withdrawnBy := msg_sender tx; preimage := preimage |} in
  (* Transfer tokens to the caller (should be the resolver/taker) *)
  let* _ := require (transfer_ok tok (makerAsset d) (msg_sender tx) (makingAmount d))
                    "SafeERC20: operation failed" in
  Ok ({| htlcData := d'; entered := entered c |},
      [Transfer (makerAsset d) (msg_sender tx) (makingAmount d);
       Withdrawn (orderHash d) (msg_sender tx) preimage]).

Definition cancel (tx : Tx) (tok : Tokens) (c : Contract)
  : Result (Contract * list Log) :=
  let d := htlcData c in
  let* _ := nonReentrant c in
  let* _ := onlyAfterTimelock tx c in
  let* _ := onlyPending c in
  let d' := {| orderHash := orderHash d; maker := maker d;
               makerAsset := makerAsset d; makingAmount := makingAmount d;
               takerAsset := takerAsset d; takingAmount := takingAmount d;
               hashLock := hashLock d; timelock := timelock d;
               dstChainId := dstChainId d; state := CANCELLED;
               withdrawnBy := withdrawnBy d; preimage := HTLCSource.preimage d |} in
  (* Return tokens to the original maker *)
  let* _ := require (transfer_ok tok (makerAsset d) (maker d) (makingAmount d))
                    "SafeERC20: operation failed" in
  Ok ({| htlcData := d'; entered := entered c |},
      [Transfer (makerAsset d) (maker d) (makingAmount d);
       Cancelled (orderHash d) (msg_sender tx)]).

Definition getDetails (c : Contract) : HTLCData := htlcData c.

Definition canWithdraw (tx : Tx) (preimage : Z) (c : Contract) : bool :=
  State_eqb (state (htlcData c)) PENDING
  && (block_timestamp tx <? timelock (htlcData c))
  && (keccak256_packed preimage =? hashLock (htlcData c)).

Definition canCancel (tx : Tx) (c : Contract) : bool :=
  State_eqb (state (htlcData c)) PENDING
  && (block_timestamp tx >=? timelock (htlcData c)).

End HTLCSource.

Module HTLCDestination.
Local Open Scope result_scope.

Record HTLCData : Type := {
  orderHash : Z;
  taker : Z;
  makerAsset : Z;
  makingAmount : Z;
  takerAsset : Z;
  takingAmount : Z;
  hashLock : Z;
  timelock : Z;
  srcChainId : Z;
  state : State;
  withdrawnBy : Z;
  preimage : Z
}.

Record Contract : Type := { htlcData : HTLCData; entered : bool }.

Definition constructor (orderHash taker makerAsset makingAmount takerAsset
                        takingAmount hashLock timelock srcChainId : Z) : Contract :=
  {| htlcData := {| orderHash := orderHash; taker := taker;
                    makerAsset := makerAsset; makingAmount := makingAmount;
                    takerAsset := takerAsset; takingAmount := takingAmount;
                    hashLock := hashLock; timelock := timelock;
                    srcChainId := srcChainId; state := PENDING;
                    withdrawnBy := 0; preimage := 0 |};
     entered := false |}.

Definition nonReentrant (c : Contract) : Result unit :=
  require (negb (entered c)) "ReentrancyGuard: reentrant call".

Definition onlyAfterTimelock (tx : Tx) (c : Contract) : Result unit :=
  require (block_timestamp tx >=? timelock (htlcData c)) "Timelock not yet passed".

Definition onlyBeforeTimelock (tx : Tx) (c : Contract) : Result unit :=
  require (block_timestamp tx <? timelock (htlcData c)) "Timelock has passed".

Definition onlyPending (c : Contract) : Result unit :=
  require (State_eqb (state (htlcData c)) PENDING) "Contract not in pending state".

Definition withdraw (tx : Tx) (tok : Tokens) (preimage : Z) (c : Contract)
  : Result (Contract * list Log) :=
  let d := htlcData c in
  let* _ := nonReentrant c in
  let* _ := onlyBeforeTimelock tx c in
  let* _ := onlyPending c in
  let* _ := require (keccak256_packed preimage =? hashLock d) "Invalid preimage" in
  let d' := {| orderHash := orderHash d; taker := taker d;
               makerAsset := makerAsset d; makingAmount := makingAmount d;
               takerAsset := takerAsset d; takingAmount := takingAmount d;
               hashLock := hashLock d; timelock := timelock d;
               srcChainId := srcChainId d; state := WITHDRAWN;
               withdrawnBy := msg_sender tx; preimage := preimage |} in
  (* Transfer tokens to the caller (should be the original maker) *)
  let* _ := require (transfer_ok tok (takerAsset d) (msg_sender tx) (takingAmount d))
                    "SafeERC20: operation failed" in
  Ok ({| htlcData := d'; entered := entered c |},
      [Transfer (takerAsset d) (msg_sender tx) (takingAmount d);
       Withdrawn (orderHash d) (msg_sender tx) preimage]).

Definition cancel (tx : Tx) (tok : Tokens) (c : Contract)
  : Result (Contract * list Log) :=
  let d := htlcData c in
  let* _ := nonReentrant c in
  let* _ := onlyAfterTimelock tx c in
  let* _ := onlyPending c in
  let d' := {| orderHash := orderHash d; taker := taker d;
               makerAsset := makerAsset d; makingAmount := makingAmount d;
               takerAsset := takerAsset d; takingAmount := takingAmount d;
               hashLock := hashLock d; timelock := timelock d;
               srcChainId := srcChainId d; state := CANCELLED;
               withdrawnBy := withdrawnBy d;
               preimage := HTLCDestination.preimage d |} in
  (* Return tokens to the taker (resolver) *)
  let* _ := require (transfer_ok tok (takerAsset d) (taker d) (takingAmount d))
                    "SafeERC20: operation failed" in
  Ok ({| htlcData := d'; entered := entered c |},
      [Transfer (takerAsset d) (taker d) (takingAmount d);
       Cancelled (orderHash d) (msg_sender tx)]).

Definition getDetails (c : Contract) : HTLCData := htlcData c.

Definition canWithdraw (tx : Tx) (preimage : Z) (c : Contract) : bool :=
  State_eqb (state (htlcData c)) PENDING
  && (block_timestamp tx <? timelock (htlcData c))
  && (keccak256_packed preimage =? hashLock (htlcData c)).

Definition canCancel (tx : Tx) (c : Contract) : bool :=
  State_eqb (state (htlcData c)) PENDING
  && (block_timestamp tx >=? timelock (htlcData c)).

End HTLCDestination.

(** ** The factory *)

Module HTLCFactory.
Local Open Scope result_scope.

Definition MIN_TIMELOCK : Z := 1 * 3600.        (* 1 hours *)
Definition MAX_TIMELOCK : Z := 7 * 86400.       (* 7 days *)

(** Storage: the two mappings (a missing key reads as [address(0)]) and
    the reentrancy flag. *)
Record Factory : Type := {
  sourceHTLCs : gmap Z Z;
  destinationHTLCs : gmap Z Z;
  entered : bool
}.

Definition getSourceHTLC (f : Factory) (orderHash : Z) : Z :=
  default 0 (sourceHTLCs f !! orderHash).

Definition getDestinationHTLC (f : Factory) (orderHash : Z) : Z :=
  default 0 (destinationHTLCs f !! orderHash).

Definition nonReentrant (f : Factory) : Result unit :=
  require (negb (entered f)) "ReentrancyGuard: reentrant call".

(** [htlc] is the address at which [new HTLCSource(...)] lands. *)
Definition deploySourceHTLC (tx : Tx) (tok : Tokens) (htlc : Z)
    (orderHash maker makerAsset makingAmount takerAsset takingAmount
     hashLock timelock dstChainId : Z) (f : Factory)
  : Result (Factory * HTLCSource.Contract * list Log) :=
  let* _ := nonReentrant f in
  let* _ := require (getSourceHTLC f orderHash =? 0) "HTLC already exists" in
  let* lo := checked_add (block_timestamp tx) MIN_TIMELOCK in
  let* _ := require (timelock >=? lo) "Timelock too short" in
  let* hi := checked_add (block_timestamp tx) MAX_TIMELOCK in
  let* _ := require (timelock <=? hi) "Timelock too long" in
  let* _ := require (makingAmount >? 0) "Amount must be greater than 0" in
  (* Transfer tokens from maker to this contract temporarily *)
  let* _ := require (transferFrom_ok tok makerAsset maker makingAmount)
                    "SafeERC20: operation failed" in
  let sourceContract :=
    HTLCSource.constructor orderHash maker makerAsset makingAmount takerAsset
                           takingAmount hashLock timelock dstChainId in
  let f' := {| sourceHTLCs := <[orderHash := htlc]> (sourceHTLCs f);
               destinationHTLCs := destinationHTLCs f;
               entered := entered f |} in
  (* Transfer tokens to the HTLC contract *)
  let* _ := require (transfer_ok tok makerAsset htlc makingAmount)
                    "SafeERC20: operation failed" in
  Ok (f', sourceContract,
      [TransferFrom makerAsset maker makingAmount;
       Transfer makerAsset htlc makingAmount;
       HTLCSourceDeployed htlc orderHash maker takerAsset takingAmount hashLock timelock]).

Definition deployDestinationHTLC (tx : Tx) (tok : Tokens) (htlc : Z)
    (orderHash taker makerAsset makingAmount takerAsset takingAmount
     hashLock timelock srcChainId : Z) (f : Factory)
  : Result (Factory * HTLCDestination.Contract * list Log) :=
  let* _ := nonReentrant f in
  let* _ := require (getDestinationHTLC f orderHash =? 0) "HTLC already exists" in
  let* lo := checked_add (block_timestamp tx) MIN_TIMELOCK in
  let* _ := require (timelock >=? lo) "Timelock too short" in
  let* hi := checked_add (block_timestamp tx) MAX_TIMELOCK in
  let* _ := require (timelock <=? hi) "Timelock too long" in
  let* _ := require (takingAmount >? 0) "Amount must be greater than 0" in
  (* Transfer tokens from taker to this contract temporarily *)
  let* _ := require (transferFrom_ok tok takerAsset taker takingAmount)
                    "SafeERC20: operation failed" in
  let destContract :=
    HTLCDestination.constructor orderHash taker makerAsset makingAmount takerAsset
                                takingAmount hashLock timelock srcChainId in
  let f' := {| sourceHTLCs := sourceHTLCs f;
               destinationHTLCs := <[orderHash := htlc]> (destinationHTLCs f);
               entered := entered f |} in
  (* Transfer tokens to the HTLC contract *)
  let* _ := require (transfer_ok tok takerAsset htlc takingAmount)
                    "SafeERC20: operation failed" in
  Ok (f', destContract,
      [TransferFrom takerAsset taker takingAmount;
       Transfer takerAsset htlc takingAmount;
       HTLCDestinationDeployed htlc orderHash taker makerAsset makingAmount hashLock timelock]).

End HTLCFactory.

(** ** The resolver (class [HTLCResolver] of htlc-resolver.ts)

    An operation runs to completion before the next one starts; it maps the
    resolver object to its result (a value or the error thrown) and the
    resolver object afterwards.  An order object is stored under one key of
    [orders], its own [orderHash], so an assignment to a field of the object
    found under a key is an update of the entry at that key. *)

Module Resolver.

Module Params.
(** The argument object of [createSwapOrder]. *)
Record t : Type := {
  maker : string;
  srcChainId : Z;
  dstChainId : Z;
  srcToken : string;
  dstToken : string;
  srcAmount : string;
  dstAmount : string;
  timelock : Z
}.
End Params.

Record SwapOrder : Type := {
  orderHash : string;
  maker : string;
  srcChainId : Z;
  dstChainId : Z;
  srcToken : string;
  dstToken : string;
  srcAmount : string;
  dstAmount : string;
  timelock : Z;
  secret : string;
  hashLock : string;
  status : Status;
  createdAt : Z;
  srcHTLCAddress : option string;
  dstHTLCAddress : option string;
  srcTxHash : option string;
  dstTxHash : option string
}.

Record ChainConfig : Type := {
  chainId : Z;
  rpcUrl : string;
  htlcFactory : string;
  name : string
}.

(** [process.env]: a variable is unset or holds a string. *)
Record ProcessEnv : Type := {
  RESOLVER_PRIVATE_KEY : option string;
  MAKER_PRIVATE_KEY : option string;
  TAKER_PRIVATE_KEY : option string;
  SEPOLIA_RPC_URL : option string;
  SEPOLIA_HTLC_FACTORY : option string;
  POLYGON_AMOY_RPC_URL : option string;
  POLYGON_AMOY_HTLC_FACTORY : option string
}.

(** The arguments of [deploySourceHTLC] / [deployDestinationHTLC] as the
    resolver passes them. *)
Record DeployArgs : Type := {
  arg_orderHash : string;
  arg_party : string;
  arg_makerAsset : string;
  arg_makingAmount : string;
  arg_takerAsset : string;
  arg_takingAmount : string;
  arg_hashLock : string;
  arg_timelock : Z;
  arg_chainId : Z
}.

(** What the outside answers while one operation runs.  Sending a
    transaction and waiting for its receipt is one answer: the receipt's
    hash, or the error of whichever step failed. *)
Record Network : Type := {
  (* new ethers.Wallet(privateKey, provider): the wallet's address *)
  rpc_wallet : string -> Result string;
  (* chain, token, signer, spender, amount: approve(...) and wait() *)
  rpc_approve : Z -> string -> string -> string -> string -> Result unit;
  (* chain, factory, signer, arguments: deploy...HTLC(...) and wait() *)
  rpc_deploySourceHTLC : Z -> string -> string -> DeployArgs -> Result string;
  rpc_deployDestinationHTLC : Z -> string -> string -> DeployArgs -> Result string;
  (* chain, factory, orderHash *)
  rpc_getSourceHTLC : Z -> string -> string -> Result string;
  rpc_getDestinationHTLC : Z -> string -> string -> Result string;
  (* chain, escrow address, secret: withdraw(secret) and wait() *)
  rpc_withdraw : Z -> string -> string -> Result string;
  (* chain, escrow address: cancel() and wait() *)
  rpc_cancel : Z -> string -> Result string
}.

Record HTLCResolver : Type := {
  orders : gmap string SwapOrder;
  providers : gmap Z string;        (* chain id to the provider's RPC URL *)
  resolverWallet : gmap Z string;   (* chain id to the wallet's address *)
  chains : list ChainConfig
}.

Record ExecuteResult : Type := {
  exec_success : bool;
  exec_srcTxHash : option string;
  exec_dstTxHash : option string
}.

Record TxResult : Type := {
  tx_success : bool;
  tx_txHash : option string
}.

(** JavaScript truthiness of [string | undefined]. *)
Definition truthy (v : option string) : bool :=
  match v with
  | Some (String _ _) => true
  | _ => false
  end.

(** [a || b] *)
Definition js_or (a b : option string) : option string :=
  if truthy a then a else b.

Definition or_default (a : option string) (d : string) : string :=
  match js_or a (Some d) with
  | Some s => s
  | None => d
  end.

Definition Status_eqb (a b : Status) : bool :=
  match a, b with
  | pending, pending | executed, executed
  | completed, completed | cancelled, cancelled => true
  | _, _ => false
  end.

(** *** State and exceptions *)

Definition M (A : Type) : Type := HTLCResolver -> Result A * HTLCResolver.

Definition ret {A : Type} (a : A) : M A := fun r => (Ok a, r).

Definition throw {A : Type} (e : Error) : M A := fun r => (Err e, r).

Definition bind {A B : Type} (m : M A) (k : A -> M B) : M B :=
  fun r =>
    match m r with
    | (Ok a, r') => k a r'
    | (Err e, r') => (Err e, r')
    end.

Definition lift {A : Type} (x : Result A) : M A := fun r => (x, r).

(** [try { m } catch (error) { h error }]: what [m] did to the resolver
    before it threw stays done. *)
Definition try_catch {A : Type} (m : M A) (h : Error -> M A) : M A :=
  fun r =>
    match m r with
    | (Ok a, r') => (Ok a, r')
    | (Err e, r') => h e r'
    end.

Declare Scope resolver_scope.
Delimit Scope resolver_scope with resolver.
Notation "'let*' x ':=' m 'in' k" := (bind m (fun x => k))
  (at level 10, x name, m at level 100, k at level 200) : resolver_scope.
Local Open Scope resolver_scope.

(** [this.orders.get(key)] *)
Definition orders_get (key : string) : M (option SwapOrder) :=
  fun r => (Ok (orders r !! key), r).

Definition with_orders (r : HTLCResolver) (m : gmap string SwapOrder) : HTLCResolver :=
  {| orders := m;
     providers := providers r;
     resolverWallet := resolverWallet r;
     chains := chains r |}.

(** [this.orders.set(key, order)] *)
Definition orders_set (key : string) (order : SwapOrder) : M unit :=
  fun r => (Ok tt, with_orders r (<[key := order]> (orders r))).

Definition present {A : Type} (v : option A) : bool :=
  match v with
  | Some _ => true
  | None => false
  end.

(** [!this.providers.get(id) || !this.resolverWallet.get(id)]: a provider or
    wallet object is truthy whenever it is there. *)
Definition unconfigured (id : Z) (r : HTLCResolver) : bool :=
  negb (present (providers r !! id)) || negb (present (resolverWallet r !! id)).

Definition require_provider (id : Z) : M unit :=
  fun r => if unconfigured id r then (Err (NoProvider id), r) else (Ok tt, r).

(** [this.chains.find(c => c.chainId === id)?.htlcFactory], when truthy. *)
Definition factory_of (id : Z) : M string :=
  fun r =>
    match List.find (fun c => chainId c =? id) (chains r) with
    | Some c =>
        if truthy (Some (htlcFactory c)) then (Ok (htlcFactory c), r)
        else (Err (NoFactory id), r)
    | None => (Err (NoFactory id), r)
    end.

(** *** The constructor and [initializeProviders] *)

Definition SEPOLIA : Z := 11155111.
Definition POLYGON_AMOY : Z := 80002.

Definition configured_chains (env : ProcessEnv) : list ChainConfig :=
  [ {| chainId := SEPOLIA;
       rpcUrl := or_default (SEPOLIA_RPC_URL env) "https://ethereum-sepolia.publicnode.com";
       htlcFactory := or_default (SEPOLIA_HTLC_FACTORY env)
                                 "0xb89F0578D3C1Ddf9aEa843840445E05F1e9E242A";
       name := "Sepolia" |};
    {| chainId := POLYGON_AMOY;
       rpcUrl := or_default (POLYGON_AMOY_RPC_URL env) "https://rpc-amoy.polygon.technology";
       htlcFactory := or_default (POLYGON_AMOY_HTLC_FACTORY env)
                                 "0xb89F0578D3C1Ddf9aEa843840445E05F1e9E242A";
       name := "Polygon Amoy" |} ].

Definition initializeProviders (net : Network) (env : ProcessEnv)
    (r : HTLCResolver) : HTLCResolver :=
  match js_or (RESOLVER_PRIVATE_KEY env) None with
  | None => r
  | Some resolverPrivateKey =>
      fold_left
        (fun r chain =>
           match rpc_wallet net resolverPrivateKey with
           | Ok wallet =>
               {| orders := orders r;
                  providers := <[chainId chain := rpcUrl chain]> (providers r);
                  resolverWallet := <[chainId chain := wallet]> (resolverWallet r);
                  chains := chains r |}
           | Err _ => r
           end)
        (chains r) r
  end.

Definition new_HTLCResolver (net : Network) (env : ProcessEnv) : HTLCResolver :=
  initializeProviders net env
    {| orders := ∅; providers := ∅; resolverWallet := ∅;
       chains := configured_chains env |}.

(** *** createSwapOrder *)

(** [AbiCoder.defaultAbiCoder().encode(['address', 'uint256', 'uint256',
    'address', 'address', 'uint256', 'uint256', 'bytes32', 'uint256'], ...)]:
    nine static words, coded left to right. *)
Definition encodeOrderData (maker : string) (srcChainId dstChainId : Z)
    (srcToken dstToken srcAmount dstAmount hashLock : string) (timelock : Z)
  : Result string :=
  (let* w1 := Ethers.encode_address maker in
   let* w2 := Ethers.encode_uint256_number srcChainId in
   let* w3 := Ethers.encode_uint256_number dstChainId in
   let* w4 := Ethers.encode_address srcToken in
   let* w5 := Ethers.encode_address dstToken in
   let* w6 := Ethers.encode_uint256_string srcAmount in
   let* w7 := Ethers.encode_uint256_string dstAmount in
   let* w8 := Ethers.encode_bytes32 hashLock in
   let* w9 := Ethers.encode_uint256_number timelock in
   Ok (Ethers.hexlify (w1 ++ w2 ++ w3 ++ w4 ++ w5 ++ w6 ++ w7 ++ w8 ++ w9)))%result.

(** [random] is what [randomBytes(32)] returns and [nowMs] what
    [Date.now()] returns during the call. *)
Definition createSwapOrder (random : bytes) (nowMs : Z) (params : Params.t)
  : M SwapOrder :=
  try_catch
    ((* Generate secret and hash lock *)
     let secret := Ethers.hexlify random in
     let* hashLock := lift (Ethers.keccak256 secret) in
     (* Ensure addresses are properly checksummed *)
     let* maker := lift (Ethers.getAddress (Params.maker params)) in
     let* srcToken := lift (Ethers.getAddress (Params.srcToken params)) in
     let* dstToken := lift (Ethers.getAddress (Params.dstToken params)) in
     (* Create order hash *)
     let* orderData :=
       lift (encodeOrderData maker (Params.srcChainId params)
               (Params.dstChainId params) srcToken dstToken
               (Params.srcAmount params) (Params.dstAmount params)
               hashLock (Params.timelock params)) in
     let* orderHash := lift (Ethers.keccak256 orderData) in
     let order :=
       {| orderHash := orderHash;
          maker := Params.maker params;
          srcChainId := Params.srcChainId params;
          dstChainId := Params.dstChainId params;
          srcToken := Params.srcToken params;
          dstToken := Params.dstToken params;
          srcAmount := Params.srcAmount params;
          dstAmount := Params.dstAmount params;
          timelock := Params.timelock params;
          secret := secret;
          hashLock := hashLock;
          status := pending;
          createdAt := nowMs / 1000;
          srcHTLCAddress := None;
          dstHTLCAddress := None;
          srcTxHash := None;
          dstTxHash := None |} in
     let* _ := orders_set orderHash order in
     ret order)
    (fun error => throw (FailedToCreateSwapOrder error)).

(** *** executeSwap *)

Definition with_deployment (order : SwapOrder) (srcTx dstTx srcHTLC dstHTLC : string)
  : SwapOrder :=
  {| orderHash := orderHash order;
     maker := maker order;
     srcChainId := srcChainId order;
     dstChainId := dstChainId order;
     srcToken := srcToken order;
     dstToken := dstToken order;
     srcAmount := srcAmount order;
     dstAmount := dstAmount order;
     timelock := timelock order;
     secret := secret order;
     hashLock := hashLock order;
     status := executed;
     createdAt := createdAt order;
     srcHTLCAddress := Some srcHTLC;
     dstHTLCAddress := Some dstHTLC;
     srcTxHash := Some srcTx;
     dstTxHash := Some dstTx |}.

(** Step 1 of [executeSwap]: approval and deployment on the source chain.
    Returns the receipt's hash and the escrow's address; the order object
    is not touched. *)
Definition deploySourceLeg (net : Network) (env : ProcessEnv)
    (orderHash : string) (order : SwapOrder) : M (string * string) :=
  let* _ := require_provider (srcChainId order) in
  let* srcFactory := factory_of (srcChainId order) in
  (* Create maker wallet to approve tokens *)
  match js_or (MAKER_PRIVATE_KEY env) (js_or (RESOLVER_PRIVATE_KEY env) None) with
  | None => throw NoMakerKey
  | Some makerPrivateKey =>
      let* makerWallet := lift (rpc_wallet net makerPrivateKey) in
      (* Approve HTLC Factory to spend maker's tokens *)
      let* _ := lift (rpc_approve net (srcChainId order) (srcToken order)
                        makerWallet srcFactory (srcAmount order)) in
      let* srcReceipt :=
        lift (rpc_deploySourceHTLC net (srcChainId order) srcFactory makerWallet
                {| arg_orderHash := orderHash;
                   arg_party := maker order;
                   arg_makerAsset := srcToken order;
                   arg_makingAmount := srcAmount order;
                   arg_takerAsset := dstToken order;
                   arg_takingAmount := dstAmount order;
                   arg_hashLock := hashLock order;
                   arg_timelock := timelock order;
                   arg_chainId := dstChainId order |}) in
      (* Get the deployed HTLC address *)
      let* srcHTLCAddress :=
        lift (rpc_getSourceHTLC net (srcChainId order) srcFactory orderHash) in
      ret (srcReceipt, srcHTLCAddress)
  end.

(** Step 2 of [executeSwap]: the same on the destination chain, signed by
    the taker. *)
Definition deployDestinationLeg (net : Network) (env : ProcessEnv)
    (orderHash : string) (order : SwapOrder) : M (string * string) :=
  let* _ := require_provider (dstChainId order) in
  let* dstFactory := factory_of (dstChainId order) in
  (* Create taker wallet to approve tokens *)
  match js_or (TAKER_PRIVATE_KEY env) (js_or (RESOLVER_PRIVATE_KEY env) None) with
  | None => throw NoTakerKey
  | Some takerPrivateKey =>
      let* takerWallet := lift (rpc_wallet net takerPrivateKey) in
      (* Approve HTLC Factory to spend taker's tokens *)
      let* _ := lift (rpc_approve net (dstChainId order) (dstToken order)
                        takerWallet dstFactory (dstAmount order)) in
      let* dstReceipt :=
        lift (rpc_deployDestinationHTLC net (dstChainId order) dstFactory takerWallet
                {| arg_orderHash := orderHash;
                   arg_party := takerWallet;
                   arg_makerAsset := srcToken order;
                   arg_makingAmount := srcAmount order;
                   arg_takerAsset := dstToken order;
                   arg_takingAmount := dstAmount order;
                   arg_hashLock := hashLock order;
                   arg_timelock := timelock order;
                   arg_chainId := srcChainId order |}) in
      (* Get the deployed HTLC address *)
      let* dstHTLCAddress :=
        lift (rpc_getDestinationHTLC net (dstChainId order) dstFactory orderHash) in
      ret (dstReceipt, dstHTLCAddress)
  end.

Definition executeSwap (net : Network) (env : ProcessEnv)
    (orderHash makerSignature : string) : M ExecuteResult :=
  let* found := orders_get orderHash in
  match found with
  | None => throw OrderNotFound
  | Some order =>
      if negb (Status_eqb (status order) pending)
      then throw (CannotExecute (status order))
      else
        try_catch
          ((* Step 1: Deploy source HTLC *)
           let* src := deploySourceLeg net env orderHash order in
           (* Step 2: Deploy destination HTLC *)
           let* dst := deployDestinationLeg net env orderHash order in
           (* Update order with transaction details *)
           let* _ := orders_set orderHash
                       (with_deployment order (fst src) (fst dst) (snd src) (snd dst)) in
           ret {| exec_success := true;
                  exec_srcTxHash := Some (fst src);
                  exec_dstTxHash := Some (fst dst) |})
          (fun error => throw error)
  end.

(** *** getSwapStatus *)

Definition getSwapStatus (orderHash : string) : M (option SwapOrder) :=
  orders_get orderHash.

(** *** withdraw and cancel *)

(** [chainId === order.srcChainId ? order.srcHTLCAddress : order.dstHTLCAddress] *)
Definition selectHTLC (chainId : Z) (order : SwapOrder) : option string :=
  if chainId =? srcChainId order then srcHTLCAddress order else dstHTLCAddress order.

Definition withdraw (net : Network) (orderHash secret : string) (chainId : Z)
  : M TxResult :=
  let* found := orders_get orderHash in
  match found with
  | None => throw OrderNotFound
  | Some order =>
      (* Verify secret *)
      let* digest := lift (Ethers.keccak256 secret) in
      if negb (String.eqb digest (hashLock order)) then throw InvalidSecret
      else
        try_catch
          (let* _ := require_provider chainId in
           (* Determine which HTLC to withdraw from *)
           let htlcAddress := selectHTLC chainId order in
           match js_or htlcAddress None with
           | None => throw (NoHTLCAddress chainId)
           | Some htlc =>
               let* withdrawReceipt := lift (rpc_withdraw net chainId htlc secret) in
               ret {| tx_success := true; tx_txHash := Some withdrawReceipt |}
           end)
          (fun error => throw (FailedToWithdraw error))
  end.

Definition with_status (order : SwapOrder) (s : Status) : SwapOrder :=
  {| orderHash := orderHash order;
     maker := maker order;
     srcChainId := srcChainId order;
     dstChainId := dstChainId order;
     srcToken := srcToken order;
     dstToken := dstToken order;
     srcAmount := srcAmount order;
     dstAmount := dstAmount order;
     timelock := timelock order;
     secret := secret order;
     hashLock := hashLock order;
     status := s;
     createdAt := createdAt order;
     srcHTLCAddress := srcHTLCAddress order;
     dstHTLCAddress := dstHTLCAddress order;
     srcTxHash := srcTxHash order;
     dstTxHash := dstTxHash order |}.

(** [Date.now() / 1000 < order.timelock] is [nowMs < 1000 * timelock]. *)
Definition cancel (net : Network) (nowMs : Z) (orderHash : string) (chainId : Z)
  : M TxResult :=
  let* found := orders_get orderHash in
  match found with
  | None => throw OrderNotFound
  | Some order =>
      if nowMs <? 1000 * timelock order then throw CannotCancelBeforeTimelock
      else
        try_catch
          (let* _ := require_provider chainId in
           let htlcAddress := selectHTLC chainId order in
           match js_or htlcAddress None with
           | None => throw (NoHTLCAddress chainId)
           | Some htlc =>
               let* cancelReceipt := lift (rpc_cancel net chainId htlc) in
               (* Update order status *)
               let* _ := orders_set orderHash (with_status order cancelled) in
               ret {| tx_success := true; tx_txHash := Some cancelReceipt |}
           end)
          (fun error => throw (FailedToCancel error))
  end.

(** *** The [POST /swap/create] handler of index.ts *)

Record CreateBody : Type := {
  body_maker : option string;
  body_srcChainId : option Z;
  body_dstChainId : option Z;
  body_srcToken : option string;
  body_dstToken : option string;
  body_srcAmount : option string;
  body_dstAmount : option string;
  body_timelock : option Z
}.

Inductive Response : Type :=
  | Json (order : SwapOrder)
  | Status400 (error : string)
  | Status500 (error : string) (details : Error).

(** JavaScript truthiness of [number | undefined]. *)
Definition truthy_number (v : option Z) : bool :=
  match v with
  | Some n => negb (n =? 0)
  | None => false
  end.

(** The argument that the handler builds for [createSwapOrder] once the
    request passed its check; [handlerNowMs] is the handler's own reading of
    [Date.now()], used for the default timelock. *)
Definition params_of_body (handlerNowMs : Z) (body : CreateBody) : Params.t :=
  let text v := match v with Some s => s | None => EmptyString end in
  let number v := match v with Some n => n | None => 0 end in
  {| Params.maker := text (body_maker body);
     Params.srcChainId := number (body_srcChainId body);
     Params.dstChainId := number (body_dstChainId body);
     Params.srcToken := text (body_srcToken body);
     Params.dstToken := text (body_dstToken body);
     Params.srcAmount := text (body_srcAmount body);
     Params.dstAmount := text (body_dstAmount body);
     Params.timelock :=
       if truthy_number (body_timelock body) then number (body_timelock body)
       else handlerNowMs / 1000 + 24 * 60 * 60 (* 24 hours default *) |}.

Definition post_swap_create (random : bytes) (handlerNowMs nowMs : Z)
    (body : CreateBody) (r : HTLCResolver) : Response * HTLCResolver :=
  (* Validate request *)
  if negb (truthy (body_maker body)) || negb (truthy_number (body_srcChainId body))
     || negb (truthy_number (body_dstChainId body)) || negb (truthy (body_srcToken body))
     || negb (truthy (body_dstToken body)) || negb (truthy (body_srcAmount body))
     || negb (truthy (body_dstAmount body))
  then (Status400 "Missing required fields", r)
  else
    match createSwapOrder random nowMs (params_of_body handlerNowMs body) r with
    | (Ok swapOrder, r') => (Json swapOrder, r')
    | (Err error, r') => (Status500 "Failed to create swap order" error, r')
    end.

(** *** Runs of the resolver *)

Inductive Op : Type :=
  | OpCreate (random : bytes) (nowMs : Z) (params : Params.t)
  | OpExecute (net : Network) (env : ProcessEnv) (orderHash makerSignature : string)
  | OpWithdraw (net : Network) (orderHash secret : string) (chainId : Z)
  | OpCancel (net : Network) (nowMs : Z) (orderHash : string) (chainId : Z).

Definition run (op : Op) (r : HTLCResolver) : HTLCResolver :=
  match op with
  | OpCreate random nowMs params => snd (createSwapOrder random nowMs params r)
  | OpExecute net env orderHash makerSignature =>
      snd (executeSwap net env orderHash makerSignature r)
  | OpWithdraw net orderHash secret chainId =>
      snd (withdraw net orderHash secret chainId r)
  | OpCancel net nowMs orderHash chainId =>
      snd (cancel net nowMs orderHash chainId r)
  end.

(** The resolver objects that a process can hold: the freshly constructed
    one, and whatever an operation leaves behind. *)
Inductive reachable : HTLCResolver -> Prop :=
  | reachable_new (net : Network) (env : ProcessEnv) :
      reachable (new_HTLCResolver net env)
  | reachable_run (op : Op) (r : HTLCResolver) :
      reachable r -> reachable (run op r).

End Resolver.

(** ** Sequences of transactions against one escrow

    Both escrow contracts answer the same two calls (the [HTLC_ABI] of the
    resolver).  A history is a list of transactions, each with its own block
    time, sender and token behaviour; a reverted one leaves the storage
    untouched. *)

Inductive Call : Type :=
  | CallWithdraw (preimage : Z)
  | CallCancel.

Class Escrow (C : Type) : Type := {
  escrow_state : C -> State;
  escrow_withdraw : Tx -> Tokens -> Z -> C -> Result (C * list Log);
  escrow_cancel : Tx -> Tokens -> C -> Result (C * list Log)
}.

#[export] Instance SourceEscrow : Escrow HTLCSource.Contract := {
  escrow_state c := HTLCSource.state (HTLCSource.htlcData c);
  escrow_withdraw := HTLCSource.withdraw;
  escrow_cancel := HTLCSource.cancel
}.

#[export] Instance DestinationEscrow : Escrow HTLCDestination.Contract := {
  escrow_state c := HTLCDestination.state (HTLCDestination.htlcData c);
  escrow_withdraw := HTLCDestination.withdraw;
  escrow_cancel := HTLCDestination.cancel
}.

Definition call {C : Type} `{Escrow C} (tx : Tx) (tok : Tokens) (what : Call) (c : C)
  : Result (C * list Log) :=
  match what with
  | CallWithdraw preimage => escrow_withdraw tx tok preimage c
  | CallCancel => escrow_cancel tx tok c
  end.

(** The storage after a history, and how many of its transactions went
    through. *)
Fixpoint history {C : Type} `{Escrow C} (txs : list (Tx * Tokens * Call)) (c : C)
  : C * nat :=
  match txs with
  | [] => (c, O)
  | (tx, tok, what) :: rest =>
      match call tx tok what c with
      | Ok (c', _) => let '(c'', n) := history rest c' in (c'', S n)
      | Err _ => history rest c
      end
  end.

(** ** A worked swap

    The data of the end-to-end scenario: a maker swapping ROSE on Sepolia
    for TULIP on Polygon Amoy, with the token addresses of the resolver's
    own table. *)

Module Scenario.
Import Resolver.

Definition env : ProcessEnv :=
  {| RESOLVER_PRIVATE_KEY :=
       Some "0x0123456789abcdef0123456789abcdef0123456789abcdef0123456789abcdef";
     MAKER_PRIVATE_KEY := None;
     TAKER_PRIVATE_KEY := None;
     SEPOLIA_RPC_URL := None;
     SEPOLIA_HTLC_FACTORY := None;
     POLYGON_AMOY_RPC_URL := None;
     POLYGON_AMOY_HTLC_FACTORY := None |}.

Definition wallet : string := "0x5aAeb6053F3E94C9b9A09f33669435E7Ef1BeAed".
Definition srcEscrow : string := "0xfB6916095ca1df60bB79Ce92cE3Ea74c37c5d359".
Definition dstEscrow : string := "0xdbF03B407c01E7cD3CBea99509d93f8DDDC8C6FB".

(** A network on which every call goes through. *)
Definition online : Network :=
  {| rpc_wallet := fun _ => Ok wallet;
     rpc_approve := fun _ _ _ _ _ => Ok tt;
     rpc_deploySourceHTLC := fun _ _ _ _ => Ok "0xa1";
     rpc_deployDestinationHTLC := fun _ _ _ _ => Ok "0xb2";
     rpc_getSourceHTLC := fun _ _ _ => Ok srcEscrow;
     rpc_getDestinationHTLC := fun _ _ _ => Ok dstEscrow;
     rpc_withdraw := fun _ _ _ => Ok "0xc3";
     rpc_cancel := fun _ _ => Ok "0xd4" |}.

(** The same network, except that the destination factory's deployment
    transaction fails. *)
Definition destination_down : Network :=
  {| rpc_wallet := rpc_wallet online;
     rpc_approve := rpc_approve online;
     rpc_deploySourceHTLC := rpc_deploySourceHTLC online;
     rpc_deployDestinationHTLC := fun _ _ _ _ => Err (ChainError "transaction reverted");
     rpc_getSourceHTLC := rpc_getSourceHTLC online;
     rpc_getDestinationHTLC := rpc_getDestinationHTLC online;
     rpc_withdraw := rpc_withdraw online;
     rpc_cancel := rpc_cancel online |}.

Definition t0 : Z := 1700000000.                (* unix seconds *)

Definition params : Params.t :=
  {| Params.maker := wallet;
     Params.srcChainId := SEPOLIA;
     Params.dstChainId := POLYGON_AMOY;
     Params.srcToken := "0xb4E06750949B30B7A69DEa2FfD537C438Af44708";
     Params.dstToken := "0x71F4091F883A265F164907e7a70Fb44be20a0CF3";
     Params.srcAmount := "100000000000000000000";
     Params.dstAmount := "99000000000000000000";
     Params.timelock := t0 + 7200 |}.

Definition zero_amount_params : Params.t :=
  {| Params.maker := Params.maker params;
     Params.srcChainId := Params.srcChainId params;
     Params.dstChainId := Params.dstChainId params;
     Params.srcToken := Params.srcToken params;
     Params.dstToken := Params.dstToken params;
     Params.srcAmount := "0";
     Params.dstAmount := Params.dstAmount params;
     Params.timelock := Params.timelock params |}.

Definition zero_amount_body : CreateBody :=
  {| body_maker := Some (Params.maker params);
     body_srcChainId := Some SEPOLIA;
     body_dstChainId := Some POLYGON_AMOY;
     body_srcToken := Some (Params.srcToken params);
     body_dstToken := Some (Params.dstToken params);
     body_srcAmount := Some "0";
     body_dstAmount := Some (Params.dstAmount params);
     body_timelock := Some (t0 + 7200) |}.

Definition random1 : bytes := repeat 0x11 32.
Definition random2 : bytes := repeat 0x22 32.

Definition fresh : HTLCResolver := new_HTLCResolver online env.

Definition no_order : SwapOrder :=
  {| orderHash := EmptyString; maker := EmptyString; srcChainId := 0;
     dstChainId := 0; srcToken := EmptyString; dstToken := EmptyString;
     srcAmount := EmptyString; dstAmount := EmptyString; timelock := 0;
     secret := EmptyString; hashLock := EmptyString; status := pending;
     createdAt := 0; srcHTLCAddress := None; dstHTLCAddress := None;
     srcTxHash := None; dstTxHash := None |}.

Definition returned (x : Result SwapOrder * HTLCResolver) : SwapOrder :=
  match fst x with
  | Ok o => o
  | Err _ => no_order
  end.

(** The first [create], the resolver after it, the order it returns, and
    the order's hash. *)
Abbreviation first_create := (createSwapOrder random1 (1000 * t0) params fresh).

Abbreviation created := (snd first_create).

Definition order1 : SwapOrder := Eval vm_compute in returned first_create.

Definition hash1 : string := orderHash order1.

(** A second [create] with the same parameters and other random bytes. *)
Abbreviation second_create := (createSwapOrder random2 (1000 * t0) params created).

Definition order2 : SwapOrder := Eval vm_compute in returned second_create.

(** The resolver after both escrows of the first order were deployed ... *)
Abbreviation deployed := (snd (executeSwap online env hash1 "0x00"%string created)).

(** ... and after the source leg was cancelled once the timelock passed. *)
Abbreviation cancelled_source :=
  (snd (cancel online (1000 * (t0 + 7200)) hash1 SEPOLIA deployed)).

Definition deployed_order : SwapOrder :=
  with_deployment order1 "0xa1" "0xb2" srcEscrow dstEscrow.

Definition cancelled_order : SwapOrder := with_status deployed_order cancelled.

(** A secret that is not the order's, and its hash. *)
Definition wrong_secret : string := Ethers.hexlify random2.

Definition wrong_digest : string :=
  Eval vm_compute in
    match Ethers.keccak256 wrong_secret with
    | Ok digest => digest
    | Err _ => EmptyString
    end.

(** A [create] with a source amount of zero. *)
Abbreviation zero_create := (createSwapOrder random1 (1000 * t0) zero_amount_params fresh).

Definition order_zero : SwapOrder := Eval vm_compute in returned zero_create.

(** A network whose receipts for [withdraw] and [cancel] name the escrow
    the call was sent to. *)
Definition echo : Network :=
  {| rpc_wallet := rpc_wallet online;
     rpc_approve := rpc_approve online;
     rpc_deploySourceHTLC := rpc_deploySourceHTLC online;
     rpc_deployDestinationHTLC := rpc_deployDestinationHTLC online;
     rpc_getSourceHTLC := rpc_getSourceHTLC online;
     rpc_getDestinationHTLC := rpc_getDestinationHTLC online;
     rpc_withdraw := fun _ htlc _ => Ok htlc;
     rpc_cancel := fun _ htlc => Ok htlc |}.

(** An executed order whose two legs are both on Sepolia, and a resolver
    that stores it. *)
Definition same_chain_order : SwapOrder :=
  {| orderHash := "0x01"; maker := wallet; srcChainId := SEPOLIA;
     dstChainId := SEPOLIA; srcToken := Params.srcToken params;
     dstToken := "0x779877A7B0D9E8603169DdbD7836e478b4624789";
     srcAmount := "5"; dstAmount := "10"; timelock := t0 + 7200;
     secret := secret order1; hashLock := hashLock order1; status := executed;
     createdAt := t0; srcHTLCAddress := Some srcEscrow;
     dstHTLCAddress := Some dstEscrow;
     srcTxHash := Some "0xa1"; dstTxHash := Some "0xb2" |}.

Definition same_chain : HTLCResolver :=
  with_orders fresh {[ "0x01"%string := same_chain_order ]}.

Definition negative_amount_params : Params.t :=
  {| Params.maker := Params.maker params;
     Params.srcChainId := Params.srcChainId params;
     Params.dstChainId := Params.dstChainId params;
     Params.srcToken := Params.srcToken params;
     Params.dstToken := Params.dstToken params;
     Params.srcAmount := "-5";
     Params.dstAmount := Params.dstAmount params;
     Params.timelock := Params.timelock params |}.

(** An escrow on the source chain, one on the destination chain, and a
    factory that has deployed nothing yet. *)
Definition preimage1 : Z := be_word random1 0.

Definition escrow : HTLCSource.Contract :=
  HTLCSource.constructor 1 0xaa 0xbb 100 0xcc 99
    (keccak256_packed preimage1) (t0 + 7200) POLYGON_AMOY.

Definition escrow_dst : HTLCDestination.Contract :=
  HTLCDestination.constructor 1 0xdd 0xbb 100 0xcc 99
    (keccak256_packed preimage1) (t0 + 7200) SEPOLIA.

Definition tokens_ok : Tokens :=
  {| transfer_ok := fun _ _ _ => true; transferFrom_ok := fun _ _ _ => true |}.

Definition at_time (t : Z) : Tx := {| block_timestamp := t; msg_sender := 0xee |}.

Definition empty_factory : HTLCFactory.Factory :=
  {| HTLCFactory.sourceHTLCs := ∅;
     HTLCFactory.destinationHTLCs := ∅;
     HTLCFactory.entered := false |}.

End Scenario.

(** ** Vocabulary of the properties *)

Module Spec.
Import Resolver.

(** The status changes that the life cycle allows, staying put included. *)
Definition allowed (s s' : Status) : Prop :=
  s' = s
  \/ (s = pending /\ s' = executed)
  \/ (s = executed /\ s' = completed)
  \/ ((s = pending \/ s = executed) /\ s' = cancelled).

Definition terminal (s : Status) : Prop := s = completed \/ s = cancelled.

(** The order stored under [h] was [o]; in [r'] it is still stored, and its
    status moved along the life cycle. *)
Definition transition_ok (o : SwapOrder) (h : string) (r' : HTLCResolver) : Prop :=
  exists o', orders r' !! h = Some o'
             /\ allowed (status o) (status o')
             /\ (terminal (status o) -> status o' = status o).

(** No stored order is completed, and a pending one carries no deployment
    data. *)
Definition registry_ok (r : HTLCResolver) : Prop :=
  forall h o, orders r !! h = Some o ->
    status o <> completed
    /\ (status o = pending -> srcHTLCAddress o = None /\ dstHTLCAddress o = None).

Definition throws {A : Type} (x : Result A) : Prop :=
  match x with
  | Ok _ => False
  | Err _ => True
  end.

(** The text denotes a negative integer. *)
Definition negative (amount : string) : Prop :=
  exists v, Ethers.getBigInt_string amount = Ok v /\ v < 0.

(** What makes [createSwapOrder] refuse its argument. *)
Definition refused (params : Params.t) : Prop :=
  throws (Ethers.getAddress (Params.maker params))
  \/ throws (Ethers.getAddress (Params.srcToken params))
  \/ throws (Ethers.getAddress (Params.dstToken params))
  \/ negative (Params.srcAmount params)
  \/ negative (Params.dstAmount params).

End Spec.

(** ** The resolver's queries: getQuote and getStatus *)

Module Queries.
Import Resolver.

(** What [BigInt(...)] and BigInt division throw. *)
Inductive BigIntError : Type :=
  | SyntaxError        (* Cannot convert ... to a BigInt *)
  | DivisionByZero.    (* RangeError: Division by zero *)

Record Quote : Type := {
  quote_srcAmount : string;
  quote_dstAmount : string;
  quote_rate : string;
  quote_priceImpact : string;
  quote_fee : string;
  quote_timelock : Z
}.

(** [QuoteFailed cause] is the error 'Failed to get quote: ...' that the
    [catch] block throws. *)
Inductive QuoteResult : Type :=
  | QuoteOk (quote : Quote)
  | QuoteFailed (cause : BigIntError).

(** [BigInt(value)] for a string. *)
Definition BigInt (value : string) : BigIntError + Z :=
  match Ethers.StringToBigInt value with
  | Some v => inr v
  | None => inl SyntaxError
  end.

(** [a / b] on BigInts: rounds towards zero, throws on a zero divisor. *)
Definition BigInt_div (a b : Z) : BigIntError + Z :=
  if b =? 0 then inl DivisionByZero else inr (Z.quot a b).

(** [value.toString()] of a BigInt. *)
Definition BigInt_toString (value : Z) : string :=
  NilZero.string_of_int (Z.to_int value).

Definition bigint_bind {A : Type} (x : BigIntError + A) (k : A -> QuoteResult)
  : QuoteResult :=
  match x with
  | inr a => k a
  | inl e => QuoteFailed e
  end.

(** [getQuote]: of its parameters only [amount] is read. *)
Definition getQuote (nowMs : Z) (amount : string) : QuoteResult :=
  (* Mock implementation *)
  let srcAmount := amount in
  bigint_bind (BigInt amount) (fun a =>
  bigint_bind (BigInt_div (a * 98) 100) (fun d =>
  let dstAmount := BigInt_toString d in (* 2% slippage *)
  bigint_bind (BigInt dstAmount) (fun d' =>
  bigint_bind (BigInt srcAmount) (fun s =>
  bigint_bind (BigInt_div (d' * 10000) s) (fun rate =>
  (* Use relative timelock (2 hours from current time) *)
  let currentTime := nowMs / 1000 in
  let reasonableTimelock := currentTime + 2 * 60 * 60 in
  QuoteOk {| quote_srcAmount := srcAmount;
             quote_dstAmount := dstAmount;
             quote_rate := BigInt_toString rate;
             quote_priceImpact := "0.5%";
             quote_fee := "0.3%";
             quote_timelock := reasonableTimelock |}))))).

Record ServiceStatus : Type := {
  service_status : string;
  supportedChains : list string;
  activeOrders : nat;
  version : string
}.

(** [o.status === 'pending' || o.status === 'executed'] *)
Definition active (o : SwapOrder) : bool :=
  Status_eqb (status o) pending || Status_eqb (status o) executed.

(** [Array.from(this.orders.values())] *)
Definition orders_values (r : HTLCResolver) : list SwapOrder :=
  List.map snd (map_to_list (orders r)).

Definition getStatus (r : HTLCResolver) : ServiceStatus :=
  {| service_status := "operational";
     supportedChains := List.map name (chains r);
     activeOrders := length (List.filter active (orders_values r));
     version := "1.0.0" |}.

End Queries.

(** ** The other handlers of index.ts

    A request body field is absent or holds a value of its declared type;
    a reply is a status code with its JSON body. *)

Module Http.
Import Resolver Queries.

Inductive Reply (A : Type) : Type :=
  | Reply200 (body : A)
  | Reply400 (error : string)
  | Reply500 (error : string).
Arguments Reply200 {A} body.
Arguments Reply400 {A} error.
Arguments Reply500 {A} error.

Definition text (v : option string) : string :=
  match v with Some s => s | None => EmptyString end.

Definition number (v : option Z) : Z :=
  match v with Some n => n | None => 0 end.

(** [POST /swap/execute] *)
Definition post_swap_execute (net : Network) (env : ProcessEnv)
    (orderHash makerSignature : option string) (r : HTLCResolver)
  : Reply ExecuteResult * HTLCResolver :=
  if negb (truthy orderHash) || negb (truthy makerSignature)
  then (Reply400 "Missing orderHash or makerSignature", r)
  else
    match executeSwap net env (text orderHash) (text makerSignature) r with
    | (Ok result, r') => (Reply200 result, r')
    | (Err _, r') => (Reply500 "Failed to execute swap", r')
    end.

(** [GET /swap/:orderHash/status]: [res.json(status)], [null] included. *)
Definition get_swap_status (orderHash : string) (r : HTLCResolver)
  : Reply (option SwapOrder) * HTLCResolver :=
  match getSwapStatus orderHash r with
  | (Ok status, r') => (Reply200 status, r')
  | (Err _, r') => (Reply500 "Failed to get swap status", r')
  end.

(** [POST /quote] *)
Definition post_quote (nowMs : Z) (srcChainId dstChainId : option Z)
    (srcToken dstToken amount : option string) : Reply Quote :=
  if negb (truthy_number srcChainId) || negb (truthy_number dstChainId)
     || negb (truthy srcToken) || negb (truthy dstToken) || negb (truthy amount)
  then Reply400 "Missing required fields: srcChainId, dstChainId, srcToken, dstToken, amount"
  else
    match getQuote nowMs (text amount) with
    | QuoteOk quote => Reply200 quote
    | QuoteFailed _ => Reply500 "Failed to get quote"
    end.

(** [POST /withdraw] *)
Definition post_withdraw (net : Network) (orderHash secret : option string)
    (chainId : option Z) (r : HTLCResolver) : Reply TxResult * HTLCResolver :=
  if negb (truthy orderHash) || negb (truthy secret) || negb (truthy_number chainId)
  then (Reply400 "Missing required fields: orderHash, secret, chainId", r)
  else
    match withdraw net (text orderHash) (text secret) (number chainId) r with
    | (Ok result, r') => (Reply200 result, r')
    | (Err _, r') => (Reply500 "Failed to withdraw from HTLC", r')
    end.

(** [POST /cancel] *)
Definition post_cancel (net : Network) (nowMs : Z) (orderHash : option string)
    (chainId : option Z) (r : HTLCResolver) : Reply TxResult * HTLCResolver :=
  if negb (truthy orderHash) || negb (truthy_number chainId)
  then (Reply400 "Missing required fields: orderHash, chainId", r)
  else
    match cancel net nowMs (text orderHash) (number chainId) r with
    | (Ok result, r') => (Reply200 result, r')
    | (Err _, r') => (Reply500 "Failed to cancel HTLC", r')
    end.

(** [GET /status] *)
Definition get_status (r : HTLCResolver) : Reply ServiceStatus := Reply200 (getStatus r).

Definition replied_200 {A : Type} (reply : Reply A) : bool :=
  match reply with
  | Reply200 _ => true
  | _ => false
  end.

End Http.

(** ** More vocabulary *)

Module Terms.
Import Resolver.

(** The resolver after a sequence of operations. *)
Definition runs (ops : list Op) (r : HTLCResolver) : HTLCResolver :=
  fold_left (fun r op => run op r) ops r.

Definition is_create (op : Op) : bool :=
  match op with
  | OpCreate _ _ _ => true
  | _ => false
  end.

(** Two order records agree on everything that creation fixes. *)
Definition same_terms (o o' : SwapOrder) : Prop :=
  orderHash o' = orderHash o /\ maker o' = maker o
  /\ srcChainId o' = srcChainId o /\ dstChainId o' = dstChainId o
  /\ srcToken o' = srcToken o /\ dstToken o' = dstToken o
  /\ srcAmount o' = srcAmount o /\ dstAmount o' = dstAmount o
  /\ timelock o' = timelock o /\ secret o' = secret o
  /\ hashLock o' = hashLock o /\ createdAt o' = createdAt o.

Definition is_byte (b : Z) : Prop := 0 <= b < 256.

(** Text that [ethers] reads as exactly 32 bytes. *)
Definition is_bytes32 (s : string) : Prop :=
  exists bs, Ethers.getBytes s = Ok bs /\ length bs = 32%nat /\ Forall is_byte bs.

(** A JavaScript integer that the [uint256] coder takes. *)
Definition safe_uint (n : Z) : Prop := 0 <= n <= 0x1fffffffffffff.

(** Text that the [uint256] coder takes. *)
Definition uint256_text (s : string) : Prop :=
  exists v, Ethers.getBigInt_string s = Ok v /\ 0 <= v <= 2 ^ 256 - 1.

(** Text that [getAddress] maps to [0x] and 40 digits: an address in the
    hexadecimal form, or one in the ICAP form whose number fits 160 bits. *)
Definition valid_address (s : string) : Prop :=
  exists a, Ethers.getAddress s = Ok a /\ String.length a = 42%nat.

(** The parameters that [createSwapOrder] accepts. *)
Definition acceptable (params : Params.t) : Prop :=
  valid_address (Params.maker params)
  /\ valid_address (Params.srcToken params)
  /\ valid_address (Params.dstToken params)
  /\ safe_uint (Params.srcChainId params)
  /\ safe_uint (Params.dstChainId params)
  /\ uint256_text (Params.srcAmount params)
  /\ uint256_text (Params.dstAmount params)
  /\ safe_uint (Params.timelock params).

(** The conditions under which [deploySourceHTLC] and
    [deployDestinationHTLC] go through, [amount] being the amount of the
    escrowed asset and [known] the address recorded for the order hash. *)
Definition deployable (tx : Tx) (entered : bool) (known amount timelock : Z) : Prop :=
  entered = false
  /\ known = 0
  /\ block_timestamp tx + HTLCFactory.MAX_TIMELOCK <= uint256_max
  /\ block_timestamp tx + HTLCFactory.MIN_TIMELOCK <= timelock
     <= block_timestamp tx + HTLCFactory.MAX_TIMELOCK
  /\ 0 < amount.

End Terms.

(** ** More of the worked swap *)

Module Scenario2.
Import Resolver.

(** A process environment without [RESOLVER_PRIVATE_KEY]. *)
Definition env_without_key : ProcessEnv :=
  {| RESOLVER_PRIVATE_KEY := None;
     MAKER_PRIVATE_KEY := Some "0x01";
     TAKER_PRIVATE_KEY := Some "0x02";
     SEPOLIA_RPC_URL := None;
     SEPOLIA_HTLC_FACTORY := None;
     POLYGON_AMOY_RPC_URL := None;
     POLYGON_AMOY_HTLC_FACTORY := None |}.

(** An order on Ethereum mainnet and BNB chain. *)
Definition foreign_params : Params.t :=
  {| Params.maker := Params.maker Scenario.params;
     Params.srcChainId := 1;
     Params.dstChainId := 56;
     Params.srcToken := Params.srcToken Scenario.params;
     Params.dstToken := Params.dstToken Scenario.params;
     Params.srcAmount := Params.srcAmount Scenario.params;
     Params.dstAmount := Params.dstAmount Scenario.params;
     Params.timelock := Params.timelock Scenario.params |}.

Abbreviation foreign_create :=
  (createSwapOrder Scenario.random1 (1000 * Scenario.t0) foreign_params Scenario.fresh).

Definition foreign_order : SwapOrder :=
  Eval vm_compute in Scenario.returned foreign_create.

(** The parameters of the worked swap with the addresses spelled in lower
    case and without prefix. *)
Definition respelled_params : Params.t :=
  {| Params.maker := "5aaeb6053f3e94c9b9a09f33669435e7ef1beaed";
     Params.srcChainId := Params.srcChainId Scenario.params;
     Params.dstChainId := Params.dstChainId Scenario.params;
     Params.srcToken := "0xb4e06750949b30b7a69dea2ffd537c438af44708";
     Params.dstToken := "0x71f4091f883a265f164907e7a70fb44be20a0cf3";
     Params.srcAmount := Params.srcAmount Scenario.params;
     Params.dstAmount := Params.dstAmount Scenario.params;
     Params.timelock := Params.timelock Scenario.params |}.

Abbreviation respelled_create :=
  (createSwapOrder Scenario.random1 (1000 * Scenario.t0) respelled_params Scenario.fresh).

Definition respelled_order : SwapOrder :=
  Eval vm_compute in Scenario.returned respelled_create.

(** The parameters of the worked swap with the maker in the ICAP form,
    and with an ICAP maker whose number needs 161 bits. *)
Definition icap_maker : string := "XE7338O073KYGTWWZN0F2WZ0R8PX5ZPPZS".

Definition with_maker (maker : string) : Params.t :=
  {| Params.maker := maker;
     Params.srcChainId := Params.srcChainId Scenario.params;
     Params.dstChainId := Params.dstChainId Scenario.params;
     Params.srcToken := Params.srcToken Scenario.params;
     Params.dstToken := Params.dstToken Scenario.params;
     Params.srcAmount := Params.srcAmount Scenario.params;
     Params.dstAmount := Params.dstAmount Scenario.params;
     Params.timelock := Params.timelock Scenario.params |}.

Abbreviation icap_create :=
  (createSwapOrder Scenario.random1 (1000 * Scenario.t0) (with_maker icap_maker)
     Scenario.fresh).

Definition icap_order : SwapOrder := Eval vm_compute in Scenario.returned icap_create.

Definition long_icap_maker : string := "XE54ZZZZZZZZZZZZZZZZZZZZZZZZZZZZZZZ".

Abbreviation long_icap_create :=
  (createSwapOrder Scenario.random1 (1000 * Scenario.t0) (with_maker long_icap_maker)
     Scenario.fresh).

End Scenario2.

(** ** What a history pays out *)

Module Payout.

(** The log of a history: what the transactions that went through
    emitted, in order. *)
Fixpoint emitted {C : Type} `{Escrow C} (txs : list (Tx * Tokens * Call)) (c : C)
  : list Log :=
  match txs with
  | [] => []
  | (tx, tok, what) :: rest =>
      match call tx tok what c with
      | Ok (c', log) => log ++ emitted rest c'
      | Err _ => emitted rest c
      end
  end.

Definition senders (txs : list (Tx * Tokens * Call)) : list Tx :=
  List.map (fun x => fst (fst x)) txs.

(** The log shows no payment, or one withdrawal before the timelock by a
    sender who gave a preimage of the hash lock, or one refund to [owner]
    at or after the timelock; a payment is the whole [amount] of [asset]. *)
Definition paid_once (asset amount owner orderHash hashLock timelock : Z)
    (txs : list Tx) (log : list Log) : Prop :=
  log = []
  \/ (exists tx preimage,
        In tx txs /\ block_timestamp tx < timelock
        /\ keccak256_packed preimage = hashLock
        /\ log = [Transfer asset (msg_sender tx) amount;
                  Withdrawn orderHash (msg_sender tx) preimage])
  \/ (exists tx,
        In tx txs /\ timelock <= block_timestamp tx
        /\ log = [Transfer asset owner amount; Cancelled orderHash (msg_sender tx)]).

End Payout.

(** ** Decimal text *)

Module Text.

Definition is_decimal_digit (c : ascii) : bool := in_range 48 57 (code c).

(** Text made of decimal digits only. *)
Definition decimal (s : string) : bool := forall_string is_decimal_digit s.

Definition spaceless (s : string) : bool :=
  forall_string (fun c => negb (Ethers.is_space c)) s.

End Text.

(** ** Counting *)

Module Count.
Import Resolver Queries.

(** What an order adds to [activeOrders]. *)
Definition counted (o : SwapOrder) : nat := if active o then 1%nat else 0%nat.

End Count.

(** ** The token table and getSupportedTokens *)

Module TokenTable.
Import Resolver.

Record TokenConfig : Type := {
  token_address : string;
  token_symbol : string;
  token_name : string;
  token_decimals : Z
}.

(** The [tokens] field of the class: read-only, the same in every
    resolver. *)
Definition tokens : gmap Z (list TokenConfig) :=
  <[SEPOLIA :=
      [ {| token_address := "0xb4E06750949B30B7A69DEa2FfD537C438Af44708";
           token_symbol := "ROSE";
           token_name := "Rose Token";
           token_decimals := 18 |} ]]>
  (<[POLYGON_AMOY :=
      [ {| token_address := "0x71F4091F883A265F164907e7a70Fb44be20a0CF3";
           token_symbol := "TULIP";
           token_name := "Tulip Token";
           token_decimals := 6 |} ]]> ∅).

(** [this.tokens.get(chainId) || []]: an array is truthy. *)
Definition getSupportedTokens (chainId : Z) : list TokenConfig :=
  match tokens !! chainId with
  | Some listed => listed
  | None => []
  end.

End TokenTable.

(** * Properties *)

(** ** The resolver's operations, one by one *)

Section ResolverFacts.
Import Resolver.

Ltac monad :=
  cbv beta iota delta
    [bind ret throw lift try_catch orders_get orders_set require_provider fst snd].

(** [createSwapOrder] either throws its wrapped error and leaves the
    resolver alone, or stores the order it returns under the order's hash;
    that order is pending, has no deployment data, and its hash lock is the
    hash of its secret. *)
Lemma createSwapOrder_inv (random : bytes) (nowMs : Z) (params : Params.t)
    (r : HTLCResolver) :
  (exists e, createSwapOrder random nowMs params r = (Err (FailedToCreateSwapOrder e), r))
  \/ (exists o maker srcToken dstToken orderData,
        createSwapOrder random nowMs params r
          = (Ok o, with_orders r (<[orderHash o := o]> (orders r)))
        /\ secret o = Ethers.hexlify random
        /\ Ethers.keccak256 (secret o) = Ok (hashLock o)
        /\ Ethers.getAddress (Params.maker params) = Ok maker
        /\ Ethers.getAddress (Params.srcToken params) = Ok srcToken
        /\ Ethers.getAddress (Params.dstToken params) = Ok dstToken
        /\ encodeOrderData maker (Params.srcChainId params) (Params.dstChainId params)
             srcToken dstToken (Params.srcAmount params) (Params.dstAmount params)
             (hashLock o) (Params.timelock params) = Ok orderData
        /\ Ethers.keccak256 orderData = Ok (orderHash o)
        /\ status o = pending
        /\ srcHTLCAddress o = None /\ dstHTLCAddress o = None).
Proof.
  unfold createSwapOrder. monad.
  destruct (Ethers.keccak256 (Ethers.hexlify random)) as [hl|e] eqn:Hhl; [|left; eauto].
  destruct (Ethers.getAddress (Params.maker params)) as [mk|e] eqn:Hmk; [|left; eauto].
  destruct (Ethers.getAddress (Params.srcToken params)) as [st|e] eqn:Hst; [|left; eauto].
  destruct (Ethers.getAddress (Params.dstToken params)) as [dt|e] eqn:Hdt; [|left; eauto].
  destruct (encodeOrderData mk _ _ st dt _ _ hl _) as [od|e] eqn:Hod; [|left; eauto].
  destruct (Ethers.keccak256 od) as [oh|e] eqn:Hoh; [|left; eauto].
  right.
  match goal with |- context [(Ok ?o, with_orders r _)] => exists o end.
  exists mk, st, dt, od.
  split; [reflexivity|].
  cbn [orderHash secret hashLock status srcHTLCAddress dstHTLCAddress].
  repeat split; assumption.
Qed.

Lemma deploySourceLeg_state net env h order r :
  snd (deploySourceLeg net env h order r) = r.
Proof.
  unfold deploySourceLeg, factory_of. monad.
  destruct (unconfigured _ r); [reflexivity|].
  destruct (List.find _ _) as [c|]; [|reflexivity].
  destruct (truthy _); [|reflexivity].
  destruct (js_or _ _); [|reflexivity].
  destruct (rpc_wallet _ _); [|reflexivity].
  destruct (rpc_approve _ _ _ _ _ _); [|reflexivity].
  destruct (rpc_deploySourceHTLC _ _ _ _ _); [|reflexivity].
  destruct (rpc_getSourceHTLC _ _ _ _); reflexivity.
Qed.

Lemma deployDestinationLeg_state net env h order r :
  snd (deployDestinationLeg net env h order r) = r.
Proof.
  unfold deployDestinationLeg, factory_of. monad.
  destruct (unconfigured _ r); [reflexivity|].
  destruct (List.find _ _) as [c|]; [|reflexivity].
  destruct (truthy _); [|reflexivity].
  destruct (js_or _ _); [|reflexivity].
  destruct (rpc_wallet _ _); [|reflexivity].
  destruct (rpc_approve _ _ _ _ _ _); [|reflexivity].
  destruct (rpc_deployDestinationHTLC _ _ _ _ _); [|reflexivity].
  destruct (rpc_getDestinationHTLC _ _ _ _); reflexivity.
Qed.

(** [executeSwap] in full: the guards, then the two legs in order, and the
    single update of the order after both. *)
Lemma executeSwap_unfold net env h sig r :
  executeSwap net env h sig r =
  match orders r !! h with
  | None => (Err OrderNotFound, r)
  | Some order =>
      if negb (Status_eqb (status order) pending)
      then (Err (CannotExecute (status order)), r)
      else
        match fst (deploySourceLeg net env h order r) with
        | Err e => (Err e, r)
        | Ok src =>
            match fst (deployDestinationLeg net env h order r) with
            | Err e => (Err e, r)
            | Ok dst =>
                (Ok {| exec_success := true;
                       exec_srcTxHash := Some (fst src);
                       exec_dstTxHash := Some (fst dst) |},
                 with_orders r
                   (<[h := with_deployment order (fst src) (fst dst) (snd src) (snd dst)]>
                      (orders r)))
            end
        end
  end.
Proof.
  unfold executeSwap. monad.
  destruct (orders r !! h) as [order|]; [|reflexivity].
  destruct (negb _); [reflexivity|].
  pose proof (deploySourceLeg_state net env h order r) as Hs.
  destruct (deploySourceLeg net env h order r) as [[src|e] r1]; cbn [snd fst] in *;
    subst r1; [|reflexivity].
  pose proof (deployDestinationLeg_state net env h order r) as Hd.
  destruct (deployDestinationLeg net env h order r) as [[dst|e] r2]; cbn [snd fst] in *;
    subst r2; reflexivity.
Qed.

Lemma withdraw_unfold net h s id r :
  withdraw net h s id r =
  match orders r !! h with
  | None => (Err OrderNotFound, r)
  | Some order =>
      match Ethers.keccak256 s with
      | Err e => (Err e, r)
      | Ok digest =>
          if negb (String.eqb digest (hashLock order)) then (Err InvalidSecret, r)
          else if unconfigured id r then (Err (FailedToWithdraw (NoProvider id)), r)
          else
            match js_or (selectHTLC id order) None with
            | None => (Err (FailedToWithdraw (NoHTLCAddress id)), r)
            | Some htlc =>
                match rpc_withdraw net id htlc s with
                | Ok receipt => (Ok {| tx_success := true; tx_txHash := Some receipt |}, r)
                | Err e => (Err (FailedToWithdraw e), r)
                end
            end
      end
  end.
Proof.
  unfold withdraw. monad.
  destruct (orders r !! h) as [order|]; [|reflexivity].
  destruct (Ethers.keccak256 s) as [digest|e]; [|reflexivity].
  destruct (negb _); [reflexivity|].
  destruct (unconfigured id r); [reflexivity|].
  destruct (js_or _ _); [|reflexivity].
  destruct (rpc_withdraw _ _ _ _); reflexivity.
Qed.

Lemma cancel_unfold net nowMs h id r :
  cancel net nowMs h id r =
  match orders r !! h with
  | None => (Err OrderNotFound, r)
  | Some order =>
      if nowMs <? 1000 * timelock order then (Err CannotCancelBeforeTimelock, r)
      else if unconfigured id r then (Err (FailedToCancel (NoProvider id)), r)
      else
        match js_or (selectHTLC id order) None with
        | None => (Err (FailedToCancel (NoHTLCAddress id)), r)
        | Some htlc =>
            match rpc_cancel net id htlc with
            | Ok receipt =>
                (Ok {| tx_success := true; tx_txHash := Some receipt |},
                 with_orders r (<[h := with_status order cancelled]> (orders r)))
            | Err e => (Err (FailedToCancel e), r)
            end
        end
  end.
Proof.
  unfold cancel. monad.
  destruct (orders r !! h) as [order|]; [|reflexivity].
  destruct (nowMs <? _); [reflexivity|].
  destruct (unconfigured id r); [reflexivity|].
  destruct (js_or _ _); [|reflexivity].
  destruct (rpc_cancel _ _ _); reflexivity.
Qed.

(** [withdraw] never writes to the resolver. *)
Lemma withdraw_state net h s id r : snd (withdraw net h s id r) = r.
Proof.
  rewrite withdraw_unfold.
  repeat match goal with
         | |- context [match ?x with _ => _ end] => destruct x
         end; reflexivity.
Qed.

End ResolverFacts.

(** ** Creation *)

Section Creation.
Import Resolver Spec.

(** Successful runs of [createSwapOrder], in the form the claims use. *)
Lemma createSwapOrder_Ok random nowMs params r o r' :
  createSwapOrder random nowMs params r = (Ok o, r') ->
  r' = with_orders r (<[orderHash o := o]> (orders r))
  /\ secret o = Ethers.hexlify random
  /\ Ethers.keccak256 (secret o) = Ok (hashLock o)
  /\ status o = pending
  /\ srcHTLCAddress o = None /\ dstHTLCAddress o = None.
Proof.
  intros H.
  destruct (createSwapOrder_inv random nowMs params r)
    as [[e He] | (o0 & mk & st & dt & od & He & Hs & Hk & _ & _ & _ & _ & _ & Hp & Ha & Hb)];
    rewrite He in H; [discriminate|].
  injection H as <- <-. repeat split; assumption.
Qed.

(** The order hash is a function of the parameters and of the random
    bytes: the clock and the registry do not enter it. *)
Lemma createSwapOrder_hash random now1 now2 params r1 r2 o1 o2 r1' r2' :
  createSwapOrder random now1 params r1 = (Ok o1, r1') ->
  createSwapOrder random now2 params r2 = (Ok o2, r2') ->
  orderHash o1 = orderHash o2 /\ hashLock o1 = hashLock o2 /\ secret o1 = secret o2.
Proof.
  intros H1 H2.
  destruct (createSwapOrder_inv random now1 params r1)
    as [[e He] | (a & mk & st & dt & od & He & Hs & Hk & Hm & Hst & Hdt & Hod & Hoh & _)];
    rewrite He in H1; [discriminate|]. injection H1 as <- _.
  destruct (createSwapOrder_inv random now2 params r2)
    as [[e He'] | (b & mk' & st' & dt' & od' & He' & Hs' & Hk' & Hm' & Hst' & Hdt' & Hod' & Hoh' & _)];
    rewrite He' in H2; [discriminate|]. injection H2 as <- _.
  assert (Hsec : secret a = secret b) by congruence.
  assert (Hhl : hashLock a = hashLock b) by congruence.
  assert (mk = mk') by congruence. assert (st = st') by congruence.
  assert (dt = dt') by congruence. subst mk' st' dt'.
  rewrite Hhl in Hod. assert (od = od') by congruence. subst od'.
  repeat split; congruence.
Qed.

(** C4. For every order that [createSwapOrder] returns, hashing the order's
    secret with [keccak256] gives exactly the order's hash lock. *)
Theorem created_order_hashLock random nowMs params r o r' :
  createSwapOrder random nowMs params r = (Ok o, r') ->
  Ethers.keccak256 (secret o) = Ok (hashLock o).
Proof. intros H. apply createSwapOrder_Ok in H. tauto. Qed.

Lemma pair_of_fst {A B : Type} (p : A * B) (a : A) : fst p = a -> p = (a, snd p).
Proof. intros <-. destruct p; reflexivity. Qed.

Lemma first_create_order1 : fst Scenario.first_create = Ok Scenario.order1.
Proof. vm_compute. reflexivity. Qed.

Lemma second_create_order2 : fst Scenario.second_create = Ok Scenario.order2.
Proof. vm_compute. reflexivity. Qed.

Lemma created_order_hashLock_witness :
  fst Scenario.first_create = Ok Scenario.order1
  /\ Ethers.keccak256 (secret Scenario.order1) = Ok (hashLock Scenario.order1).
Proof.
  split; [exact first_create_order1|].
  exact (created_order_hashLock Scenario.random1 (1000 * Scenario.t0) Scenario.params
           Scenario.fresh Scenario.order1 Scenario.created
           (pair_of_fst Scenario.first_create (Ok Scenario.order1) first_create_order1)).
Defined.

(** C1, as the code has it. Two calls of [createSwapOrder] with the same
    parameters give the same order hash when they draw the same random
    bytes, and then the second call overwrites the entry of the first, so the
    registry keeps its keys; whenever the two order hashes differ, the
    registry holds both orders afterwards, one entry each. *)
Theorem create_twice random1 random2 now1 now2 params r o1 r1 o2 r2 :
  createSwapOrder random1 now1 params r = (Ok o1, r1) ->
  createSwapOrder random2 now2 params r1 = (Ok o2, r2) ->
  (random1 = random2 ->
     orderHash o1 = orderHash o2 /\ dom (orders r2) = dom (orders r1))
  /\ (orderHash o1 <> orderHash o2 ->
        orders r2 !! orderHash o1 = Some o1 /\ orders r2 !! orderHash o2 = Some o2).
Proof.
  intros H1 H2.
  pose proof (createSwapOrder_Ok _ _ _ _ _ _ H1) as (-> & _).
  pose proof (createSwapOrder_Ok _ _ _ _ _ _ H2) as (-> & _).
  cbn [orders with_orders] in *. split.
  - intros <-.
    destruct (createSwapOrder_hash _ _ _ _ _ _ _ _ _ _ H1 H2) as (Hh & _).
    split; [exact Hh|]. rewrite <- Hh.
    rewrite insert_insert_eq, !dom_insert_L. reflexivity.
  - intros Hne. split.
    + rewrite lookup_insert_ne by congruence. apply lookup_insert_eq.
    + apply lookup_insert_eq.
Qed.

Lemma create_twice_witness :
  orderHash Scenario.order1 <> orderHash Scenario.order2
  /\ orders (snd Scenario.second_create) !! orderHash Scenario.order1
     = Some Scenario.order1
  /\ orders (snd Scenario.second_create) !! orderHash Scenario.order2
     = Some Scenario.order2.
Proof.
  assert (Hne : orderHash Scenario.order1 <> orderHash Scenario.order2)
    by (vm_compute; discriminate).
  split; [exact Hne|].
  exact (proj2 (create_twice Scenario.random1 Scenario.random2 (1000 * Scenario.t0)
                  (1000 * Scenario.t0) Scenario.params Scenario.fresh
                  Scenario.order1 Scenario.created Scenario.order2
                  (snd Scenario.second_create)
                  (pair_of_fst Scenario.first_create (Ok Scenario.order1)
                     first_create_order1)
                  (pair_of_fst Scenario.second_create (Ok Scenario.order2)
                     second_create_order2))
               Hne).
Defined.

(** C1, as the specification words it, fails. Two calls with the same
    parameters that draw different random bytes return different order
    hashes, and the registry, empty before, holds two orders afterwards. *)
Lemma create_not_idempotent :
  fst (createSwapOrder Scenario.random1 (1000 * Scenario.t0) Scenario.params
         Scenario.fresh) = Ok Scenario.order1
  /\ fst (createSwapOrder Scenario.random2 (1000 * Scenario.t0) Scenario.params
            Scenario.created) = Ok Scenario.order2
  /\ orderHash Scenario.order1 <> orderHash Scenario.order2
  /\ size (orders Scenario.fresh) = 0%nat
  /\ size (orders Scenario.created) = 1%nat
  /\ size (orders (snd Scenario.second_create)) = 2%nat.
Proof.
  split; [exact first_create_order1|].
  split; [exact second_create_order2|].
  split; [vm_compute; discriminate|].
  split; [vm_compute; reflexivity|].
  split; vm_compute; reflexivity.
Qed.

End Creation.

(** ** The registry along a run *)

Section Registry.
Import Resolver Spec.

Lemma initializeProviders_orders net env r :
  orders (initializeProviders net env r) = orders r.
Proof.
  unfold initializeProviders.
  destruct (js_or _ _) as [key|]; [|reflexivity].
  generalize (chains r). intros cs. revert r.
  induction cs as [|c cs IH]; intros r; [reflexivity|].
  cbn [fold_left]. destruct (rpc_wallet net key); rewrite IH; reflexivity.
Qed.

Lemma registry_ok_insert r h o :
  registry_ok r ->
  status o <> completed ->
  (status o = pending -> srcHTLCAddress o = None /\ dstHTLCAddress o = None) ->
  registry_ok (with_orders r (<[h := o]> (orders r))).
Proof.
  intros Hr Hc Hp k o'. cbn [orders with_orders].
  destruct (decide (h = k)) as [->|Hne].
  - rewrite lookup_insert_eq. intros [= <-]. auto.
  - rewrite lookup_insert_ne by assumption. apply Hr.
Qed.

Lemma run_registry_ok op r : registry_ok r -> registry_ok (run op r).
Proof.
  intros Hr. destruct op as [random nowMs params | net env h sig | net h s id | net nowMs h id];
    cbn [run].
  - destruct (createSwapOrder_inv random nowMs params r)
      as [[e He] | (o & _ & _ & _ & _ & He & _ & _ & _ & _ & _ & _ & _ & Hp & Ha & Hb)];
      rewrite He; cbn [snd]; [assumption|].
    apply registry_ok_insert; [assumption | congruence | auto].
  - rewrite executeSwap_unfold.
    destruct (orders r !! h) as [order|] eqn:Ho; [|assumption].
    destruct (negb _); [assumption|].
    destruct (fst (deploySourceLeg _ _ _ _ _)); [|assumption].
    destruct (fst (deployDestinationLeg _ _ _ _ _)); [|assumption].
    cbn [snd]. apply registry_ok_insert; [assumption | |]; cbn; congruence.
  - rewrite withdraw_state. assumption.
  - rewrite cancel_unfold.
    destruct (orders r !! h) as [order|] eqn:Ho; [|assumption].
    destruct (nowMs <? _); [assumption|].
    destruct (unconfigured id r); [assumption|].
    destruct (js_or _ _); [|assumption].
    destruct (rpc_cancel _ _ _); [|assumption].
    cbn [snd]. apply registry_ok_insert; [assumption | |]; cbn; congruence.
Qed.

(** Nothing the resolver does ever stores a completed order, and a pending
    order never carries escrow addresses. *)
Lemma reachable_registry_ok r : reachable r -> registry_ok r.
Proof.
  induction 1 as [net env | op r _ IH].
  - intros h o. unfold new_HTLCResolver. rewrite initializeProviders_orders.
    cbn [orders]. rewrite lookup_empty. discriminate.
  - apply run_registry_ok, IH.
Qed.

Lemma allowed_refl s : allowed s s.
Proof. left. reflexivity. Qed.

Lemma transition_ok_same o h r : orders r !! h = Some o -> transition_ok o h r.
Proof. intros H. exists o. split; [assumption|]. split; [apply allowed_refl | reflexivity]. Qed.

(** C2. Along every run of the resolver the status of a stored order only
    moves pending to executed, executed to completed, or pending-or-executed
    to cancelled: whatever [executeSwap], [withdraw] or [cancel] is called
    with, the order is still stored afterwards and its status either stayed
    or made one of these moves; in particular a completed or cancelled
    order keeps its status.  ([createSwapOrder] does not touch an order
    stored under another hash than the one it returns.) *)
Theorem status_monotonic (r : HTLCResolver) (h : string) (o : SwapOrder) :
  reachable r ->
  orders r !! h = Some o ->
  (forall net env h' sig, transition_ok o h (snd (executeSwap net env h' sig r)))
  /\ (forall net h' s id, transition_ok o h (snd (withdraw net h' s id r)))
  /\ (forall net nowMs h' id, transition_ok o h (snd (cancel net nowMs h' id r)))
  /\ (forall random nowMs params o' r',
        createSwapOrder random nowMs params r = (Ok o', r') ->
        orderHash o' <> h -> orders r' !! h = Some o).
Proof.
  intros Hreach Ho.
  pose proof (reachable_registry_ok r Hreach h o Ho) as [Hnc _].
  repeat split.
  - intros net env h' sig. rewrite executeSwap_unfold.
    destruct (orders r !! h') as [order|] eqn:Ho'; [|apply transition_ok_same, Ho].
    destruct (Status_eqb (status order) pending) eqn:Hst; cbn [negb];
      [|apply transition_ok_same, Ho].
    destruct (fst (deploySourceLeg _ _ _ _ _)); [|apply transition_ok_same, Ho].
    destruct (fst (deployDestinationLeg _ _ _ _ _)); [|apply transition_ok_same, Ho].
    unfold transition_ok. cbn [snd orders with_orders].
    destruct (decide (h' = h)) as [->|Hne].
    + rewrite Ho in Ho'. injection Ho' as <-.
      eexists. rewrite lookup_insert_eq. split; [reflexivity|].
      cbn [status with_deployment].
      destruct (status o); try discriminate Hst.
      split; [right; left; auto | intros [?|?]; discriminate].
    + exists o. rewrite lookup_insert_ne by assumption.
      split; [assumption|]. split; [apply allowed_refl | reflexivity].
  - intros net h' s id. rewrite withdraw_state. apply transition_ok_same, Ho.
  - intros net nowMs h' id. rewrite cancel_unfold.
    destruct (orders r !! h') as [order|] eqn:Ho'; [|apply transition_ok_same, Ho].
    destruct (nowMs <? _); [apply transition_ok_same, Ho|].
    destruct (unconfigured id r); [apply transition_ok_same, Ho|].
    destruct (js_or _ _); [|apply transition_ok_same, Ho].
    destruct (rpc_cancel _ _ _); [|apply transition_ok_same, Ho].
    unfold transition_ok. cbn [snd orders with_orders].
    destruct (decide (h' = h)) as [->|Hne].
    + rewrite Ho in Ho'. injection Ho' as <-.
      eexists. rewrite lookup_insert_eq. split; [reflexivity|].
      cbn [status with_status].
      destruct (status o) eqn:Hs; try congruence.
      * split; [do 3 right; auto | intros [?|?]; discriminate].
      * split; [do 3 right; auto | intros [?|?]; discriminate].
      * split; [left; reflexivity | reflexivity].
    + exists o. rewrite lookup_insert_ne by assumption.
      split; [assumption|]. split; [apply allowed_refl | reflexivity].
  - intros random nowMs params o' r' Hc Hne.
    apply createSwapOrder_Ok in Hc as (-> & _).
    cbn [orders with_orders]. rewrite lookup_insert_ne by assumption. exact Ho.
Qed.

End Registry.

Section RegistryWitness.
Import Resolver Spec.

Lemma reachable_create random nowMs params r :
  reachable r -> reachable (snd (createSwapOrder random nowMs params r)).
Proof. exact (reachable_run (OpCreate random nowMs params) r). Qed.

Lemma reachable_execute net env h sig r :
  reachable r -> reachable (snd (executeSwap net env h sig r)).
Proof. exact (reachable_run (OpExecute net env h sig) r). Qed.

Lemma reachable_cancel net nowMs h id r :
  reachable r -> reachable (snd (cancel net nowMs h id r)).
Proof. exact (reachable_run (OpCancel net nowMs h id) r). Qed.

Lemma created_reachable : reachable Scenario.created.
Proof. apply reachable_create, reachable_new. Qed.

Lemma cancelled_source_order :
  orders Scenario.cancelled_source !! Scenario.hash1 = Some Scenario.cancelled_order.
Proof. vm_compute. reflexivity. Qed.

Lemma status_monotonic_witness :
  reachable Scenario.cancelled_source
  /\ orders Scenario.cancelled_source !! Scenario.hash1 = Some Scenario.cancelled_order
  /\ status Scenario.cancelled_order = cancelled
  /\ transition_ok Scenario.cancelled_order Scenario.hash1
       (snd (executeSwap Scenario.online Scenario.env Scenario.hash1 "0x00"
               Scenario.cancelled_source))
  /\ transition_ok Scenario.cancelled_order Scenario.hash1
       (snd (cancel Scenario.online (1000 * (Scenario.t0 + 9000)) Scenario.hash1
               POLYGON_AMOY Scenario.cancelled_source)).
Proof.
  assert (Hreach : reachable Scenario.cancelled_source)
    by (apply reachable_cancel, reachable_execute, created_reachable).
  split; [exact Hreach|]. split; [exact cancelled_source_order|].
  split; [reflexivity|].
  pose proof (status_monotonic Scenario.cancelled_source Scenario.hash1
                Scenario.cancelled_order Hreach cancelled_source_order)
    as (He & _ & Hc & _).
  split; [apply He | apply Hc].
Defined.

End RegistryWitness.

(** ** Execution, withdrawal, cancellation *)

Section Mediation.
Import Resolver Spec.

(** C3 fails on the code. [withdraw] goes through on the source chain and
    on the destination chain of an executed order, the resolver is the same
    object after each call, and the order is still [executed]: nothing sets
    [completed]. *)
Theorem withdrawn_on_both_legs_still_executed :
  srcChainId Scenario.order1 = SEPOLIA
  /\ dstChainId Scenario.order1 = POLYGON_AMOY
  /\ status <$> orders Scenario.deployed !! Scenario.hash1 = Some executed
  /\ fst (withdraw Scenario.online Scenario.hash1 (secret Scenario.order1) SEPOLIA
            Scenario.deployed)
     = Ok {| tx_success := true; tx_txHash := Some "0xc3"%string |}
  /\ fst (withdraw Scenario.online Scenario.hash1 (secret Scenario.order1) POLYGON_AMOY
            (snd (withdraw Scenario.online Scenario.hash1 (secret Scenario.order1)
                    SEPOLIA Scenario.deployed)))
     = Ok {| tx_success := true; tx_txHash := Some "0xc3"%string |}
  /\ status <$>
       orders (snd (withdraw Scenario.online Scenario.hash1 (secret Scenario.order1)
                      POLYGON_AMOY
                      (snd (withdraw Scenario.online Scenario.hash1
                              (secret Scenario.order1) SEPOLIA Scenario.deployed))))
         !! Scenario.hash1
     = Some executed.
Proof.
  split; [reflexivity|]. split; [reflexivity|].
  split; [vm_compute; reflexivity|].
  split; [vm_compute; reflexivity|].
  split; vm_compute; reflexivity.
Qed.

(** C6, as the code has it. When the source leg of [executeSwap] went
    through and the destination leg then fails, [executeSwap] throws the
    destination leg's error and the registry is what it was: the order is
    still pending and its [srcHTLCAddress] is still unset (so are the other
    deployment fields). *)
Theorem partial_deployment_leaves_order_untouched
    (r : HTLCResolver) (net : Network) (env : ProcessEnv) (h sig : string)
    (order : SwapOrder) (src : string * string) (e : Error) :
  reachable r ->
  orders r !! h = Some order ->
  status order = pending ->
  fst (deploySourceLeg net env h order r) = Ok src ->
  fst (deployDestinationLeg net env h order r) = Err e ->
  executeSwap net env h sig r = (Err e, r)
  /\ orders (snd (executeSwap net env h sig r)) !! h = Some order
  /\ srcHTLCAddress order = None
  /\ dstHTLCAddress order = None.
Proof.
  intros Hreach Ho Hst Hsrc Hdst.
  assert (Hex : executeSwap net env h sig r = (Err e, r)).
  { rewrite executeSwap_unfold, Ho, Hst. cbn [Status_eqb negb].
    rewrite Hsrc, Hdst. reflexivity. }
  rewrite Hex. cbn [snd]. split; [reflexivity|]. split; [exact Ho|].
  apply (reachable_registry_ok r Hreach h order Ho). exact Hst.
Qed.

Lemma created_order :
  orders Scenario.created !! Scenario.hash1 = Some Scenario.order1.
Proof. vm_compute. reflexivity. Qed.

Lemma source_leg_deployed :
  fst (deploySourceLeg Scenario.destination_down Scenario.env Scenario.hash1
         Scenario.order1 Scenario.created)
  = Ok ("0xa1"%string, Scenario.srcEscrow).
Proof. vm_compute. reflexivity. Qed.

Lemma destination_leg_failed :
  fst (deployDestinationLeg Scenario.destination_down Scenario.env Scenario.hash1
         Scenario.order1 Scenario.created)
  = Err (ChainError "transaction reverted").
Proof. vm_compute. reflexivity. Qed.

Lemma partial_deployment_witness :
  reachable Scenario.created
  /\ orders Scenario.created !! Scenario.hash1 = Some Scenario.order1
  /\ status Scenario.order1 = pending
  /\ executeSwap Scenario.destination_down Scenario.env Scenario.hash1 "0x00"
       Scenario.created
     = (Err (ChainError "transaction reverted"), Scenario.created).
Proof.
  split; [exact created_reachable|]. split; [exact created_order|].
  split; [reflexivity|].
  exact (proj1 (partial_deployment_leaves_order_untouched Scenario.created
                  Scenario.destination_down Scenario.env Scenario.hash1 "0x00"
                  Scenario.order1 ("0xa1"%string, Scenario.srcEscrow)
                  (ChainError "transaction reverted")
                  created_reachable created_order eq_refl
                  source_leg_deployed destination_leg_failed)).
Defined.

(** C6, as the specification words it, fails. The source leg is deployed
    at [srcEscrow], the destination deployment fails, and the order record
    afterwards is pending with no [srcHTLCAddress]. *)
Lemma partial_failure_address_not_recorded :
  fst (deploySourceLeg Scenario.destination_down Scenario.env Scenario.hash1
         Scenario.order1 Scenario.created)
    = Ok ("0xa1"%string, Scenario.srcEscrow)
  /\ fst (executeSwap Scenario.destination_down Scenario.env Scenario.hash1 "0x00"
            Scenario.created)
     = Err (ChainError "transaction reverted")
  /\ orders (snd (executeSwap Scenario.destination_down Scenario.env
                    Scenario.hash1 "0x00" Scenario.created))
       !! Scenario.hash1 = Some Scenario.order1
  /\ status Scenario.order1 = pending
  /\ srcHTLCAddress Scenario.order1 = None.
Proof.
  split; [exact source_leg_deployed|].
  split; [vm_compute; reflexivity|].
  split; [vm_compute; reflexivity|].
  split; reflexivity.
Qed.

(** C7. For a stored order, whatever its status and whatever the chain
    id, [withdraw] with a secret whose hash is not the order's hash lock
    throws 'Invalid secret' and leaves the resolver as it was. *)
Theorem withdraw_rejects_wrong_secret
    (r : HTLCResolver) (net : Network) (h s : string) (id : Z)
    (o : SwapOrder) (digest : string) :
  orders r !! h = Some o ->
  Ethers.keccak256 s = Ok digest ->
  digest <> hashLock o ->
  withdraw net h s id r = (Err InvalidSecret, r).
Proof.
  intros Ho Hk Hne. rewrite withdraw_unfold, Ho, Hk.
  destruct (String.eqb_spec digest (hashLock o)) as [Heq|_]; [contradiction|].
  reflexivity.
Qed.

(** A secret that is not a [0x] string of whole bytes is refused as well,
    with the error of [ethers.keccak256] itself: the hash is taken before
    the [try] block. *)
Lemma withdraw_rejects_malformed_secret
    (r : HTLCResolver) (net : Network) (h s : string) (id : Z)
    (o : SwapOrder) (e : Error) :
  orders r !! h = Some o ->
  Ethers.keccak256 s = Err e ->
  withdraw net h s id r = (Err e, r).
Proof. intros Ho Hk. rewrite withdraw_unfold, Ho, Hk. reflexivity. Qed.

Lemma wrong_secret_digest :
  Ethers.keccak256 Scenario.wrong_secret = Ok Scenario.wrong_digest.
Proof. vm_compute. reflexivity. Qed.

Lemma wrong_digest_differs : Scenario.wrong_digest <> hashLock Scenario.cancelled_order.
Proof. vm_compute. discriminate. Qed.

Lemma withdraw_rejects_wrong_secret_witness :
  orders Scenario.cancelled_source !! Scenario.hash1 = Some Scenario.cancelled_order
  /\ status Scenario.cancelled_order = cancelled
  /\ Ethers.keccak256 Scenario.wrong_secret = Ok Scenario.wrong_digest
  /\ Scenario.wrong_digest <> hashLock Scenario.cancelled_order
  /\ withdraw Scenario.online Scenario.hash1 Scenario.wrong_secret 999
        Scenario.cancelled_source
      = (Err InvalidSecret, Scenario.cancelled_source).
Proof.
  split; [exact cancelled_source_order|]. split; [reflexivity|].
  split; [exact wrong_secret_digest|]. split; [exact wrong_digest_differs|].
  exact (withdraw_rejects_wrong_secret Scenario.cancelled_source Scenario.online
           Scenario.hash1 Scenario.wrong_secret 999 Scenario.cancelled_order
           Scenario.wrong_digest cancelled_source_order wrong_secret_digest
           wrong_digest_differs).
Defined.

End Mediation.

(** ** Validation at creation *)

Section Validation.
Import Resolver Spec.

Lemma encode_uint256_string_Ok amount w :
  Ethers.encode_uint256_string amount = Ok w ->
  exists v, Ethers.getBigInt_string amount = Ok v /\ 0 <= v.
Proof.
  unfold Ethers.encode_uint256_string, Ethers.encode_uint256, rbind, in_range.
  destruct (Ethers.getBigInt_string amount) as [v|e]; [|discriminate].
  destruct (0 <=? v) eqn:Hv; cbn [andb]; [|discriminate].
  intros _. exists v. split; [reflexivity | lia].
Qed.

Lemma encodeOrderData_amounts maker srcChainId dstChainId srcToken dstToken
    srcAmount dstAmount hashLock timelock data :
  encodeOrderData maker srcChainId dstChainId srcToken dstToken srcAmount dstAmount
    hashLock timelock = Ok data ->
  (exists v, Ethers.getBigInt_string srcAmount = Ok v /\ 0 <= v)
  /\ (exists v, Ethers.getBigInt_string dstAmount = Ok v /\ 0 <= v).
Proof.
  unfold encodeOrderData, rbind.
  destruct (Ethers.encode_address maker); [|discriminate].
  destruct (Ethers.encode_uint256_number srcChainId); [|discriminate].
  destruct (Ethers.encode_uint256_number dstChainId); [|discriminate].
  destruct (Ethers.encode_address srcToken); [|discriminate].
  destruct (Ethers.encode_address dstToken); [|discriminate].
  destruct (Ethers.encode_uint256_string srcAmount) eqn:Hs; [|discriminate].
  destruct (Ethers.encode_uint256_string dstAmount) eqn:Hd; [|discriminate].
  intros _. split; eapply encode_uint256_string_Ok; eassumption.
Qed.

(** C9, as the code has it. [createSwapOrder] throws, and adds no order,
    whenever [getAddress] refuses the maker, the source token or the
    destination token, and whenever an amount is negative; the
    [POST /swap/create] handler then answers with an error status and the
    registry is unchanged.  (A zero amount is not refused.) *)
Theorem create_refuses_bad_parameters
    (random : bytes) (handlerNowMs nowMs : Z) (r : HTLCResolver) :
  (forall params, refused params ->
     exists e, createSwapOrder random nowMs params r
               = (Err (FailedToCreateSwapOrder e), r))
  /\ (forall body, refused (params_of_body handlerNowMs body) ->
        post_swap_create random handlerNowMs nowMs body r
          = (Status400 "Missing required fields", r)
        \/ exists e, post_swap_create random handlerNowMs nowMs body r
                     = (Status500 "Failed to create swap order"
                          (FailedToCreateSwapOrder e), r)).
Proof.
  assert (Hcreate : forall params, refused params ->
            exists e, createSwapOrder random nowMs params r
                      = (Err (FailedToCreateSwapOrder e), r)).
  { intros params Hbad.
    destruct (createSwapOrder_inv random nowMs params r)
      as [He | (o & mk & st & dt & od & _ & _ & _ & Hm & Hs & Hd & Hod & _)];
      [exact He | exfalso].
    apply encodeOrderData_amounts in Hod as [(v1 & Hv1 & Hp1) (v2 & Hv2 & Hp2)].
    destruct Hbad as [H|[H|[H|[(v & Hv & Hn)|(v & Hv & Hn)]]]].
    - rewrite Hm in H. exact H.
    - rewrite Hs in H. exact H.
    - rewrite Hd in H. exact H.
    - rewrite Hv1 in Hv. injection Hv as <-. lia.
    - rewrite Hv2 in Hv. injection Hv as <-. lia. }
  split; [exact Hcreate|].
  intros body Hbad. unfold post_swap_create.
  destruct (_ || _); [left; reflexivity | right].
  destruct (Hcreate _ Hbad) as [e He]. exists e. rewrite He. reflexivity.
Qed.

Lemma create_refuses_bad_parameters_witness :
  refused Scenario.negative_amount_params
  /\ exists e, createSwapOrder Scenario.random1 (1000 * Scenario.t0)
                 Scenario.negative_amount_params Scenario.fresh
               = (Err (FailedToCreateSwapOrder e), Scenario.fresh).
Proof.
  assert (Hbad : refused Scenario.negative_amount_params).
  { do 3 right. left. exists (-5). split; [vm_compute; reflexivity | lia]. }
  split; [exact Hbad|].
  exact (proj1 (create_refuses_bad_parameters Scenario.random1 0 (1000 * Scenario.t0)
                  Scenario.fresh) _ Hbad).
Defined.

(** C9, as the specification words it, fails. A source amount of zero is
    not positive, yet [createSwapOrder] returns an order for it and stores
    it, and the handler answers with that order. *)
Lemma zero_amount_is_accepted :
  Ethers.getBigInt_string (Params.srcAmount Scenario.zero_amount_params) = Ok 0
  /\ fst Scenario.zero_create = Ok Scenario.order_zero
  /\ srcAmount Scenario.order_zero = "0"%string
  /\ orders Scenario.fresh !! orderHash Scenario.order_zero = None
  /\ orders (snd Scenario.zero_create) !! orderHash Scenario.order_zero
     = Some Scenario.order_zero
  /\ fst (post_swap_create Scenario.random1 (1000 * Scenario.t0) (1000 * Scenario.t0)
            Scenario.zero_amount_body Scenario.fresh) = Json Scenario.order_zero.
Proof.
  split; [vm_compute; reflexivity|].
  split; [vm_compute; reflexivity|].
  split; [reflexivity|].
  split; [vm_compute; reflexivity|].
  split; vm_compute; reflexivity.
Qed.

End Validation.

(** ** Which escrow a call acts on *)

Section Selection.
Import Resolver Spec.

(** C10, as the code has it. For a stored order, [withdraw] (with a
    secret that hashes to the hash lock) and [cancel] (once the timelock has
    passed) first want a provider and a wallet for the chain id, and throw
    the no-provider error without one.  With one, the escrow is chosen by
    comparing the chain id with the order's source chain and nothing else:
    the source escrow if they are equal, the destination escrow for every
    other chain id, also one that is neither chain of the order.  The call
    then fails only if that address is unset or empty, or if the on-chain
    call fails. *)
Theorem escrow_chosen_by_source_chain_test
    (r : HTLCResolver) (net : Network) (h : string) (id : Z) (o : SwapOrder) :
  orders r !! h = Some o ->
  (id = srcChainId o -> selectHTLC id o = srcHTLCAddress o)
  /\ (id <> srcChainId o -> selectHTLC id o = dstHTLCAddress o)
  /\ (forall s, Ethers.keccak256 s = Ok (hashLock o) ->
        withdraw net h s id r =
        if unconfigured id r then (Err (FailedToWithdraw (NoProvider id)), r)
        else match js_or (selectHTLC id o) None with
             | None => (Err (FailedToWithdraw (NoHTLCAddress id)), r)
             | Some htlc =>
                 match rpc_withdraw net id htlc s with
                 | Ok receipt =>
                     (Ok {| tx_success := true; tx_txHash := Some receipt |}, r)
                 | Err e => (Err (FailedToWithdraw e), r)
                 end
             end)
  /\ (forall nowMs, 1000 * timelock o <= nowMs ->
        cancel net nowMs h id r =
        if unconfigured id r then (Err (FailedToCancel (NoProvider id)), r)
        else match js_or (selectHTLC id o) None with
             | None => (Err (FailedToCancel (NoHTLCAddress id)), r)
             | Some htlc =>
                 match rpc_cancel net id htlc with
                 | Ok receipt =>
                     (Ok {| tx_success := true; tx_txHash := Some receipt |},
                      with_orders r (<[h := with_status o cancelled]> (orders r)))
                 | Err e => (Err (FailedToCancel e), r)
                 end
             end).
Proof.
  intros Ho. unfold selectHTLC at 1 2.
  split; [intros He; destruct (Z.eqb_spec id (srcChainId o));
          [reflexivity | contradiction]|].
  split; [intros Hne; destruct (Z.eqb_spec id (srcChainId o));
          [contradiction | reflexivity]|].
  split.
  - intros s Hk. rewrite withdraw_unfold, Ho, Hk, String.eqb_refl. reflexivity.
  - intros nowMs Ht. rewrite cancel_unfold, Ho.
    destruct (Z.ltb_spec nowMs (1000 * timelock o)); [lia | reflexivity].
Qed.

(** An order whose two legs are both on Sepolia: a call for the other
    configured chain, which is neither chain of the order, reaches the
    destination escrow. *)
Lemma escrow_chosen_by_source_chain_test_witness :
  orders Scenario.same_chain !! "0x01"%string = Some Scenario.same_chain_order
  /\ POLYGON_AMOY <> srcChainId Scenario.same_chain_order
  /\ POLYGON_AMOY <> dstChainId Scenario.same_chain_order
  /\ selectHTLC POLYGON_AMOY Scenario.same_chain_order = Some Scenario.dstEscrow
  /\ withdraw Scenario.echo "0x01" (secret Scenario.order1) POLYGON_AMOY
        Scenario.same_chain
      = (Ok {| tx_success := true; tx_txHash := Some Scenario.dstEscrow |},
         Scenario.same_chain).
Proof.
  assert (Ho : orders Scenario.same_chain !! "0x01"%string
               = Some Scenario.same_chain_order) by (vm_compute; reflexivity).
  assert (Hne : POLYGON_AMOY <> srcChainId Scenario.same_chain_order)
    by (vm_compute; discriminate).
  assert (Hk : Ethers.keccak256 (secret Scenario.order1)
               = Ok (hashLock Scenario.same_chain_order))
    by (vm_compute; reflexivity).
  assert (Hu : unconfigured POLYGON_AMOY Scenario.same_chain = false)
    by (vm_compute; reflexivity).
  pose proof (escrow_chosen_by_source_chain_test Scenario.same_chain Scenario.echo
                "0x01" POLYGON_AMOY Scenario.same_chain_order Ho)
    as (_ & Hd & Hw & _).
  split; [exact Ho|]. split; [exact Hne|]. split; [exact Hne|].
  split; [exact (Hd Hne)|].
  rewrite (Hw _ Hk), Hu, (Hd Hne). reflexivity.
Defined.

(** C10, as worded, fails. Both escrow addresses of the order are set and
    chain 999 is neither of its chains; [withdraw] and [cancel] for chain 999
    nevertheless throw: no provider is configured for that chain. *)
Lemma foreign_chain_raises_no_provider :
  orders Scenario.deployed !! Scenario.hash1 = Some Scenario.deployed_order
  /\ srcHTLCAddress Scenario.deployed_order = Some Scenario.srcEscrow
  /\ dstHTLCAddress Scenario.deployed_order = Some Scenario.dstEscrow
  /\ 999 <> srcChainId Scenario.deployed_order
  /\ 999 <> dstChainId Scenario.deployed_order
  /\ fst (withdraw Scenario.online Scenario.hash1 (secret Scenario.deployed_order) 999
            Scenario.deployed)
     = Err (FailedToWithdraw (NoProvider 999))
  /\ fst (cancel Scenario.online (1000 * (Scenario.t0 + 7200)) Scenario.hash1 999
            Scenario.deployed)
     = Err (FailedToCancel (NoProvider 999)).
Proof.
  split; [vm_compute; reflexivity|].
  split; [reflexivity|]. split; [reflexivity|].
  split; [vm_compute; discriminate|]. split; [vm_compute; discriminate|].
  split; vm_compute; reflexivity.
Qed.

End Selection.

(** ** The escrow state machine *)

Section EscrowGuards.

Lemma State_eqb_PENDING s : State_eqb s PENDING = true -> s = PENDING.
Proof. destruct s; [reflexivity | discriminate | discriminate]. Qed.

Ltac guards :=
  repeat match goal with
         | H : context [if ?b then _ else _] |- _ =>
             destruct b eqn:?; cbn beta iota in H; try discriminate H
         end.

Lemma source_withdraw_Ok tx tok preimage c c' log :
  HTLCSource.withdraw tx tok preimage c = Ok (c', log) ->
  HTLCSource.entered c = false
  /\ HTLCSource.state (HTLCSource.htlcData c) = PENDING
  /\ block_timestamp tx < HTLCSource.timelock (HTLCSource.htlcData c)
  /\ keccak256_packed preimage = HTLCSource.hashLock (HTLCSource.htlcData c)
  /\ transfer_ok tok (HTLCSource.makerAsset (HTLCSource.htlcData c)) (msg_sender tx)
       (HTLCSource.makingAmount (HTLCSource.htlcData c)) = true
  /\ HTLCSource.state (HTLCSource.htlcData c') = WITHDRAWN
  /\ HTLCSource.preimage (HTLCSource.htlcData c') = preimage.
Proof.
  unfold HTLCSource.withdraw, HTLCSource.nonReentrant, HTLCSource.onlyBeforeTimelock,
    HTLCSource.onlyPending, rbind, require.
  intros H. guards. injection H as <- _.
  cbn [HTLCSource.htlcData HTLCSource.state HTLCSource.preimage
       HTLCDestination.htlcData HTLCDestination.state HTLCDestination.preimage].
  repeat split; try reflexivity.
  - destruct (HTLCSource.entered c); [discriminate | reflexivity].
  - apply State_eqb_PENDING. assumption.
  - lia.
  - lia.
Qed.

Lemma source_cancel_Ok tx tok c c' log :
  HTLCSource.cancel tx tok c = Ok (c', log) ->
  HTLCSource.entered c = false
  /\ HTLCSource.state (HTLCSource.htlcData c) = PENDING
  /\ HTLCSource.timelock (HTLCSource.htlcData c) <= block_timestamp tx
  /\ HTLCSource.state (HTLCSource.htlcData c') = CANCELLED.
Proof.
  unfold HTLCSource.cancel, HTLCSource.nonReentrant, HTLCSource.onlyAfterTimelock,
    HTLCSource.onlyPending, rbind, require.
  intros H. guards. injection H as <- _.
  cbn [HTLCSource.htlcData HTLCSource.state HTLCSource.preimage
       HTLCDestination.htlcData HTLCDestination.state HTLCDestination.preimage].
  repeat split; try reflexivity.
  - destruct (HTLCSource.entered c); [discriminate | reflexivity].
  - apply State_eqb_PENDING. assumption.
  - lia.
Qed.

Lemma destination_withdraw_Ok tx tok preimage c c' log :
  HTLCDestination.withdraw tx tok preimage c = Ok (c', log) ->
  HTLCDestination.entered c = false
  /\ HTLCDestination.state (HTLCDestination.htlcData c) = PENDING
  /\ block_timestamp tx < HTLCDestination.timelock (HTLCDestination.htlcData c)
  /\ keccak256_packed preimage
     = HTLCDestination.hashLock (HTLCDestination.htlcData c)
  /\ transfer_ok tok (HTLCDestination.takerAsset (HTLCDestination.htlcData c))
       (msg_sender tx) (HTLCDestination.takingAmount (HTLCDestination.htlcData c)) = true
  /\ HTLCDestination.state (HTLCDestination.htlcData c') = WITHDRAWN
  /\ HTLCDestination.preimage (HTLCDestination.htlcData c') = preimage.
Proof.
  unfold HTLCDestination.withdraw, HTLCDestination.nonReentrant,
    HTLCDestination.onlyBeforeTimelock, HTLCDestination.onlyPending, rbind, require.
  intros H. guards. injection H as <- _.
  cbn [HTLCSource.htlcData HTLCSource.state HTLCSource.preimage
       HTLCDestination.htlcData HTLCDestination.state HTLCDestination.preimage].
  repeat split; try reflexivity.
  - destruct (HTLCDestination.entered c); [discriminate | reflexivity].
  - apply State_eqb_PENDING. assumption.
  - lia.
  - lia.
Qed.

Lemma destination_cancel_Ok tx tok c c' log :
  HTLCDestination.cancel tx tok c = Ok (c', log) ->
  HTLCDestination.entered c = false
  /\ HTLCDestination.state (HTLCDestination.htlcData c) = PENDING
  /\ HTLCDestination.timelock (HTLCDestination.htlcData c) <= block_timestamp tx
  /\ HTLCDestination.state (HTLCDestination.htlcData c') = CANCELLED.
Proof.
  unfold HTLCDestination.cancel, HTLCDestination.nonReentrant,
    HTLCDestination.onlyAfterTimelock, HTLCDestination.onlyPending, rbind, require.
  intros H. guards. injection H as <- _.
  cbn [HTLCSource.htlcData HTLCSource.state HTLCSource.preimage
       HTLCDestination.htlcData HTLCDestination.state HTLCDestination.preimage].
  repeat split; try reflexivity.
  - destruct (HTLCDestination.entered c); [discriminate | reflexivity].
  - apply State_eqb_PENDING. assumption.
  - lia.
Qed.

End EscrowGuards.

(** Histories of any escrow whose two calls are guarded by the pending
    state and leave it. *)
Section SingleShot.
Context {C : Type} `{Escrow C}.

Hypothesis withdraw_guarded : forall tx tok preimage c c' log,
  escrow_withdraw tx tok preimage c = Ok (c', log) ->
  escrow_state c = PENDING /\ escrow_state c' <> PENDING.

Hypothesis cancel_guarded : forall tx tok c c' log,
  escrow_cancel tx tok c = Ok (c', log) ->
  escrow_state c = PENDING /\ escrow_state c' <> PENDING.

Lemma call_guarded tx tok what c c' log :
  call tx tok what c = Ok (c', log) ->
  escrow_state c = PENDING /\ escrow_state c' <> PENDING.
Proof. destruct what; cbn [call]; eauto. Qed.

(** Out of the pending state every later transaction reverts. *)
Lemma history_after_leaving txs : forall c,
  escrow_state c <> PENDING -> history txs c = (c, O).
Proof.
  induction txs as [|[[tx tok] what] rest IH]; intros c Hc; [reflexivity|].
  cbn [history].
  destruct (call tx tok what c) as [[c' log]|e] eqn:Hcall.
  - apply call_guarded in Hcall as [Hp _]. contradiction.
  - apply IH, Hc.
Qed.

(** At most one transaction of a history goes through. *)
Lemma history_at_most_one txs : forall c, (snd (history txs c) <= 1)%nat.
Proof.
  induction txs as [|[[tx tok] what] rest IH]; intros c; [cbn [history snd]; lia|].
  cbn [history].
  destruct (call tx tok what c) as [[c' log]|e] eqn:Hcall.
  - apply call_guarded in Hcall as [_ Hleft].
    rewrite (history_after_leaving rest c' Hleft). cbn [snd]. lia.
  - apply IH.
Qed.

End SingleShot.

Section EscrowClaims.

(** C5. Both escrow contracts are single-shot. [withdraw] goes through only
    if the state is PENDING, the block time is before the timelock and the
    preimage hashes to the hash lock; [cancel] goes through only if the
    state is PENDING and the block time has reached the timelock; either
    leaves the PENDING state, and once an escrow has left it, every
    [withdraw] and [cancel] of every later history reverts, so no history
    has more than one transaction that goes through. *)
Theorem escrow_single_shot :
  (forall tx tok preimage c c' log,
     HTLCSource.withdraw tx tok preimage c = Ok (c', log) ->
     HTLCSource.state (HTLCSource.htlcData c) = PENDING
     /\ block_timestamp tx < HTLCSource.timelock (HTLCSource.htlcData c)
     /\ keccak256_packed preimage = HTLCSource.hashLock (HTLCSource.htlcData c)
     /\ HTLCSource.state (HTLCSource.htlcData c') = WITHDRAWN)
  /\ (forall tx tok c c' log,
        HTLCSource.cancel tx tok c = Ok (c', log) ->
        HTLCSource.state (HTLCSource.htlcData c) = PENDING
        /\ HTLCSource.timelock (HTLCSource.htlcData c) <= block_timestamp tx
        /\ HTLCSource.state (HTLCSource.htlcData c') = CANCELLED)
  /\ (forall txs (c : HTLCSource.Contract),
        HTLCSource.state (HTLCSource.htlcData c) <> PENDING -> history txs c = (c, O))
  /\ (forall txs (c : HTLCSource.Contract), (snd (history txs c) <= 1)%nat)
  /\ (forall tx tok preimage c c' log,
        HTLCDestination.withdraw tx tok preimage c = Ok (c', log) ->
        HTLCDestination.state (HTLCDestination.htlcData c) = PENDING
        /\ block_timestamp tx < HTLCDestination.timelock (HTLCDestination.htlcData c)
        /\ keccak256_packed preimage
           = HTLCDestination.hashLock (HTLCDestination.htlcData c)
        /\ HTLCDestination.state (HTLCDestination.htlcData c') = WITHDRAWN)
  /\ (forall tx tok c c' log,
        HTLCDestination.cancel tx tok c = Ok (c', log) ->
        HTLCDestination.state (HTLCDestination.htlcData c) = PENDING
        /\ HTLCDestination.timelock (HTLCDestination.htlcData c) <= block_timestamp tx
        /\ HTLCDestination.state (HTLCDestination.htlcData c') = CANCELLED)
  /\ (forall txs (c : HTLCDestination.Contract),
        HTLCDestination.state (HTLCDestination.htlcData c) <> PENDING ->
        history txs c = (c, O))
  /\ (forall txs (c : HTLCDestination.Contract), (snd (history txs c) <= 1)%nat).
Proof.
  assert (Hsw : forall tx tok preimage (c c' : HTLCSource.Contract) log,
            escrow_withdraw tx tok preimage c = Ok (c', log) ->
            escrow_state c = PENDING /\ escrow_state c' <> PENDING).
  { intros tx tok p c c' log Hw. apply source_withdraw_Ok in Hw
      as (_ & Hp & _ & _ & _ & Hs & _).
    cbn [escrow_state SourceEscrow DestinationEscrow]. rewrite Hs.
    split; [exact Hp | discriminate]. }
  assert (Hsc : forall tx tok (c c' : HTLCSource.Contract) log,
            escrow_cancel tx tok c = Ok (c', log) ->
            escrow_state c = PENDING /\ escrow_state c' <> PENDING).
  { intros tx tok c c' log Hc. apply source_cancel_Ok in Hc as (_ & Hp & _ & Hs).
    cbn [escrow_state SourceEscrow DestinationEscrow]. rewrite Hs.
    split; [exact Hp | discriminate]. }
  assert (Hdw : forall tx tok preimage (c c' : HTLCDestination.Contract) log,
            escrow_withdraw tx tok preimage c = Ok (c', log) ->
            escrow_state c = PENDING /\ escrow_state c' <> PENDING).
  { intros tx tok p c c' log Hw. apply destination_withdraw_Ok in Hw
      as (_ & Hp & _ & _ & _ & Hs & _).
    cbn [escrow_state SourceEscrow DestinationEscrow]. rewrite Hs.
    split; [exact Hp | discriminate]. }
  assert (Hdc : forall tx tok (c c' : HTLCDestination.Contract) log,
            escrow_cancel tx tok c = Ok (c', log) ->
            escrow_state c = PENDING /\ escrow_state c' <> PENDING).
  { intros tx tok c c' log Hc. apply destination_cancel_Ok in Hc as (_ & Hp & _ & Hs).
    cbn [escrow_state SourceEscrow DestinationEscrow]. rewrite Hs.
    split; [exact Hp | discriminate]. }
  split; [intros tx tok p c c' log Hw;
          apply source_withdraw_Ok in Hw as (_ & ? & ? & ? & _ & ? & _); auto|].
  split; [intros tx tok c c' log Hc;
          apply source_cancel_Ok in Hc as (_ & ? & ? & ?); auto|].
  split; [intros txs c Hc; apply (history_after_leaving Hsw Hsc); exact Hc|].
  split; [intros txs c; apply (history_at_most_one Hsw Hsc)|].
  split; [intros tx tok p c c' log Hw;
          apply destination_withdraw_Ok in Hw as (_ & ? & ? & ? & _ & ? & _); auto|].
  split; [intros tx tok c c' log Hc;
          apply destination_cancel_Ok in Hc as (_ & ? & ? & ?); auto|].
  split; [intros txs c Hc; apply (history_after_leaving Hdw Hdc); exact Hc|].
  intros txs c; apply (history_at_most_one Hdw Hdc).
Qed.

(** The escrows of the worked swap. On the source chain a withdrawal with
    the secret one second after deployment goes through; the second
    withdrawal and the cancellation after the timelock that follow it both
    revert. On the destination chain the cancellation at the timelock goes
    through, and a withdrawal attempted after it reverts. *)
Lemma escrow_single_shot_witness :
  exists c1 log1 c2 log2,
    HTLCSource.withdraw (Scenario.at_time (Scenario.t0 + 1)) Scenario.tokens_ok
      Scenario.preimage1 Scenario.escrow = Ok (c1, log1)
    /\ HTLCSource.state (HTLCSource.htlcData Scenario.escrow) = PENDING
    /\ HTLCSource.state (HTLCSource.htlcData c1) = WITHDRAWN
    /\ history [(Scenario.at_time (Scenario.t0 + 2), Scenario.tokens_ok,
                 CallWithdraw Scenario.preimage1);
                (Scenario.at_time (Scenario.t0 + 7200), Scenario.tokens_ok, CallCancel)]
               c1 = (c1, O)
    /\ HTLCDestination.cancel (Scenario.at_time (Scenario.t0 + 7200)) Scenario.tokens_ok
         Scenario.escrow_dst = Ok (c2, log2)
    /\ HTLCDestination.state (HTLCDestination.htlcData c2) = CANCELLED
    /\ history [(Scenario.at_time (Scenario.t0 + 7201), Scenario.tokens_ok,
                 CallWithdraw Scenario.preimage1)]
               c2 = (c2, O).
Proof.
  destruct (HTLCSource.withdraw (Scenario.at_time (Scenario.t0 + 1)) Scenario.tokens_ok
              Scenario.preimage1 Scenario.escrow) as [[c1 log1]|e1] eqn:Hw;
    [|vm_compute in Hw; discriminate Hw].
  destruct (HTLCDestination.cancel (Scenario.at_time (Scenario.t0 + 7200))
              Scenario.tokens_ok Scenario.escrow_dst) as [[c2 log2]|e2] eqn:Hc;
    [|vm_compute in Hc; discriminate Hc].
  exists c1, log1, c2, log2.
  destruct escrow_single_shot
    as (Hwithdraw & _ & Hafter & _ & _ & Hcancel & Hafter' & _).
  destruct (Hwithdraw _ _ _ _ _ _ Hw) as (Hp & _ & _ & Hs).
  destruct (Hcancel _ _ _ _ _ Hc) as (_ & _ & Hs').
  split; [reflexivity|]. split; [exact Hp|]. split; [exact Hs|].
  split; [apply Hafter; rewrite Hs; discriminate|].
  split; [reflexivity|]. split; [exact Hs'|].
  apply Hafter'. rewrite Hs'. discriminate.
Defined.

End EscrowClaims.

(** ** The timelock window of the factory *)

Section TimelockWindow.
Import HTLCFactory.

Ltac requirements H :=
  unfold deploySourceHTLC, deployDestinationHTLC, nonReentrant, rbind, require,
    checked_add in H;
  repeat match type of H with
         | context [if ?b then _ else _] =>
             destruct b eqn:?; cbn beta iota in H; try discriminate H
         end.

Lemma deploySourceHTLC_Ok tx tok htlc orderHash maker makerAsset makingAmount
    takerAsset takingAmount hashLock timelock dstChainId f res :
  deploySourceHTLC tx tok htlc orderHash maker makerAsset makingAmount takerAsset
    takingAmount hashLock timelock dstChainId f = Ok res ->
  block_timestamp tx + MIN_TIMELOCK <= timelock <= block_timestamp tx + MAX_TIMELOCK
  /\ getSourceHTLC f orderHash = 0
  /\ 0 < makingAmount.
Proof. intros H. requirements H. lia. Qed.

Lemma deployDestinationHTLC_Ok tx tok htlc orderHash taker makerAsset makingAmount
    takerAsset takingAmount hashLock timelock srcChainId f res :
  deployDestinationHTLC tx tok htlc orderHash taker makerAsset makingAmount takerAsset
    takingAmount hashLock timelock srcChainId f = Ok res ->
  block_timestamp tx + MIN_TIMELOCK <= timelock <= block_timestamp tx + MAX_TIMELOCK
  /\ getDestinationHTLC f orderHash = 0
  /\ 0 < takingAmount.
Proof. intros H. requirements H. lia. Qed.

Lemma factory_reverts {A : Type} (x : Result A) :
  (forall e, x = Err e -> exists reason, e = Reverted reason) ->
  (forall res, x <> Ok res) ->
  exists reason, x = Err (Reverted reason).
Proof.
  intros Hrev Hno. destruct x as [res|e].
  - destruct (Hno res). reflexivity.
  - destruct (Hrev e eq_refl) as [reason ->]. eauto.
Qed.

Lemma deploySourceHTLC_Err tx tok htlc orderHash maker makerAsset makingAmount
    takerAsset takingAmount hashLock timelock dstChainId f e :
  deploySourceHTLC tx tok htlc orderHash maker makerAsset makingAmount takerAsset
    takingAmount hashLock timelock dstChainId f = Err e ->
  exists reason, e = Reverted reason.
Proof.
  unfold deploySourceHTLC, nonReentrant, rbind, require, checked_add.
  repeat match goal with
         | |- context [if ?b then _ else _] => destruct b
         end; intros [= <-]; eauto.
Qed.

Lemma deployDestinationHTLC_Err tx tok htlc orderHash taker makerAsset makingAmount
    takerAsset takingAmount hashLock timelock srcChainId f e :
  deployDestinationHTLC tx tok htlc orderHash taker makerAsset makingAmount takerAsset
    takingAmount hashLock timelock srcChainId f = Err e ->
  exists reason, e = Reverted reason.
Proof.
  unfold deployDestinationHTLC, nonReentrant, rbind, require, checked_add.
  repeat match goal with
         | |- context [if ?b then _ else _] => destruct b
         end; intros [= <-]; eauto.
Qed.

(** C8, as the code has it. A deployment goes through only if the timelock
    lies in the closed interval from the block time plus [MIN_TIMELOCK] to
    the block time plus [MAX_TIMELOCK], both ends included, the block time
    being that of the chain the factory runs on; [deploySourceHTLC] and
    [deployDestinationHTLC] revert for every timelock outside it. *)
Theorem deployment_timelock_window (tx : Tx) (tok : Tokens) (htlc : Z)
    (orderHash party makerAsset makingAmount takerAsset takingAmount hashLock
     timelock chainId : Z) (f : Factory) :
  (forall res,
     deploySourceHTLC tx tok htlc orderHash party makerAsset makingAmount takerAsset
       takingAmount hashLock timelock chainId f = Ok res ->
     block_timestamp tx + MIN_TIMELOCK <= timelock <= block_timestamp tx + MAX_TIMELOCK)
  /\ (forall res,
        deployDestinationHTLC tx tok htlc orderHash party makerAsset makingAmount
          takerAsset takingAmount hashLock timelock chainId f = Ok res ->
        block_timestamp tx + MIN_TIMELOCK <= timelock
        <= block_timestamp tx + MAX_TIMELOCK)
  /\ (timelock < block_timestamp tx + MIN_TIMELOCK
      \/ block_timestamp tx + MAX_TIMELOCK < timelock ->
      (exists reason,
         deploySourceHTLC tx tok htlc orderHash party makerAsset makingAmount takerAsset
           takingAmount hashLock timelock chainId f = Err (Reverted reason))
      /\ (exists reason,
            deployDestinationHTLC tx tok htlc orderHash party makerAsset makingAmount
              takerAsset takingAmount hashLock timelock chainId f
            = Err (Reverted reason))).
Proof.
  split; [intros res H; apply deploySourceHTLC_Ok in H; tauto|].
  split; [intros res H; apply deployDestinationHTLC_Ok in H; tauto|].
  intros Hout. split; apply factory_reverts.
  - intros e. apply deploySourceHTLC_Err.
  - intros res H. apply deploySourceHTLC_Ok in H. lia.
  - intros e. apply deployDestinationHTLC_Err.
  - intros res H. apply deployDestinationHTLC_Ok in H. lia.
Qed.

(** One second short of the window the source factory reverts; at its lower
    end the deployment goes through. *)
Lemma deployment_timelock_window_witness :
  (exists reason,
     deploySourceHTLC (Scenario.at_time Scenario.t0) Scenario.tokens_ok 0x77
       1 0xaa 0xbb 100 0xcc 99 5 (Scenario.t0 + 3599) Resolver.POLYGON_AMOY
       Scenario.empty_factory = Err (Reverted reason))
  /\ Scenario.t0 + MIN_TIMELOCK <= Scenario.t0 + 3600 <= Scenario.t0 + MAX_TIMELOCK.
Proof.
  split.
  - refine (proj1 (proj2 (proj2 (deployment_timelock_window
        (Scenario.at_time Scenario.t0) Scenario.tokens_ok 0x77
        1 0xaa 0xbb 100 0xcc 99 5 (Scenario.t0 + 3599) Resolver.POLYGON_AMOY
        Scenario.empty_factory)) _)).
    left. vm_compute. reflexivity.
  - assert (H : exists res,
        deploySourceHTLC (Scenario.at_time Scenario.t0) Scenario.tokens_ok 0x77
          1 0xaa 0xbb 100 0xcc 99 5 (Scenario.t0 + 3600) Resolver.POLYGON_AMOY
          Scenario.empty_factory = Ok res) by (eexists; vm_compute; reflexivity).
    destruct H as [res H].
    exact (proj1 (deployment_timelock_window
        (Scenario.at_time Scenario.t0) Scenario.tokens_ok 0x77
        1 0xaa 0xbb 100 0xcc 99 5 (Scenario.t0 + 3600) Resolver.POLYGON_AMOY
        Scenario.empty_factory) res H).
Defined.

(** C8, as the specification words it, fails. A timelock of exactly the
    block time plus [MIN_TIMELOCK] is not strictly above that bound, and one
    of exactly the block time plus [MAX_TIMELOCK] is not strictly below
    that one; the factory deploys an escrow for both. *)
Lemma boundary_timelocks_are_accepted :
  ~ (Scenario.t0 + MIN_TIMELOCK < Scenario.t0 + 3600)
  /\ (exists res,
        deploySourceHTLC (Scenario.at_time Scenario.t0) Scenario.tokens_ok 0x77
          1 0xaa 0xbb 100 0xcc 99 5 (Scenario.t0 + 3600) Resolver.POLYGON_AMOY
          Scenario.empty_factory = Ok res)
  /\ ~ (Scenario.t0 + 604800 < Scenario.t0 + MAX_TIMELOCK)
  /\ (exists res,
        deployDestinationHTLC (Scenario.at_time Scenario.t0) Scenario.tokens_ok 0x78
          1 0xdd 0xbb 100 0xcc 99 5 (Scenario.t0 + 604800) Resolver.SEPOLIA
          Scenario.empty_factory = Ok res).
Proof.
  split; [vm_compute; discriminate|].
  split; [eexists; vm_compute; reflexivity|].
  split; [vm_compute; discriminate|].
  eexists; vm_compute; reflexivity.
Qed.

End TimelockWindow.

(** ** Bytes, hexadecimal text and words *)

Section BytesFacts.
Import Terms.

Lemma digit_value_hex_digit n : 0 <= n < 16 -> digit_value (hex_digit n) = Some n.
Proof.
  intros Hn. replace n with (Z.of_nat (Z.to_nat n)) by lia.
  assert (Hk : (Z.to_nat n < 16)%nat) by lia.
  revert Hk. generalize (Z.to_nat n) as k. clear. intros k Hk.
  do 16 (destruct k as [|k]; [reflexivity|]). lia.
Qed.

(** Reading back the hexadecimal text of a byte string gives the bytes. *)
Lemma bytes_of_hex_of_bytes bs :
  Forall is_byte bs -> bytes_of_hex (hex_of_bytes bs) = Some bs.
Proof.
  induction 1 as [|b bs Hb _ IH]; [reflexivity|].
  cbn [hex_of_bytes bytes_of_hex]. unfold is_byte in Hb.
  rewrite !digit_value_hex_digit, IH.
  - f_equal. f_equal. pose proof (Z.div_mod b 16). lia.
  - apply Z.mod_pos_bound. lia.
  - split; [apply Z.div_pos; lia | apply Z.div_lt_upper_bound; lia].
Qed.

Lemma getBytes_hexlify bs :
  Forall is_byte bs -> Ethers.getBytes (Ethers.hexlify bs) = Ok bs.
Proof.
  intros H. unfold Ethers.getBytes, Ethers.hexlify.
  change (code "0" =? 48) with true. change (code "x" =? 120) with true.
  cbn [andb orb]. rewrite (bytes_of_hex_of_bytes bs H). reflexivity.
Qed.

Lemma state_byte_is_byte st i : is_byte (Keccak.state_byte st i).
Proof.
  unfold is_byte, Keccak.state_byte.
  change 255 with (Z.ones 8). rewrite Z.land_ones by lia.
  apply Z.mod_pos_bound. lia.
Qed.

(** A Keccak-256 digest is 32 bytes. *)
Lemma keccak256_digest msg :
  length (Keccak.keccak256 msg) = 32%nat /\ Forall is_byte (Keccak.keccak256 msg).
Proof.
  unfold Keccak.keccak256. split.
  - rewrite length_map, length_seq. reflexivity.
  - apply Forall_forall. intros b Hb. apply in_map_iff in Hb as (i & <- & _).
    apply state_byte_is_byte.
Qed.

Lemma keccak256_hexlify bs :
  Forall is_byte bs ->
  Ethers.keccak256 (Ethers.hexlify bs) = Ok (Ethers.hexlify (Keccak.keccak256 bs)).
Proof.
  intros H. unfold Ethers.keccak256, rbind. rewrite (getBytes_hexlify bs H). reflexivity.
Qed.

(** Whatever [ethers.keccak256] returns reads back as 32 bytes. *)
Lemma keccak256_is_bytes32 data digest :
  Ethers.keccak256 data = Ok digest -> is_bytes32 digest.
Proof.
  unfold Ethers.keccak256, rbind.
  destruct (Ethers.getBytes data) as [bs|e]; [|discriminate].
  intros [= <-]. destruct (keccak256_digest bs) as [Hlen Hall].
  exists (Keccak.keccak256 bs). split; [apply getBytes_hexlify, Hall | auto].
Qed.

(** Splitting a big-endian word back into bytes. *)
Lemma be_bytes_be_word bs : forall acc k,
  Forall is_byte bs ->
  be_bytes (length bs + k) (be_word bs acc) = be_bytes k acc ++ bs.
Proof.
  induction bs as [|b bs IH]; intros acc k Hall.
  - cbn. rewrite app_nil_r. reflexivity.
  - inversion Hall as [|? ? Hb Hbs]; subst. unfold is_byte in Hb.
    cbn [be_word length].
    replace (S (length bs) + k)%nat with (length bs + S k)%nat by lia.
    rewrite (IH _ _ Hbs). cbn [be_bytes].
    replace ((256 * acc + b) / 256) with acc
      by (apply Z.div_unique with b; lia).
    replace ((256 * acc + b) mod 256) with b
      by (apply Z.mod_unique with acc; lia).
    rewrite <- app_assoc. reflexivity.
Qed.

Lemma be_bytes32_be_word bs :
  length bs = 32%nat -> Forall is_byte bs -> be_bytes 32 (be_word bs 0) = bs.
Proof.
  intros Hlen Hall. pose proof (be_bytes_be_word bs 0 0 Hall) as H.
  rewrite Nat.add_0_r, Hlen in H. exact H.
Qed.

End BytesFacts.

(** ** The commitment, off chain and on chain *)

Section Commitment.
Import Resolver Terms.

(** X1. The secret of a created order opens the escrows that carry the
    order's hash lock: when [randomBytes(32)] returned 32 bytes, [secret] and
    [hashLock] both read as 32 bytes, the hash lock is the Keccak-256 digest
    of the random bytes, and the on-chain test
    [keccak256(abi.encodePacked(preimage)) == hashLock] holds for the
    [bytes32] words they denote.  So [canWithdraw] of a pending source or
    destination escrow with that hash lock answers true before the timelock. *)
Theorem secret_opens_escrows random nowMs params r o r' :
  createSwapOrder random nowMs params r = (Ok o, r') ->
  length random = 32%nat ->
  Forall is_byte random ->
  exists lock,
    Ethers.getBytes (secret o) = Ok random
    /\ Ethers.getBytes (hashLock o) = Ok lock
    /\ lock = Keccak.keccak256 random
    /\ keccak256_packed (be_word random 0) = be_word lock 0
    /\ (forall tx c,
          HTLCSource.hashLock (HTLCSource.htlcData c) = be_word lock 0 ->
          HTLCSource.state (HTLCSource.htlcData c) = PENDING ->
          block_timestamp tx < HTLCSource.timelock (HTLCSource.htlcData c) ->
          HTLCSource.canWithdraw tx (be_word random 0) c = true)
    /\ (forall tx c,
          HTLCDestination.hashLock (HTLCDestination.htlcData c) = be_word lock 0 ->
          HTLCDestination.state (HTLCDestination.htlcData c) = PENDING ->
          block_timestamp tx < HTLCDestination.timelock (HTLCDestination.htlcData c) ->
          HTLCDestination.canWithdraw tx (be_word random 0) c = true).
Proof.
  intros Hc Hlen Hall.
  apply createSwapOrder_Ok in Hc as (_ & Hs & Hk & _).
  rewrite Hs, (keccak256_hexlify random Hall) in Hk. injection Hk as Hk.
  destruct (keccak256_digest random) as [_ Hd].
  assert (Hp : keccak256_packed (be_word random 0)
               = be_word (Keccak.keccak256 random) 0).
  { unfold keccak256_packed. rewrite (be_bytes32_be_word random Hlen Hall). reflexivity. }
  exists (Keccak.keccak256 random).
  split; [rewrite Hs; apply getBytes_hexlify, Hall|].
  split; [rewrite <- Hk; apply getBytes_hexlify, Hd|].
  split; [reflexivity|]. split; [exact Hp|].
  split; intros tx c Hl Hst Ht.
  - unfold HTLCSource.canWithdraw. rewrite Hst, Hl, Hp. cbn [State_eqb andb].
    rewrite Z.eqb_refl, andb_true_r. apply Z.ltb_lt, Ht.
  - unfold HTLCDestination.canWithdraw. rewrite Hst, Hl, Hp. cbn [State_eqb andb].
    rewrite Z.eqb_refl, andb_true_r. apply Z.ltb_lt, Ht.
Qed.

Lemma random1_bytes : length Scenario.random1 = 32%nat /\ Forall is_byte Scenario.random1.
Proof.
  split; [reflexivity|]. apply Forall_forall. intros b Hb.
  apply repeat_spec in Hb. subst b. unfold is_byte. lia.
Qed.

Lemma secret_opens_escrows_witness :
  Ethers.getBytes (secret Scenario.order1) = Ok Scenario.random1
  /\ HTLCSource.canWithdraw (Scenario.at_time (Scenario.t0 + 1)) Scenario.preimage1
       Scenario.escrow = true.
Proof.
  destruct (secret_opens_escrows Scenario.random1 (1000 * Scenario.t0) Scenario.params
              Scenario.fresh Scenario.order1 Scenario.created
              (pair_of_fst Scenario.first_create (Ok Scenario.order1) first_create_order1)
              (proj1 random1_bytes) (proj2 random1_bytes))
    as (lock & Hs & _ & Hl & Hp & Hsrc & _).
  split; [exact Hs|].
  apply Hsrc.
  - cbn [Scenario.escrow HTLCSource.constructor HTLCSource.htlcData HTLCSource.hashLock].
    unfold Scenario.preimage1. exact Hp.
  - reflexivity.
  - cbn [Scenario.escrow HTLCSource.constructor HTLCSource.htlcData HTLCSource.timelock
         Scenario.at_time block_timestamp]. lia.
Defined.

End Commitment.

(** ** What the resolver's operations keep *)

Section Keeping.
Import Resolver Spec Terms.

(** X2. An operation that throws has done nothing: after a failed
    [createSwapOrder], [executeSwap], [withdraw] or [cancel] the resolver is
    the object it was before the call. *)
Theorem throwing_changes_nothing (r : HTLCResolver) (e : Error) :
  (forall random nowMs params,
     fst (createSwapOrder random nowMs params r) = Err e ->
     snd (createSwapOrder random nowMs params r) = r)
  /\ (forall net env h sig,
        fst (executeSwap net env h sig r) = Err e ->
        snd (executeSwap net env h sig r) = r)
  /\ (forall net h s id,
        fst (withdraw net h s id r) = Err e -> snd (withdraw net h s id r) = r)
  /\ (forall net nowMs h id,
        fst (cancel net nowMs h id r) = Err e -> snd (cancel net nowMs h id r) = r).
Proof.
  split; [|split; [|split]].
  - intros random nowMs params.
    destruct (createSwapOrder_inv random nowMs params r) as [[c He] | (o & _ & _ & _ & _ & He & _)];
      rewrite He; cbn [fst snd]; [reflexivity | discriminate].
  - intros net env h sig. rewrite executeSwap_unfold.
    destruct (orders r !! h) as [order|]; [|reflexivity].
    destruct (negb _); [reflexivity|].
    destruct (fst (deploySourceLeg _ _ _ _ _)); [|reflexivity].
    destruct (fst (deployDestinationLeg _ _ _ _ _)); [discriminate | reflexivity].
  - intros net h s id _. apply withdraw_state.
  - intros net nowMs h id. rewrite cancel_unfold.
    destruct (orders r !! h) as [order|]; [|reflexivity].
    destruct (nowMs <? _); [reflexivity|].
    destruct (unconfigured id r); [reflexivity|].
    destruct (js_or _ _); [|reflexivity].
    destruct (rpc_cancel _ _ _); [discriminate | reflexivity].
Qed.

(** How one operation changes the registry: not at all, or by writing one
    entry.  [createSwapOrder] writes the order it made under the order's
    hash; the other operations write an order with the terms of the one
    they found under that key. *)
Lemma run_orders op r :
  orders (run op r) = orders r
  \/ exists h o,
       orders (run op r) = <[h := o]> (orders r)
       /\ ((is_create op = true /\ orderHash o = h
            /\ Ethers.keccak256 (secret o) = Ok (hashLock o))
           \/ (is_create op = false
               /\ exists old, orders r !! h = Some old /\ same_terms old o)).
Proof.
  destruct op as [random nowMs params | net env h sig | net h s id | net nowMs h id];
    cbn [run is_create].
  - destruct (createSwapOrder_inv random nowMs params r)
      as [[e He] | (o & _ & _ & _ & _ & He & _ & Hk & _)]; rewrite He; cbn [snd];
      [left; reflexivity | right].
    exists (orderHash o), o. cbn [orders with_orders]. auto.
  - rewrite executeSwap_unfold.
    destruct (orders r !! h) as [order|] eqn:Ho; [|left; reflexivity].
    destruct (negb _); [left; reflexivity|].
    destruct (fst (deploySourceLeg _ _ _ _ _)); [|left; reflexivity].
    destruct (fst (deployDestinationLeg _ _ _ _ _)); [|left; reflexivity].
    right. eexists h, _. cbn [snd orders with_orders].
    split; [reflexivity|]. right. split; [reflexivity|].
    exists order. split; [exact Ho|]. repeat split.
  - rewrite withdraw_state. left. reflexivity.
  - rewrite cancel_unfold.
    destruct (orders r !! h) as [order|] eqn:Ho; [|left; reflexivity].
    destruct (nowMs <? _); [left; reflexivity|].
    destruct (unconfigured id r); [left; reflexivity|].
    destruct (js_or _ _); [|left; reflexivity].
    destruct (rpc_cancel _ _ _); [|left; reflexivity].
    right. eexists h, _. cbn [snd orders with_orders].
    split; [reflexivity|]. right. split; [reflexivity|].
    exists order. split; [exact Ho|]. repeat split.
Qed.

(** The parts of the resolver that no operation writes. *)
Lemma run_configuration op r :
  providers (run op r) = providers r
  /\ resolverWallet (run op r) = resolverWallet r
  /\ chains (run op r) = chains r.
Proof.
  destruct op as [random nowMs params | net env h sig | net h s id | net nowMs h id];
    cbn [run].
  - destruct (createSwapOrder_inv random nowMs params r)
      as [[e He] | (o & _ & _ & _ & _ & He & _)]; rewrite He; cbn [snd]; auto.
  - rewrite executeSwap_unfold.
    repeat match goal with
           | |- context [match ?x with _ => _ end] => destruct x
           end; cbn [snd]; auto.
  - rewrite withdraw_state. auto.
  - rewrite cancel_unfold.
    repeat match goal with
           | |- context [match ?x with _ => _ end] => destruct x
           end; cbn [snd]; auto.
Qed.

Lemma same_terms_refl o : same_terms o o.
Proof. repeat split. Qed.

Lemma same_terms_trans a b c : same_terms a b -> same_terms b c -> same_terms a c.
Proof. unfold same_terms. intros H1 H2. intuition congruence. Qed.

(** X3. In every resolver that a run can reach, each stored order is stored
    under its own [orderHash] and its [hashLock] is the hash of its [secret];
    so [withdraw] called with a stored order's own secret never throws
    'Invalid secret'. *)
Theorem stored_orders_are_committed (r : HTLCResolver) (h : string) (o : SwapOrder) :
  reachable r ->
  orders r !! h = Some o ->
  orderHash o = h
  /\ Ethers.keccak256 (secret o) = Ok (hashLock o)
  /\ (forall net id, fst (withdraw net h (secret o) id r) <> Err InvalidSecret).
Proof.
  intros Hreach. revert h o.
  assert (Hinv : forall h o, orders r !! h = Some o ->
            orderHash o = h /\ Ethers.keccak256 (secret o) = Ok (hashLock o)).
  { induction Hreach as [net env | op r _ IH]; intros h o.
    - unfold new_HTLCResolver. rewrite initializeProviders_orders.
      cbn [orders]. rewrite lookup_empty. discriminate.
    - destruct (run_orders op r) as [-> | (k & n & -> & Hcase)]; [apply IH|].
      destruct (decide (k = h)) as [->|Hne].
      + rewrite lookup_insert_eq. intros [= <-].
        destruct Hcase as [(_ & Hk & Hs) | (_ & old & Hold & Ht)]; [auto|].
        destruct (IH _ _ Hold) as [Hh Hc].
        destruct Ht as (Ha & _ & _ & _ & _ & _ & _ & _ & _ & Hsec & Hlock & _).
        rewrite Ha, Hsec, Hlock. auto.
      + rewrite lookup_insert_ne by assumption. apply IH. }
  intros h o Ho. destruct (Hinv h o Ho) as [Hh Hk].
  split; [exact Hh|]. split; [exact Hk|].
  intros net id. rewrite withdraw_unfold, Ho, Hk, String.eqb_refl. cbn [negb].
  destruct (unconfigured id r); [discriminate|].
  destruct (js_or _ _); [|discriminate].
  destruct (rpc_withdraw _ _ _ _); discriminate.
Qed.

Lemma stored_orders_are_committed_witness :
  reachable Scenario.cancelled_source
  /\ orderHash Scenario.cancelled_order = Scenario.hash1
  /\ Ethers.keccak256 (secret Scenario.cancelled_order)
     = Ok (hashLock Scenario.cancelled_order).
Proof.
  assert (Hreach : reachable Scenario.cancelled_source)
    by (apply reachable_cancel, reachable_execute, created_reachable).
  split; [exact Hreach|].
  destruct (stored_orders_are_committed Scenario.cancelled_source Scenario.hash1
              Scenario.cancelled_order Hreach cancelled_source_order) as (Hh & Hk & _).
  split; [exact Hh | exact Hk].
Defined.

Lemma run_keeps_terms (r : HTLCResolver) (h : string) (o : SwapOrder) (op : Op) :
  orders r !! h = Some o ->
  (is_create op = false ->
     exists o', orders (run op r) !! h = Some o' /\ same_terms o o')
  /\ (is_create op = true -> is_Some (orders (run op r) !! h)).
Proof.
  intros Ho.
  destruct (run_orders op r) as [-> | (k & n & -> & Hcase)].
  { split; intros _; [exists o; split; [exact Ho | apply same_terms_refl] | eauto]. }
  destruct (decide (k = h)) as [->|Hne].
  - rewrite lookup_insert_eq. split; [|eauto].
    intros Hop. destruct Hcase as [(Hc & _) | (_ & old & Hold & Ht)]; [congruence|].
    rewrite Ho in Hold. injection Hold as <-. eauto.
  - rewrite lookup_insert_ne by assumption.
    split; intros _; [exists o; split; [exact Ho | apply same_terms_refl] | eauto].
Qed.

(** X4. [executeSwap], [withdraw] and [cancel] never delete an order and
    never change what creation fixed: the order found under a key before the
    call is found there afterwards with the same order hash, maker, chains,
    tokens, amounts, timelock, secret, hash lock and creation time.
    [createSwapOrder] removes no entry either. *)
Theorem terms_are_kept (r : HTLCResolver) (h : string) (o : SwapOrder) (op : Op) :
  orders r !! h = Some o ->
  (is_create op = false ->
     exists o', orders (run op r) !! h = Some o' /\ same_terms o o')
  /\ (is_create op = true -> is_Some (orders (run op r) !! h)).
Proof. exact (run_keeps_terms r h o op). Qed.

Lemma terms_are_kept_witness :
  exists o',
    orders (run (OpCancel Scenario.online (1000 * (Scenario.t0 + 7200)) Scenario.hash1
                   SEPOLIA) Scenario.created) !! Scenario.hash1 = Some o'
    /\ same_terms Scenario.order1 o'.
Proof.
  exact (proj1 (terms_are_kept Scenario.created Scenario.hash1 Scenario.order1
                  (OpCancel Scenario.online (1000 * (Scenario.t0 + 7200)) Scenario.hash1
                     SEPOLIA) created_order) eq_refl).
Defined.

End Keeping.

(** ** Execution, cancellation and withdrawal in full *)

Section Outcomes.
Import Resolver Spec Terms.

Lemma executeSwap_Ok net env h sig r result r' :
  executeSwap net env h sig r = (Ok result, r') ->
  exists before after,
    orders r !! h = Some before
    /\ status before = pending
    /\ orders r' !! h = Some after
    /\ status after = executed
    /\ is_Some (srcHTLCAddress after) /\ is_Some (dstHTLCAddress after)
    /\ is_Some (srcTxHash after) /\ is_Some (dstTxHash after)
    /\ exec_srcTxHash result = srcTxHash after
    /\ exec_dstTxHash result = dstTxHash after
    /\ same_terms before after
    /\ (forall k, k <> h -> orders r' !! k = orders r !! k).
Proof.
  rewrite executeSwap_unfold.
  destruct (orders r !! h) as [order|] eqn:Ho; [|discriminate].
  destruct (Status_eqb (status order) pending) eqn:Hst; cbn [negb]; [|discriminate].
  destruct (fst (deploySourceLeg _ _ _ _ _)) as [src|]; [|discriminate].
  destruct (fst (deployDestinationLeg _ _ _ _ _)) as [dst|]; [|discriminate].
  intros [= <- <-]. exists order. eexists. cbn [orders with_orders].
  rewrite lookup_insert_eq.
  split; [reflexivity|].
  split; [destruct (status order); try discriminate Hst; reflexivity|].
  split; [reflexivity|]. cbn.
  repeat split; eauto.
  intros k Hk. apply lookup_insert_ne. congruence.
Qed.

(** X5. When [executeSwap] returns, the order was pending; it is executed
    afterwards, with both escrow addresses and both transaction hashes
    recorded, the recorded hashes being the ones returned to the caller,
    and with its terms unchanged; every other order is untouched. *)
Theorem executeSwap_returns net env h sig r result r' :
  executeSwap net env h sig r = (Ok result, r') ->
  exists before after,
    orders r !! h = Some before
    /\ status before = pending
    /\ orders r' !! h = Some after
    /\ status after = executed
    /\ is_Some (srcHTLCAddress after) /\ is_Some (dstHTLCAddress after)
    /\ is_Some (srcTxHash after) /\ is_Some (dstTxHash after)
    /\ exec_srcTxHash result = srcTxHash after
    /\ exec_dstTxHash result = dstTxHash after
    /\ same_terms before after
    /\ (forall k, k <> h -> orders r' !! k = orders r !! k).
Proof. exact (executeSwap_Ok net env h sig r result r'). Qed.

Lemma executed_online :
  executeSwap Scenario.online Scenario.env Scenario.hash1 "0x00" Scenario.created
  = (Ok {| exec_success := true; exec_srcTxHash := Some "0xa1"%string;
           exec_dstTxHash := Some "0xb2"%string |}, Scenario.deployed).
Proof. apply pair_of_fst. rewrite executeSwap_unfold. vm_compute. reflexivity. Qed.

Lemma executeSwap_returns_witness :
  exists before after,
    orders Scenario.created !! Scenario.hash1 = Some before
    /\ status before = pending
    /\ orders Scenario.deployed !! Scenario.hash1 = Some after
    /\ status after = executed
    /\ Some "0xa1"%string = srcTxHash after.
Proof.
  destruct (executeSwap_returns _ _ _ _ _ _ _ executed_online)
    as (before & after & H1 & H2 & H3 & H4 & _ & _ & _ & _ & H5 & _).
  exists before, after. auto.
Defined.

(** Once an order is executed or cancelled, [executeSwap], [withdraw] and
    [cancel] leave it executed or cancelled. *)
Lemma run_keeps_settled r h o op :
  orders r !! h = Some o ->
  status o = executed \/ status o = cancelled ->
  is_create op = false ->
  exists o', orders (run op r) !! h = Some o'
             /\ (status o' = executed \/ status o' = cancelled).
Proof.
  intros Ho Hst Hop.
  destruct op as [random nowMs params | net env k sig | net k s id | net nowMs k id];
    cbn [run is_create] in *; [discriminate | | |].
  - rewrite executeSwap_unfold.
    destruct (orders r !! k) as [order|]; [|cbn [snd]; eauto].
    destruct (negb _); [cbn [snd]; eauto|].
    destruct (fst (deploySourceLeg _ _ _ _ _)); [|cbn [snd]; eauto].
    destruct (fst (deployDestinationLeg _ _ _ _ _)); [|cbn [snd]; eauto].
    cbn [snd orders with_orders].
    destruct (decide (k = h)) as [->|Hne].
    + rewrite lookup_insert_eq. eexists. split; [reflexivity|]. left. reflexivity.
    + rewrite lookup_insert_ne by assumption. eauto.
  - rewrite withdraw_state. eauto.
  - rewrite cancel_unfold.
    destruct (orders r !! k) as [order|]; [|cbn [snd]; eauto].
    destruct (nowMs <? _); [cbn [snd]; eauto|].
    destruct (unconfigured id r); [cbn [snd]; eauto|].
    destruct (js_or _ _); [|cbn [snd]; eauto].
    destruct (rpc_cancel _ _ _); [|cbn [snd]; eauto].
    cbn [snd orders with_orders].
    destruct (decide (k = h)) as [->|Hne].
    + rewrite lookup_insert_eq. eexists. split; [reflexivity|]. right. reflexivity.
    + rewrite lookup_insert_ne by assumption. eauto.
Qed.

Lemma runs_keep_settled ops : forall r h o,
  orders r !! h = Some o ->
  status o = executed \/ status o = cancelled ->
  forallb (fun op => negb (is_create op)) ops = true ->
  exists o', orders (runs ops r) !! h = Some o'
             /\ (status o' = executed \/ status o' = cancelled).
Proof.
  induction ops as [|op ops IH]; intros r h o Ho Hst Hops; [cbn [runs fold_left]; eauto|].
  cbn [forallb] in Hops. apply andb_true_iff in Hops as [Hop Hops].
  apply negb_true_iff in Hop.
  destruct (run_keeps_settled r h o op Ho Hst Hop) as (o1 & Ho1 & Hst1).
  exact (IH (run op r) h o1 Ho1 Hst1 Hops).
Qed.

(** X6. An order is executed through the resolver at most once.  Right
    after an [executeSwap] that returned, [executeSwap] for the same order
    hash throws 'Order status is executed, cannot execute'; and after any
    further [executeSwap], [withdraw] and [cancel] calls it throws that
    error for the status executed or, once the order was cancelled, for
    the status cancelled: whatever the network would answer, and without
    changing anything. *)
Theorem executeSwap_only_once net env h sig r result r' :
  executeSwap net env h sig r = (Ok result, r') ->
  (forall net' env' sig',
     executeSwap net' env' h sig' r' = (Err (CannotExecute executed), r'))
  /\ (forall ops net' env' sig',
        forallb (fun op => negb (is_create op)) ops = true ->
        exists st,
          (st = executed \/ st = cancelled)
          /\ executeSwap net' env' h sig' (runs ops r')
             = (Err (CannotExecute st), runs ops r')).
Proof.
  intros Hex.
  destruct (executeSwap_Ok _ _ _ _ _ _ _ Hex) as (_ & after & _ & _ & Ho & Hst & _).
  split.
  - intros net' env' sig'. rewrite executeSwap_unfold, Ho, Hst. reflexivity.
  - intros ops net' env' sig' Hops.
    destruct (runs_keep_settled ops r' h after Ho (or_introl Hst) Hops)
      as (o' & Ho' & Hst').
    exists (status o'). split; [exact Hst'|].
    rewrite executeSwap_unfold, Ho'.
    destruct Hst' as [-> | ->]; reflexivity.
Qed.

Lemma executeSwap_only_once_witness :
  executeSwap Scenario.destination_down Scenario.env Scenario.hash1 "0x01"
    Scenario.deployed
  = (Err (CannotExecute executed), Scenario.deployed)
  /\ exists st,
       (st = executed \/ st = cancelled)
       /\ executeSwap Scenario.destination_down Scenario.env Scenario.hash1 "0x01"
            (runs [OpCancel Scenario.online (1000 * (Scenario.t0 + 7200)) Scenario.hash1
                     SEPOLIA] Scenario.deployed)
          = (Err (CannotExecute st),
             runs [OpCancel Scenario.online (1000 * (Scenario.t0 + 7200)) Scenario.hash1
                     SEPOLIA] Scenario.deployed).
Proof.
  destruct (executeSwap_only_once _ _ _ _ _ _ _ executed_online) as [Hnow Hlater].
  split.
  - exact (Hnow Scenario.destination_down Scenario.env "0x01"%string).
  - exact (Hlater [OpCancel Scenario.online (1000 * (Scenario.t0 + 7200)) Scenario.hash1
                     SEPOLIA] Scenario.destination_down Scenario.env "0x01"%string
                  eq_refl).
Defined.

(** X7. When [cancel] and [withdraw] return.  [cancel] returns exactly when
    the order is stored, the clock has reached the order's timelock, a
    provider and wallet exist for the chain id, the chosen leg has a
    non-empty escrow address and the on-chain call went through; the order
    is then stored as cancelled.  [withdraw] returns exactly when the order
    is stored, the secret hashes to the hash lock, and the same three
    conditions on the chain hold; it leaves the resolver as it was. *)
Theorem mediation_returns net nowMs h s id r :
  (forall result r',
     cancel net nowMs h id r = (Ok result, r') <->
     exists o htlc receipt,
       orders r !! h = Some o
       /\ 1000 * timelock o <= nowMs
       /\ unconfigured id r = false
       /\ js_or (selectHTLC id o) None = Some htlc
       /\ rpc_cancel net id htlc = Ok receipt
       /\ result = {| tx_success := true; tx_txHash := Some receipt |}
       /\ r' = with_orders r (<[h := with_status o cancelled]> (orders r)))
  /\ (forall result r',
        withdraw net h s id r = (Ok result, r') <->
        exists o htlc receipt,
          orders r !! h = Some o
          /\ Ethers.keccak256 s = Ok (hashLock o)
          /\ unconfigured id r = false
          /\ js_or (selectHTLC id o) None = Some htlc
          /\ rpc_withdraw net id htlc s = Ok receipt
          /\ result = {| tx_success := true; tx_txHash := Some receipt |}
          /\ r' = r).
Proof.
  split; intros result r'.
  - rewrite cancel_unfold. split.
    + destruct (orders r !! h) as [o|] eqn:Ho; [|discriminate].
      destruct (Z.ltb_spec nowMs (1000 * timelock o)); [discriminate|].
      destruct (unconfigured id r) eqn:Hu; [discriminate|].
      destruct (js_or (selectHTLC id o) None) as [htlc|] eqn:Hj; [|discriminate].
      destruct (rpc_cancel net id htlc) as [receipt|] eqn:Hc; [|discriminate].
      intros [= <- <-]. exists o, htlc, receipt. repeat split; assumption.
    + intros (o & htlc & receipt & -> & Ht & -> & -> & -> & -> & ->).
      destruct (Z.ltb_spec nowMs (1000 * timelock o)); [lia | reflexivity].
  - rewrite withdraw_unfold. split.
    + destruct (orders r !! h) as [o|] eqn:Ho; [|discriminate].
      destruct (Ethers.keccak256 s) as [digest|] eqn:Hk; [|discriminate].
      destruct (String.eqb_spec digest (hashLock o)) as [->|]; cbn [negb];
        [|discriminate].
      destruct (unconfigured id r) eqn:Hu; [discriminate|].
      destruct (js_or (selectHTLC id o) None) as [htlc|] eqn:Hj; [|discriminate].
      destruct (rpc_withdraw net id htlc s) as [receipt|] eqn:Hw; [|discriminate].
      intros [= <- <-]. exists o, htlc, receipt. repeat split; assumption.
    + intros (o & htlc & receipt & -> & -> & -> & -> & -> & -> & ->).
      rewrite String.eqb_refl. reflexivity.
Qed.

(** X8. [withdraw] and [cancel] do not look at the order's status: what
    they return or throw is the same whatever status the stored order has.
    A cancelled order can still be withdrawn from, an executed or cancelled
    one cancelled again on the other leg. *)
Theorem mediation_ignores_status net nowMs h s id r o st :
  orders r !! h = Some o ->
  fst (withdraw net h s id (with_orders r (<[h := with_status o st]> (orders r))))
  = fst (withdraw net h s id r)
  /\ fst (cancel net nowMs h id (with_orders r (<[h := with_status o st]> (orders r))))
     = fst (cancel net nowMs h id r).
Proof.
  intros Ho. rewrite !withdraw_unfold, !cancel_unfold. cbn [orders with_orders].
  rewrite lookup_insert_eq, Ho.
  change (unconfigured id (with_orders r (<[h:=with_status o st]> (orders r))))
    with (unconfigured id r).
  change (hashLock (with_status o st)) with (hashLock o).
  change (timelock (with_status o st)) with (timelock o).
  change (selectHTLC id (with_status o st)) with (selectHTLC id o).
  split.
  - destruct (Ethers.keccak256 s); [|reflexivity].
    destruct (negb _); [reflexivity|].
    destruct (unconfigured id r); [reflexivity|].
    destruct (js_or _ _); [|reflexivity].
    destruct (rpc_withdraw _ _ _ _); reflexivity.
  - destruct (nowMs <? _); [reflexivity|].
    destruct (unconfigured id r); [reflexivity|].
    destruct (js_or _ _); [|reflexivity].
    destruct (rpc_cancel _ _ _); reflexivity.
Qed.

(** The order of the worked swap, cancelled on its source leg, is
    withdrawn from on the destination chain all the same. *)
Lemma mediation_ignores_status_witness :
  status Scenario.cancelled_order = cancelled
  /\ fst (withdraw Scenario.echo Scenario.hash1 (secret Scenario.order1) POLYGON_AMOY
            Scenario.cancelled_source)
     = Ok {| tx_success := true; tx_txHash := Some Scenario.dstEscrow |}.
Proof.
  split; [reflexivity|].
  assert (Ho : orders Scenario.deployed !! Scenario.hash1 = Some Scenario.deployed_order)
    by (vm_compute; reflexivity).
  assert (Hc : Scenario.cancelled_source
               = with_orders Scenario.deployed
                   (<[Scenario.hash1 := with_status Scenario.deployed_order cancelled]>
                      (orders Scenario.deployed))).
  { rewrite cancel_unfold, Ho.
    replace (1000 * (Scenario.t0 + 7200)
             <? 1000 * timelock Scenario.deployed_order) with false
      by (vm_compute; reflexivity).
    replace (unconfigured SEPOLIA Scenario.deployed) with false
      by (vm_compute; reflexivity).
    reflexivity. }
  rewrite Hc.
  rewrite (proj1 (mediation_ignores_status Scenario.echo 0 Scenario.hash1
                    (secret Scenario.order1) POLYGON_AMOY Scenario.deployed
                    Scenario.deployed_order cancelled Ho)).
  vm_compute. reflexivity.
Defined.

End Outcomes.

(** ** Providers and chains *)

Section Chains.
Import Resolver Spec Terms.

Lemma runs_snoc ops op r : runs (ops ++ [op]) r = run op (runs ops r).
Proof. unfold runs. rewrite fold_left_app. reflexivity. Qed.

Lemma runs_reachable ops net env : reachable (runs ops (new_HTLCResolver net env)).
Proof.
  induction ops as [|op ops IH] using rev_ind; [apply reachable_new|].
  rewrite runs_snoc. apply reachable_run, IH.
Qed.

Lemma runs_configuration ops r :
  providers (runs ops r) = providers r
  /\ resolverWallet (runs ops r) = resolverWallet r
  /\ chains (runs ops r) = chains r.
Proof.
  induction ops as [|op ops IH] using rev_ind; [auto|].
  rewrite runs_snoc. destruct (run_configuration op (runs ops r)) as (-> & -> & ->).
  exact IH.
Qed.

(** The constructor configures Sepolia and Polygon Amoy or nothing. *)
Lemma new_providers net env id :
  id <> SEPOLIA -> id <> POLYGON_AMOY ->
  providers (new_HTLCResolver net env) !! id = None.
Proof.
  intros H1 H2. unfold new_HTLCResolver, initializeProviders.
  destruct (js_or _ _) as [key|]; [|apply lookup_empty].
  cbn [chains configured_chains fold_left].
  destruct (rpc_wallet net key); cbn [providers chainId];
    rewrite ?lookup_insert_ne by congruence; apply lookup_empty.
Qed.

Lemma new_providers_without_wallet net env :
  (forall key, js_or (RESOLVER_PRIVATE_KEY env) None = Some key ->
               throws (rpc_wallet net key)) ->
  providers (new_HTLCResolver net env) = ∅.
Proof.
  intros Hkey. unfold new_HTLCResolver, initializeProviders.
  destruct (js_or _ _) as [key|]; [|reflexivity].
  specialize (Hkey key eq_refl).
  cbn [chains configured_chains fold_left].
  destruct (rpc_wallet net key); [contradiction | reflexivity].
Qed.

Lemma unconfigured_of_None id r : providers r !! id = None -> unconfigured id r = true.
Proof. intros H. unfold unconfigured. rewrite H. reflexivity. Qed.

Lemma reachable_unconfigured r id :
  reachable r -> id <> SEPOLIA -> id <> POLYGON_AMOY -> unconfigured id r = true.
Proof.
  intros Hreach H1 H2. apply unconfigured_of_None.
  induction Hreach as [net env | op r _ IH]; [apply new_providers; assumption|].
  destruct (run_configuration op r) as (-> & _). exact IH.
Qed.

(** What the three mediating operations do without a provider for the
    chain they need. *)
Lemma executeSwap_unconfigured net env h sig r o :
  orders r !! h = Some o -> status o = pending ->
  unconfigured (srcChainId o) r = true ->
  executeSwap net env h sig r = (Err (NoProvider (srcChainId o)), r).
Proof.
  intros Ho Hst Hu. rewrite executeSwap_unfold, Ho, Hst. cbn [Status_eqb negb].
  unfold deploySourceLeg, bind, require_provider. rewrite Hu. reflexivity.
Qed.

Lemma mediation_unconfigured net nowMs h s id r :
  unconfigured id r = true ->
  throws (fst (withdraw net h s id r)) /\ throws (fst (cancel net nowMs h id r)).
Proof.
  intros Hu. rewrite withdraw_unfold, cancel_unfold, Hu.
  destruct (orders r !! h) as [o|]; [|split; exact I].
  split.
  - destruct (Ethers.keccak256 s); [|exact I]. destruct (negb _); exact I.
  - destruct (nowMs <? _); exact I.
Qed.

(** X9. The resolver only ever has providers for Sepolia and Polygon
    Amoy.  In every resolver that a run can reach, no provider exists for
    any other chain id; so an order whose source chain is another chain
    cannot be executed ([executeSwap] throws the no-provider error for
    the source chain and changes nothing), and [withdraw] and [cancel] for
    another chain id always throw. *)
Theorem only_configured_chains (r : HTLCResolver) (id : Z) :
  reachable r ->
  id <> SEPOLIA -> id <> POLYGON_AMOY ->
  unconfigured id r = true
  /\ (forall net env h sig o,
        orders r !! h = Some o -> status o = pending -> srcChainId o = id ->
        executeSwap net env h sig r = (Err (NoProvider id), r))
  /\ (forall net nowMs h s,
        throws (fst (withdraw net h s id r))
        /\ throws (fst (cancel net nowMs h id r))).
Proof.
  intros Hreach H1 H2.
  pose proof (reachable_unconfigured r id Hreach H1 H2) as Hu.
  split; [exact Hu|]. split.
  - intros net env h sig o Ho Hst <-. apply executeSwap_unconfigured; assumption.
  - intros net nowMs h s. apply mediation_unconfigured, Hu.
Qed.

Lemma foreign_created : fst Scenario2.foreign_create = Ok Scenario2.foreign_order.
Proof. vm_compute. reflexivity. Qed.

Lemma foreign_stored :
  orders (snd Scenario2.foreign_create) !! orderHash Scenario2.foreign_order
  = Some Scenario2.foreign_order.
Proof. vm_compute. reflexivity. Qed.

(** An order from Ethereum mainnet to BNB chain is created, and cannot be
    executed. *)
Lemma only_configured_chains_witness :
  fst Scenario2.foreign_create = Ok Scenario2.foreign_order
  /\ executeSwap Scenario.online Scenario.env (orderHash Scenario2.foreign_order) "0x00"
       (snd Scenario2.foreign_create)
     = (Err (NoProvider 1), snd Scenario2.foreign_create).
Proof.
  split; [exact foreign_created|].
  assert (Hreach : reachable (snd Scenario2.foreign_create))
    by (apply reachable_create, reachable_new).
  assert (H1 : 1 <> SEPOLIA) by (vm_compute; discriminate).
  assert (H2 : 1 <> POLYGON_AMOY) by (vm_compute; discriminate).
  exact (proj1 (proj2 (only_configured_chains (snd Scenario2.foreign_create) 1
                         Hreach H1 H2))
           Scenario.online Scenario.env (orderHash Scenario2.foreign_order)
           "0x00"%string Scenario2.foreign_order foreign_stored eq_refl eq_refl).
Defined.

(** X10. A resolver that was constructed without a usable
    [RESOLVER_PRIVATE_KEY] (unset, empty, or refused by the wallet
    constructor) never gets a provider: whatever operations follow,
    [executeSwap], [withdraw] and [cancel] throw on every call. *)
Theorem no_key_no_mediation (net : Network) (env : ProcessEnv) (ops : list Op) :
  (forall key, js_or (RESOLVER_PRIVATE_KEY env) None = Some key ->
               throws (rpc_wallet net key)) ->
  forall net' env' nowMs h sig s id,
    throws (fst (executeSwap net' env' h sig (runs ops (new_HTLCResolver net env))))
    /\ throws (fst (withdraw net' h s id (runs ops (new_HTLCResolver net env))))
    /\ throws (fst (cancel net' nowMs h id (runs ops (new_HTLCResolver net env)))).
Proof.
  intros Hkey net' env' nowMs h sig s id.
  set (r := runs ops (new_HTLCResolver net env)).
  assert (Hu : forall id, unconfigured id r = true).
  { intros id'. apply unconfigured_of_None. unfold r.
    destruct (runs_configuration ops (new_HTLCResolver net env)) as (-> & _).
    rewrite (new_providers_without_wallet net env Hkey). apply lookup_empty. }
  split; [|apply mediation_unconfigured, Hu].
  rewrite executeSwap_unfold.
  destruct (orders r !! h) as [o|]; [|exact I].
  destruct (negb _); [exact I|].
  unfold deploySourceLeg, bind, require_provider. rewrite Hu. exact I.
Qed.

Lemma no_key_no_mediation_witness :
  js_or (RESOLVER_PRIVATE_KEY Scenario2.env_without_key) None = None
  /\ throws (fst (executeSwap Scenario.online Scenario2.env_without_key Scenario.hash1
                    "0x00"
                    (runs [OpCreate Scenario.random1 (1000 * Scenario.t0) Scenario.params]
                       (new_HTLCResolver Scenario.online Scenario2.env_without_key)))).
Proof.
  split; [reflexivity|].
  refine (proj1 (no_key_no_mediation Scenario.online Scenario2.env_without_key
                   [OpCreate Scenario.random1 (1000 * Scenario.t0) Scenario.params]
                   _ Scenario.online Scenario2.env_without_key 0 Scenario.hash1
                   "0x00"%string EmptyString 0)).
  intros key Hkey. discriminate Hkey.
Defined.

(** X11. A created order can be read back for as long as the process
    lives: right after [createSwapOrder] returned it, [getSwapStatus] with
    its hash returns that very order, and after any further [executeSwap],
    [withdraw] and [cancel] calls it still returns an order with the same
    terms.  For a hash that is not in the registry [getSwapStatus] returns
    [null]. *)
Theorem created_order_is_readable random nowMs params r o r' :
  createSwapOrder random nowMs params r = (Ok o, r') ->
  getSwapStatus (orderHash o) r' = (Ok (Some o), r')
  /\ (forall ops, forallb (fun op => negb (is_create op)) ops = true ->
        exists o', getSwapStatus (orderHash o) (runs ops r') = (Ok (Some o'), runs ops r')
                   /\ same_terms o o')
  /\ (forall h, orders r' !! h = None -> getSwapStatus h r' = (Ok None, r')).
Proof.
  intros Hc. apply createSwapOrder_Ok in Hc as (-> & _).
  unfold getSwapStatus, orders_get.
  assert (H0 : orders (with_orders r (<[orderHash o := o]> (orders r))) !! orderHash o
               = Some o) by apply lookup_insert_eq.
  split; [rewrite H0; reflexivity|]. split.
  - intros ops. induction ops as [|op ops IH] using rev_ind; intros Hops.
    + exists o. cbn [runs fold_left]. rewrite H0. split; [reflexivity|].
      apply same_terms_refl.
    + rewrite forallb_app in Hops. apply andb_true_iff in Hops as [Hops Hop].
      cbn [forallb] in Hop. rewrite andb_true_r in Hop. apply negb_true_iff in Hop.
      destruct (IH Hops) as (o1 & H1 & Ht1).
      assert (Ho1 : orders (runs ops (with_orders r (<[orderHash o := o]> (orders r))))
                           !! orderHash o = Some o1) by congruence.
      rewrite runs_snoc.
      destruct (proj1 (run_keeps_terms _ _ _ op Ho1) Hop) as (o2 & Ho2 & Ht2).
      exists o2. rewrite Ho2. split; [reflexivity|].
      eapply same_terms_trans; eassumption.
  - intros h ->. reflexivity.
Qed.

Lemma created_order_is_readable_witness :
  getSwapStatus (orderHash Scenario.order1) Scenario.created
  = (Ok (Some Scenario.order1), Scenario.created).
Proof.
  exact (proj1 (created_order_is_readable Scenario.random1 (1000 * Scenario.t0)
                  Scenario.params Scenario.fresh Scenario.order1 Scenario.created
                  (pair_of_fst Scenario.first_create (Ok Scenario.order1)
                     first_create_order1))).
Defined.

End Chains.

(** ** The check digits of the ICAP form *)

Section Iban.

Lemma length_string_append s t :
  String.length (String.append s t) = (String.length s + String.length t)%nat.
Proof.
  induction s as [|c s IH]; [reflexivity|].
  change (S (String.length (String.append s t)) = S (String.length s + String.length t)).
  rewrite IH. reflexivity.
Qed.

Lemma length_string_drop n : forall s,
  String.length (Ethers.string_drop n s) = (String.length s - n)%nat.
Proof.
  induction n as [|n IH]; intros s; [cbn; lia|].
  destruct s as [|c s]; [reflexivity|]. cbn [Ethers.string_drop String.length].
  rewrite IH. reflexivity.
Qed.

Lemma length_remainder v :
  (String.length (Ethers.number_string (v mod 97)) <= 2)%nat.
Proof.
  pose proof (Z.mod_pos_bound v 97 ltac:(lia)) as Hb.
  replace (v mod 97) with (Z.of_nat (Z.to_nat (v mod 97))) by lia.
  assert (Hk : (Z.to_nat (v mod 97) < 97)%nat) by lia.
  revert Hk. generalize (Z.to_nat (v mod 97)) as k. clear. intros k Hk.
  do 97 (destruct k as [|k]; [vm_compute; lia|]). lia.
Qed.

(** The loop of [ibanChecksum] ends within the rounds it is given: what
    it leaves has fewer than [safeDigits] characters. *)
Lemma iban_reduce_ends fuel : forall expanded,
  (String.length expanded < Ethers.safeDigits + fuel)%nat ->
  (String.length (Ethers.iban_reduce fuel expanded) < Ethers.safeDigits)%nat.
Proof.
  unfold Ethers.safeDigits.
  induction fuel as [|fuel IH]; intros expanded Hlen; cbn [Ethers.iban_reduce].
  - lia.
  - unfold Ethers.safeDigits.
    destruct (Nat.leb_spec 15 (String.length expanded)) as [Hge|Hlt]; [|exact Hlt].
    apply IH. rewrite length_string_append, length_string_drop.
    pose proof (length_remainder (Ethers.parseInt (Ethers.string_take 15 expanded))).
    lia.
Qed.

Lemma ibanChecksum_loop_ends expanded :
  (String.length (Ethers.iban_reduce (String.length expanded) expanded)
   < Ethers.safeDigits)%nat.
Proof. apply iban_reduce_ends. unfold Ethers.safeDigits. lia. Qed.

End Iban.

(** ** Addresses *)

Section Addresses.
Import Terms.

Ltac each_ascii c :=
  destruct c as [[] [] [] [] [] [] [] []]; vm_compute; try reflexivity; try discriminate.

Lemma to_lower_to_upper c : to_lower (to_upper c) = to_lower c.
Proof. each_ascii c. Qed.

Lemma to_lower_to_lower c : to_lower (to_lower c) = to_lower c.
Proof. each_ascii c. Qed.

Lemma is_hex_digit_to_lower c :
  Ethers.is_hex_digit (to_lower c) = Ethers.is_hex_digit c.
Proof. each_ascii c. Qed.

Lemma is_hex_digit_to_upper c :
  Ethers.is_hex_digit (to_upper c) = Ethers.is_hex_digit c.
Proof. each_ascii c. Qed.

Lemma is_hex_digit_not_x c : Ethers.is_hex_digit c = true -> c <> "x"%char.
Proof. intros H ->. vm_compute in H. discriminate. Qed.

Lemma digit_value_is_nibble c v : digit_value c = Some v -> 0 <= v < 16.
Proof.
  unfold digit_value, in_range.
  destruct (48 <=? code c) eqn:H1; destruct (code c <=? 57) eqn:H2; cbn [andb];
    [intros [= <-]; lia | | |];
    (destruct (97 <=? code c) eqn:H3; destruct (code c <=? 102) eqn:H4; cbn [andb];
     [intros [= <-]; lia | | |];
     (destruct (65 <=? code c) eqn:H5; destruct (code c <=? 70) eqn:H6; cbn [andb];
      [intros [= <-]; lia | discriminate | discriminate | discriminate])).
Qed.

Lemma length_map_string f s : String.length (map_string f s) = String.length s.
Proof. induction s as [|c s IH]; [reflexivity|]. cbn. rewrite IH. reflexivity. Qed.

Lemma forall_map_string (p : ascii -> bool) f s :
  (forall c, p (f c) = p c) -> forall_string p (map_string f s) = forall_string p s.
Proof.
  intros H. induction s as [|c s IH]; [reflexivity|].
  cbn [map_string forall_string]. rewrite H, IH. reflexivity.
Qed.

(** The checksum only changes the case of letters. *)
Lemma checksum_digits_spec n : forall s hashed,
  (String.length s <= n)%nat ->
  String.length (Ethers.checksum_digits s hashed) = String.length s
  /\ forall_string Ethers.is_hex_digit (Ethers.checksum_digits s hashed)
     = forall_string Ethers.is_hex_digit s
  /\ map_string to_lower (Ethers.checksum_digits s hashed) = map_string to_lower s.
Proof.
  induction n as [|n IH]; intros s hashed Hn.
  - destruct s; [auto | cbn in Hn; lia].
  - destruct s as [|c1 [|c2 rest]]; [auto | auto |].
    destruct hashed as [|h hs]; [auto|].
    cbn [Ethers.checksum_digits].
    destruct (IH rest hs) as (Hl & Hh & Hc); [cbn in Hn; lia|].
    cbn [String.length forall_string map_string]. rewrite Hl, Hh, Hc.
    split; [reflexivity|]. split.
    + destruct (8 <=? h / 16), (8 <=? h mod 16);
        rewrite ?is_hex_digit_to_upper; reflexivity.
    + destruct (8 <=? h / 16), (8 <=? h mod 16);
        rewrite ?to_lower_to_upper; reflexivity.
Qed.

Lemma map_string_to_lower_idem s :
  map_string to_lower (map_string to_lower s) = map_string to_lower s.
Proof.
  induction s as [|c s IH]; [reflexivity|].
  cbn [map_string]. rewrite to_lower_to_lower, IH. reflexivity.
Qed.

(** Pairs of hexadecimal digits read as bytes. *)
Lemma bytes_of_hex_digits n : forall s,
  String.length s = (2 * n)%nat ->
  forall_string Ethers.is_hex_digit s = true ->
  exists bs, bytes_of_hex s = Some bs /\ length bs = n /\ Forall is_byte bs.
Proof.
  induction n as [|n IH]; intros s Hlen Hhex.
  - destruct s; [|discriminate]. exists []. auto.
  - destruct s as [|c1 [|c2 rest]]; [discriminate | cbn in Hlen; lia |].
    cbn [forall_string] in Hhex.
    apply andb_true_iff in Hhex as [H1 Hhex]. apply andb_true_iff in Hhex as [H2 Hhex].
    destruct (IH rest) as (bs & Hbs & Hl & Hall); [cbn in Hlen; lia | exact Hhex |].
    unfold Ethers.is_hex_digit in H1, H2.
    destruct (digit_value c1) as [v1|] eqn:Hv1; [|discriminate].
    destruct (digit_value c2) as [v2|] eqn:Hv2; [|discriminate].
    apply digit_value_is_nibble in Hv1 as Hn1. apply digit_value_is_nibble in Hv2 as Hn2.
    exists (16 * v1 + v2 :: bs). cbn [bytes_of_hex]. rewrite Hv1, Hv2, Hbs.
    split; [reflexivity|]. split; [cbn; lia|].
    constructor; [unfold is_byte; lia | exact Hall].
Qed.

Lemma string_take_all n : forall s, (String.length s <= n)%nat -> Ethers.string_take n s = s.
Proof.
  induction n as [|n IH]; intros s Hs.
  - destruct s; [reflexivity | cbn in Hs; lia].
  - destruct s as [|c s]; [reflexivity|]. cbn [Ethers.string_take].
    rewrite IH by (cbn in Hs; lia). reflexivity.
Qed.

Lemma length_getChecksumAddress digits :
  String.length (Ethers.getChecksumAddress digits) = S (S (String.length digits)).
Proof.
  unfold Ethers.getChecksumAddress. cbn [String.length].
  rewrite (proj1 (checksum_digits_spec _ _ _ (le_n _))), length_map_string. reflexivity.
Qed.

(** The checksummed form of forty hexadecimal digits: [getAddress] maps it
    to itself and it reads as twenty bytes. *)
Lemma getChecksumAddress_Ok digits :
  String.length digits = 40%nat ->
  forall_string Ethers.is_hex_digit digits = true ->
  Ethers.getAddress (Ethers.getChecksumAddress digits) = Ok (Ethers.getChecksumAddress digits)
  /\ exists bs, Ethers.getBytes (Ethers.getChecksumAddress digits) = Ok bs
                /\ length bs = 20%nat /\ Forall is_byte bs.
Proof.
  intros Hlen Hhex. unfold Ethers.getChecksumAddress.
  set (lower := map_string to_lower digits).
  assert (Hlower : String.length lower = 40%nat)
    by (unfold lower; rewrite length_map_string; exact Hlen).
  rewrite (string_take_all 40 lower) by lia.
  set (hashed := Keccak.keccak256 (ascii_bytes lower)).
  destruct (checksum_digits_spec 40 lower hashed) as (Hl & Hh & Hc); [lia|].
  assert (Hl' : String.length (Ethers.checksum_digits lower hashed) = 40%nat)
    by (rewrite Hl; exact Hlower).
  assert (Hh' : forall_string Ethers.is_hex_digit (Ethers.checksum_digits lower hashed)
                = true).
  { rewrite Hh. unfold lower.
    rewrite (forall_map_string _ _ _ is_hex_digit_to_lower). exact Hhex. }
  split.
  - unfold Ethers.getAddress. rewrite Hl', Hh'. cbn [Nat.eqb andb].
    assert (Hidem : map_string to_lower lower = lower)
      by (unfold lower; apply map_string_to_lower_idem).
    unfold Ethers.getChecksumAddress. rewrite Hc, !Hidem.
    rewrite (string_take_all 40 lower) by lia. fold hashed.
    rewrite String.eqb_refl.
    destruct (_ && _); reflexivity.
  - destruct (bytes_of_hex_digits 20 _ Hl' Hh') as (bs & Hbs & Hlb & Hall).
    exists bs. unfold Ethers.getBytes.
    change (code "0" =? 48) with true. change (code "x" =? 120) with true.
    cbn [andb orb]. rewrite Hbs. auto.
Qed.

Lemma hex_string_of_uint_hex d :
  forall_string Ethers.is_hex_digit (HexadecimalString.NilEmpty.string_of_uint d) = true.
Proof.
  induction d; cbn [HexadecimalString.NilEmpty.string_of_uint forall_string];
    [reflexivity | rewrite IHd; reflexivity ..].
Qed.

Lemma BigInt_toString16_hex v :
  forall_string Ethers.is_hex_digit (Ethers.BigInt_toString16 v) = true.
Proof.
  unfold Ethers.BigInt_toString16, HexadecimalString.NilZero.string_of_uint.
  destruct (N.to_hex_uint (Z.to_N v)) eqn:Hd; try reflexivity;
    rewrite <- Hd; apply hex_string_of_uint_hex.
Qed.

Lemma pad_start_spec n s :
  forall_string Ethers.is_hex_digit s = true ->
  forall_string Ethers.is_hex_digit (Ethers.pad_start n s) = true
  /\ (n <= String.length (Ethers.pad_start n s))%nat.
Proof.
  intros Hs. unfold Ethers.pad_start.
  assert (H : forall k, forall_string Ethers.is_hex_digit (Ethers.zeros k s) = true
                        /\ String.length (Ethers.zeros k s) = (k + String.length s)%nat).
  { induction k as [|k [IH1 IH2]]; [auto|]. cbn [Ethers.zeros forall_string String.length].
    rewrite IH1, IH2. auto. }
  destruct (H (n - String.length s)%nat) as [H1 H2]. split; [exact H1 | lia].
Qed.

(** What [getAddress] returns: the checksummed form of at least forty
    hexadecimal digits. *)
Lemma getAddress_shape address a :
  Ethers.getAddress address = Ok a ->
  exists digits,
    a = Ethers.getChecksumAddress digits
    /\ forall_string Ethers.is_hex_digit digits = true
    /\ (40 <= String.length digits)%nat.
Proof.
  unfold Ethers.getAddress.
  set (digits := match address with
                 | String "0" (String "x" rest) => rest
                 | _ => address
                 end).
  destruct (Nat.eqb_spec (String.length digits) 40) as [Hlen|_]; cbn [andb].
  - destruct (forall_string Ethers.is_hex_digit digits) eqn:Hhex.
    + intros Ha. exists digits. split; [|split; [exact Hhex | lia]].
      destruct (_ && _); [destruct (String.eqb _ _)|]; congruence.
    + destruct (Ethers.is_icap address); [|discriminate].
      destruct (String.eqb _ _); [|discriminate].
      destruct (Ethers.fromBase36 _) as [v|]; [|discriminate].
      intros [= <-]. eexists. split; [reflexivity|].
      apply pad_start_spec, BigInt_toString16_hex.
  - destruct (Ethers.is_icap address); [|discriminate].
    destruct (String.eqb _ _); [|discriminate].
    destruct (Ethers.fromBase36 _) as [v|]; [|discriminate].
    intros [= <-]. eexists. split; [reflexivity|].
    apply pad_start_spec, BigInt_toString16_hex.
Qed.

(** An address of 42 characters that [getAddress] returned is one that it
    maps to itself, and it reads as twenty bytes. *)
Lemma getAddress_Ok address a :
  Ethers.getAddress address = Ok a ->
  String.length a = 42%nat ->
  Ethers.getAddress a = Ok a
  /\ exists bs, Ethers.getBytes a = Ok bs /\ length bs = 20%nat /\ Forall is_byte bs.
Proof.
  intros Ha Hlen. apply getAddress_shape in Ha as (digits & -> & Hhex & _).
  rewrite length_getChecksumAddress in Hlen.
  apply getChecksumAddress_Ok; [lia | exact Hhex].
Qed.

(** A longer one is no address. *)
Lemma getAddress_again address a a' :
  Ethers.getAddress address = Ok a ->
  Ethers.getAddress a = Ok a' ->
  String.length a = 42%nat.
Proof.
  intros Ha. apply getAddress_shape in Ha as (digits & -> & _ & _).
  rewrite length_getChecksumAddress.
  unfold Ethers.getChecksumAddress, Ethers.getAddress.
  rewrite (proj1 (checksum_digits_spec _ _ _ (le_n _))), length_map_string.
  destruct (Nat.eqb_spec (String.length digits) 40) as [->|_]; [reflexivity|].
  cbn [andb Ethers.is_icap]. discriminate.
Qed.

End Addresses.

(** ** When creation goes through *)

Section Acceptance.
Import Resolver Terms.

Lemma be_bytes_spec n : forall v, length (be_bytes n v) = n /\ Forall is_byte (be_bytes n v).
Proof.
  induction n as [|n IH]; intros v; [split; [reflexivity | constructor]|].
  cbn [be_bytes]. destruct (IH (v / 256)) as [Hl Ha]. split.
  - rewrite length_app, Hl. cbn. lia.
  - apply Forall_app. split; [exact Ha|].
    constructor; [|constructor]. apply Z.mod_pos_bound. lia.
Qed.

Lemma encode_uint256_number_iff n :
  safe_uint n <->
  exists w, Ethers.encode_uint256_number n = Ok w /\ Forall is_byte w.
Proof.
  unfold safe_uint, Ethers.encode_uint256_number, Ethers.getBigInt_number,
    Ethers.encode_uint256, rbind, in_range.
  destruct (Z.leb_spec (- 0x1fffffffffffff) n), (Z.leb_spec n 0x1fffffffffffff);
    cbn [andb]; try (split; [lia | intros (w & [=] & _)]).
  destruct (Z.leb_spec 0 n), (Z.leb_spec n (2 ^ 256 - 1));
    cbn [andb]; try (split; [lia | intros (w & [=] & _)]).
  split; [intros _ | lia].
  eexists. split; [reflexivity | apply be_bytes_spec].
Qed.

Lemma encode_uint256_string_iff s :
  uint256_text s <->
  exists w, Ethers.encode_uint256_string s = Ok w /\ Forall is_byte w.
Proof.
  unfold uint256_text, Ethers.encode_uint256_string, Ethers.encode_uint256, rbind,
    in_range.
  destruct (Ethers.getBigInt_string s) as [v|e].
  - destruct (Z.leb_spec 0 v), (Z.leb_spec v (2 ^ 256 - 1)); cbn [andb].
    + split; [intros _ | intros _; exists v; split; [reflexivity | lia]].
      eexists. split; [reflexivity | apply be_bytes_spec].
    + split; [intros (v' & [= <-] & ?); lia | intros (w & [=] & _)].
    + split; [intros (v' & [= <-] & ?); lia | intros (w & [=] & _)].
    + split; [intros (v' & [= <-] & ?); lia | intros (w & [=] & _)].
  - split; [intros (v' & [=] & _) | intros (w & [=] & _)].
Qed.

Lemma encode_address_checksummed address a :
  Ethers.getAddress address = Ok a ->
  String.length a = 42%nat ->
  exists w, Ethers.encode_address a = Ok w /\ Forall is_byte w.
Proof.
  intros Ha Hlen. destruct (getAddress_Ok _ _ Ha Hlen) as (Hidem & bs & Hbs & _ & Hall).
  unfold Ethers.encode_address, rbind. rewrite Hidem, Hbs.
  eexists. split; [reflexivity|]. apply Forall_app. split; [|exact Hall].
  apply Forall_forall. intros b Hb. apply repeat_spec in Hb. subst b.
  unfold is_byte. lia.
Qed.

Lemma encode_address_Ok a w :
  Ethers.encode_address a = Ok w -> exists a', Ethers.getAddress a = Ok a'.
Proof.
  unfold Ethers.encode_address, rbind.
  destruct (Ethers.getAddress a) as [a'|]; [eauto | discriminate].
Qed.

Lemma encode_bytes32_digest data digest :
  Ethers.keccak256 data = Ok digest ->
  exists w, Ethers.encode_bytes32 digest = Ok w /\ Forall is_byte w.
Proof.
  intros Hk. apply keccak256_is_bytes32 in Hk as (bs & Hbs & Hlen & Hall).
  unfold Ethers.encode_bytes32, rbind. rewrite Hbs, Hlen. cbn [Nat.eqb]. eauto.
Qed.

Lemma encodeOrderData_inv maker srcChainId dstChainId srcToken dstToken srcAmount
    dstAmount hashLock timelock data :
  encodeOrderData maker srcChainId dstChainId srcToken dstToken srcAmount dstAmount
    hashLock timelock = Ok data ->
  (exists a, Ethers.getAddress maker = Ok a)
  /\ (exists a, Ethers.getAddress srcToken = Ok a)
  /\ (exists a, Ethers.getAddress dstToken = Ok a)
  /\ safe_uint srcChainId /\ safe_uint dstChainId
  /\ uint256_text srcAmount /\ uint256_text dstAmount /\ safe_uint timelock.
Proof.
  unfold encodeOrderData, rbind.
  destruct (Ethers.encode_address maker) eqn:H1; [|discriminate].
  destruct (Ethers.encode_uint256_number srcChainId) eqn:H2; [|discriminate].
  destruct (Ethers.encode_uint256_number dstChainId) eqn:H3; [|discriminate].
  destruct (Ethers.encode_address srcToken) eqn:H4; [|discriminate].
  destruct (Ethers.encode_address dstToken) eqn:H5; [|discriminate].
  destruct (Ethers.encode_uint256_string srcAmount) eqn:H6; [|discriminate].
  destruct (Ethers.encode_uint256_string dstAmount) eqn:H7; [|discriminate].
  destruct (Ethers.encode_bytes32 hashLock); [|discriminate].
  destruct (Ethers.encode_uint256_number timelock) eqn:H9; [|discriminate].
  intros _.
  assert (Hn : forall n w, Ethers.encode_uint256_number n = Ok w -> safe_uint n).
  { intros n w. unfold safe_uint, Ethers.encode_uint256_number,
      Ethers.getBigInt_number, Ethers.encode_uint256, rbind, in_range.
    destruct (Z.leb_spec (- 0x1fffffffffffff) n), (Z.leb_spec n 0x1fffffffffffff);
      cbn [andb]; try discriminate.
    destruct (Z.leb_spec 0 n); cbn [andb]; [lia | discriminate]. }
  assert (Hs : forall s w, Ethers.encode_uint256_string s = Ok w -> uint256_text s).
  { intros s w. unfold uint256_text, Ethers.encode_uint256_string,
      Ethers.encode_uint256, rbind, in_range.
    destruct (Ethers.getBigInt_string s) as [v|]; [|discriminate].
    destruct (Z.leb_spec 0 v), (Z.leb_spec v (2 ^ 256 - 1)); cbn [andb];
      try discriminate. intros _. exists v. split; [reflexivity | lia]. }
  apply encode_address_Ok in H1, H4, H5.
  split; [exact H1|]. split; [exact H4|]. split; [exact H5|].
  split; [exact (Hn _ _ H2)|]. split; [exact (Hn _ _ H3)|].
  split; [exact (Hs _ _ H6)|]. split; [exact (Hs _ _ H7) | exact (Hn _ _ H9)].
Qed.


(** A maker in the ICAP form is accepted and stored as it was passed; an
    ICAP maker whose number needs 161 bits passes [getAddress] and fails
    in the ABI coder. *)
Lemma icap_maker_is_accepted :
  Ethers.getAddress Scenario2.icap_maker = Ok "0x00c5496aEe77C1bA1f0854206A26DdA82a81D6D8"
  /\ fst Scenario2.icap_create = Ok Scenario2.icap_order
  /\ maker Scenario2.icap_order = Scenario2.icap_maker.
Proof. split; [|split]; vm_compute; reflexivity. Qed.

Lemma long_icap_maker_is_refused :
  Ethers.getAddress Scenario2.long_icap_maker
  = Ok "0x1343093195196b9fCCa7C68CE3fFFfffFffFFffff"
  /\ fst Scenario2.long_icap_create = Err (FailedToCreateSwapOrder InvalidAddress).
Proof. split; vm_compute; reflexivity. Qed.


Lemma createSwapOrder_spelling random nowMs params r o r' :
  createSwapOrder random nowMs params r = (Ok o, r') ->
  maker o = Params.maker params /\ srcToken o = Params.srcToken params
  /\ dstToken o = Params.dstToken params.
Proof.
  unfold createSwapOrder, try_catch, bind, lift, orders_set, ret, throw.
  destruct (Ethers.keccak256 (Ethers.hexlify random)); [|discriminate].
  destruct (Ethers.getAddress (Params.maker params)); [|discriminate].
  destruct (Ethers.getAddress (Params.srcToken params)); [|discriminate].
  destruct (Ethers.getAddress (Params.dstToken params)); [|discriminate].
  destruct (encodeOrderData _ _ _ _ _ _ _ _ _); [|discriminate].
  destruct (Ethers.keccak256 _); [|discriminate].
  intros [= <- _]. repeat split.
Qed.

(** X13. The order hash is computed from the checksummed addresses, the
    stored order keeps the addresses as they were passed: two calls with
    the same random bytes whose parameters differ only in the spelling of
    the addresses (case, [0x] prefix) return the same order hash and hash
    lock. *)
Theorem order_hash_ignores_spelling random now1 now2 p1 p2 r1 r2 o1 o2 r1' r2' :
  Ethers.getAddress (Params.maker p1) = Ethers.getAddress (Params.maker p2) ->
  Ethers.getAddress (Params.srcToken p1) = Ethers.getAddress (Params.srcToken p2) ->
  Ethers.getAddress (Params.dstToken p1) = Ethers.getAddress (Params.dstToken p2) ->
  Params.srcChainId p1 = Params.srcChainId p2 ->
  Params.dstChainId p1 = Params.dstChainId p2 ->
  Params.srcAmount p1 = Params.srcAmount p2 ->
  Params.dstAmount p1 = Params.dstAmount p2 ->
  Params.timelock p1 = Params.timelock p2 ->
  createSwapOrder random now1 p1 r1 = (Ok o1, r1') ->
  createSwapOrder random now2 p2 r2 = (Ok o2, r2') ->
  orderHash o1 = orderHash o2 /\ hashLock o1 = hashLock o2
  /\ maker o1 = Params.maker p1 /\ maker o2 = Params.maker p2.
Proof.
  intros Em Es Ed Esc Edc Esa Eda Etl H1 H2.
  destruct (createSwapOrder_spelling _ _ _ _ _ _ H1) as (M1 & _).
  destruct (createSwapOrder_spelling _ _ _ _ _ _ H2) as (M2 & _).
  destruct (createSwapOrder_inv random now1 p1 r1)
    as [[e He] | (a & mk & st & dt & od & He & Hs & Hk & Hm & Hst & Hdt & Hod & Hoh & _)];
    rewrite He in H1; [discriminate|]. injection H1 as <- _.
  destruct (createSwapOrder_inv random now2 p2 r2)
    as [[e He'] | (b & mk' & st' & dt' & od' & He' & Hs' & Hk' & Hm' & Hst' & Hdt'
                   & Hod' & Hoh' & _)];
    rewrite He' in H2; [discriminate|]. injection H2 as <- _.
  assert (Hsec : secret a = secret b) by congruence.
  assert (Hhl : hashLock a = hashLock b) by congruence.
  assert (mk = mk') by congruence. assert (st = st') by congruence.
  assert (dt = dt') by congruence. subst mk' st' dt'.
  rewrite Hhl, Esc, Edc, Esa, Eda, Etl in Hod.
  assert (od = od') by congruence. subst od'.
  repeat split; congruence.
Qed.

Lemma respelled_create_order :
  fst Scenario2.respelled_create = Ok Scenario2.respelled_order.
Proof. vm_compute. reflexivity. Qed.

Lemma order_hash_ignores_spelling_witness :
  orderHash Scenario.order1 = orderHash Scenario2.respelled_order
  /\ maker Scenario.order1 <> maker Scenario2.respelled_order.
Proof.
  split.
  - refine (proj1 (order_hash_ignores_spelling Scenario.random1
              (1000 * Scenario.t0) (1000 * Scenario.t0)
              Scenario.params Scenario2.respelled_params
              Scenario.fresh Scenario.fresh
              Scenario.order1 Scenario2.respelled_order
              (snd Scenario.first_create) (snd Scenario2.respelled_create)
              _ _ _ _ _ _ _ _ _ _)).
    + vm_compute; reflexivity.
    + vm_compute; reflexivity.
    + vm_compute; reflexivity.
    + reflexivity.
    + reflexivity.
    + reflexivity.
    + reflexivity.
    + reflexivity.
    + apply pair_of_fst. exact first_create_order1.
    + apply pair_of_fst. exact respelled_create_order.
  - vm_compute. discriminate.
Defined.

End Acceptance.

(** ** The escrows, call by call *)

Section EscrowCalls.
Import Payout.

Ltac zbool :=
  repeat match goal with
         | H : (_ <=? _) = true |- _ => apply Z.leb_le in H
         | H : (_ <=? _) = false |- _ => apply Z.leb_gt in H
         | H : (_ <? _) = true |- _ => apply Z.ltb_lt in H
         | H : (_ <? _) = false |- _ => apply Z.ltb_ge in H
         | H : (_ >=? _) = _ |- _ => rewrite Z.geb_leb in H
         | H : (_ >? _) = _ |- _ => rewrite Z.gtb_ltb in H
         | H : (_ =? _) = true |- _ => apply Z.eqb_eq in H
         | H : (_ =? _) = false |- _ => apply Z.eqb_neq in H
         end.

Ltac conditions :=
  repeat match goal with
         | |- context [if ?b then _ else _] => destruct b eqn:?
         end.

Lemma source_withdraw_iff tx tok preimage c :
  (exists c' log, HTLCSource.withdraw tx tok preimage c = Ok (c', log))
  <-> HTLCSource.entered c = false
      /\ HTLCSource.canWithdraw tx preimage c = true
      /\ transfer_ok tok (HTLCSource.makerAsset (HTLCSource.htlcData c)) (msg_sender tx)
           (HTLCSource.makingAmount (HTLCSource.htlcData c)) = true.
Proof.
  unfold HTLCSource.withdraw, HTLCSource.canWithdraw, HTLCSource.nonReentrant,
    HTLCSource.onlyBeforeTimelock, HTLCSource.onlyPending, rbind, require.
  destruct (HTLCSource.entered c), (State_eqb _ _), (_ <? _), (_ =? _), (transfer_ok _ _ _ _);
    cbn [andb negb]; split;
    try (intros (c' & log & [=]); fail);
    try (intros (? & ? & ?); discriminate);
    try (intros _; repeat split; reflexivity);
    intros _; eauto.
Qed.

Lemma source_cancel_iff tx tok c :
  (exists c' log, HTLCSource.cancel tx tok c = Ok (c', log))
  <-> HTLCSource.entered c = false
      /\ HTLCSource.canCancel tx c = true
      /\ transfer_ok tok (HTLCSource.makerAsset (HTLCSource.htlcData c))
           (HTLCSource.maker (HTLCSource.htlcData c))
           (HTLCSource.makingAmount (HTLCSource.htlcData c)) = true.
Proof.
  unfold HTLCSource.cancel, HTLCSource.canCancel, HTLCSource.nonReentrant,
    HTLCSource.onlyAfterTimelock, HTLCSource.onlyPending, rbind, require.
  destruct (HTLCSource.entered c), (State_eqb _ _), (_ >=? _), (transfer_ok _ _ _ _);
    cbn [andb negb]; split;
    try (intros (c' & log & [=]); fail);
    try (intros (? & ? & ?); discriminate);
    try (intros _; repeat split; reflexivity);
    intros _; eauto.
Qed.

Lemma destination_withdraw_iff tx tok preimage c :
  (exists c' log, HTLCDestination.withdraw tx tok preimage c = Ok (c', log))
  <-> HTLCDestination.entered c = false
      /\ HTLCDestination.canWithdraw tx preimage c = true
      /\ transfer_ok tok (HTLCDestination.takerAsset (HTLCDestination.htlcData c))
           (msg_sender tx)
           (HTLCDestination.takingAmount (HTLCDestination.htlcData c)) = true.
Proof.
  unfold HTLCDestination.withdraw, HTLCDestination.canWithdraw,
    HTLCDestination.nonReentrant, HTLCDestination.onlyBeforeTimelock,
    HTLCDestination.onlyPending, rbind, require.
  destruct (HTLCDestination.entered c), (State_eqb _ _), (_ <? _), (_ =? _),
    (transfer_ok _ _ _ _);
    cbn [andb negb]; split;
    try (intros (c' & log & [=]); fail);
    try (intros (? & ? & ?); discriminate);
    try (intros _; repeat split; reflexivity);
    intros _; eauto.
Qed.

Lemma destination_cancel_iff tx tok c :
  (exists c' log, HTLCDestination.cancel tx tok c = Ok (c', log))
  <-> HTLCDestination.entered c = false
      /\ HTLCDestination.canCancel tx c = true
      /\ transfer_ok tok (HTLCDestination.takerAsset (HTLCDestination.htlcData c))
           (HTLCDestination.taker (HTLCDestination.htlcData c))
           (HTLCDestination.takingAmount (HTLCDestination.htlcData c)) = true.
Proof.
  unfold HTLCDestination.cancel, HTLCDestination.canCancel,
    HTLCDestination.nonReentrant, HTLCDestination.onlyAfterTimelock,
    HTLCDestination.onlyPending, rbind, require.
  destruct (HTLCDestination.entered c), (State_eqb _ _), (_ >=? _), (transfer_ok _ _ _ _);
    cbn [andb negb]; split;
    try (intros (c' & log & [=]); fail);
    try (intros (? & ? & ?); discriminate);
    try (intros _; repeat split; reflexivity);
    intros _; eauto.
Qed.

(** X14. The two view functions predict the two calls.  On either escrow,
    [withdraw] goes through exactly when [canWithdraw] answers true for the
    same preimage at the same block time, no call into the escrow is under
    way and the token transfer to the sender goes through; [cancel] goes
    through exactly when [canCancel] answers true, no call is under way and
    the token transfer to the owner goes through.  At no block time do
    [canWithdraw] and [canCancel] both answer true. *)
Theorem views_predict_calls tx tok preimage (s : HTLCSource.Contract)
    (d : HTLCDestination.Contract) :
  ((exists s' log, HTLCSource.withdraw tx tok preimage s = Ok (s', log))
   <-> HTLCSource.entered s = false
       /\ HTLCSource.canWithdraw tx preimage s = true
       /\ transfer_ok tok (HTLCSource.makerAsset (HTLCSource.htlcData s)) (msg_sender tx)
            (HTLCSource.makingAmount (HTLCSource.htlcData s)) = true)
  /\ ((exists s' log, HTLCSource.cancel tx tok s = Ok (s', log))
      <-> HTLCSource.entered s = false
          /\ HTLCSource.canCancel tx s = true
          /\ transfer_ok tok (HTLCSource.makerAsset (HTLCSource.htlcData s))
               (HTLCSource.maker (HTLCSource.htlcData s))
               (HTLCSource.makingAmount (HTLCSource.htlcData s)) = true)
  /\ ((exists d' log, HTLCDestination.withdraw tx tok preimage d = Ok (d', log))
      <-> HTLCDestination.entered d = false
          /\ HTLCDestination.canWithdraw tx preimage d = true
          /\ transfer_ok tok (HTLCDestination.takerAsset (HTLCDestination.htlcData d))
               (msg_sender tx)
               (HTLCDestination.takingAmount (HTLCDestination.htlcData d)) = true)
  /\ ((exists d' log, HTLCDestination.cancel tx tok d = Ok (d', log))
      <-> HTLCDestination.entered d = false
          /\ HTLCDestination.canCancel tx d = true
          /\ transfer_ok tok (HTLCDestination.takerAsset (HTLCDestination.htlcData d))
               (HTLCDestination.taker (HTLCDestination.htlcData d))
               (HTLCDestination.takingAmount (HTLCDestination.htlcData d)) = true)
  /\ HTLCSource.canWithdraw tx preimage s && HTLCSource.canCancel tx s = false
  /\ HTLCDestination.canWithdraw tx preimage d && HTLCDestination.canCancel tx d = false.
Proof.
  split; [apply source_withdraw_iff|]. split; [apply source_cancel_iff|].
  split; [apply destination_withdraw_iff|]. split; [apply destination_cancel_iff|].
  unfold HTLCSource.canWithdraw, HTLCSource.canCancel, HTLCDestination.canWithdraw,
    HTLCDestination.canCancel.
  split.
  - destruct (State_eqb _ _), (_ =? _); rewrite ?andb_false_r; cbn [andb]; try reflexivity.
    rewrite Z.geb_leb, Z.ltb_antisym. destruct (_ <=? _); reflexivity.
  - destruct (State_eqb _ _), (_ =? _); rewrite ?andb_false_r; cbn [andb]; try reflexivity.
    rewrite Z.geb_leb, Z.ltb_antisym. destruct (_ <=? _); reflexivity.
Qed.

Lemma source_withdraw_log tx tok preimage c c' log :
  HTLCSource.withdraw tx tok preimage c = Ok (c', log) ->
  log = [Transfer (HTLCSource.makerAsset (HTLCSource.htlcData c)) (msg_sender tx)
           (HTLCSource.makingAmount (HTLCSource.htlcData c));
         Withdrawn (HTLCSource.orderHash (HTLCSource.htlcData c)) (msg_sender tx) preimage].
Proof.
  unfold HTLCSource.withdraw, HTLCSource.nonReentrant, HTLCSource.onlyBeforeTimelock,
    HTLCSource.onlyPending, rbind, require.
  conditions; intros [= _ <-] || discriminate. reflexivity.
Qed.

Lemma source_cancel_log tx tok c c' log :
  HTLCSource.cancel tx tok c = Ok (c', log) ->
  log = [Transfer (HTLCSource.makerAsset (HTLCSource.htlcData c))
           (HTLCSource.maker (HTLCSource.htlcData c))
           (HTLCSource.makingAmount (HTLCSource.htlcData c));
         Cancelled (HTLCSource.orderHash (HTLCSource.htlcData c)) (msg_sender tx)].
Proof.
  unfold HTLCSource.cancel, HTLCSource.nonReentrant, HTLCSource.onlyAfterTimelock,
    HTLCSource.onlyPending, rbind, require.
  conditions; intros [= _ <-] || discriminate. reflexivity.
Qed.

Lemma destination_withdraw_log tx tok preimage c c' log :
  HTLCDestination.withdraw tx tok preimage c = Ok (c', log) ->
  log = [Transfer (HTLCDestination.takerAsset (HTLCDestination.htlcData c)) (msg_sender tx)
           (HTLCDestination.takingAmount (HTLCDestination.htlcData c));
         Withdrawn (HTLCDestination.orderHash (HTLCDestination.htlcData c))
           (msg_sender tx) preimage].
Proof.
  unfold HTLCDestination.withdraw, HTLCDestination.nonReentrant,
    HTLCDestination.onlyBeforeTimelock, HTLCDestination.onlyPending, rbind, require.
  conditions; intros [= _ <-] || discriminate. reflexivity.
Qed.

Lemma destination_cancel_log tx tok c c' log :
  HTLCDestination.cancel tx tok c = Ok (c', log) ->
  log = [Transfer (HTLCDestination.takerAsset (HTLCDestination.htlcData c))
           (HTLCDestination.taker (HTLCDestination.htlcData c))
           (HTLCDestination.takingAmount (HTLCDestination.htlcData c));
         Cancelled (HTLCDestination.orderHash (HTLCDestination.htlcData c))
           (msg_sender tx)].
Proof.
  unfold HTLCDestination.cancel, HTLCDestination.nonReentrant,
    HTLCDestination.onlyAfterTimelock, HTLCDestination.onlyPending, rbind, require.
  conditions; intros [= _ <-] || discriminate. reflexivity.
Qed.

Lemma paid_once_more asset amount owner orderHash hashLock timelock tx txs log :
  paid_once asset amount owner orderHash hashLock timelock txs log ->
  paid_once asset amount owner orderHash hashLock timelock (tx :: txs) log.
Proof.
  intros [H | [(t & p & Hin & H) | (t & Hin & H)]].
  - left. exact H.
  - right. left. exists t, p. split; [right; exact Hin | exact H].
  - right. right. exists t. split; [right; exact Hin | exact H].
Qed.

Lemma source_emitted_after_leaving txs : forall c : HTLCSource.Contract,
  HTLCSource.state (HTLCSource.htlcData c) <> PENDING -> emitted txs c = [].
Proof.
  induction txs as [|[[tx tok] what] rest IH]; intros c Hc; [reflexivity|].
  cbn [emitted]. destruct (call tx tok what c) as [[c' log]|e] eqn:Hcall; [|apply IH, Hc].
  destruct what; cbn [call escrow_withdraw escrow_cancel SourceEscrow] in Hcall.
  - apply source_withdraw_Ok in Hcall as (_ & Hp & _). contradiction.
  - apply source_cancel_Ok in Hcall as (_ & Hp & _). contradiction.
Qed.

Lemma destination_emitted_after_leaving txs : forall c : HTLCDestination.Contract,
  HTLCDestination.state (HTLCDestination.htlcData c) <> PENDING -> emitted txs c = [].
Proof.
  induction txs as [|[[tx tok] what] rest IH]; intros c Hc; [reflexivity|].
  cbn [emitted]. destruct (call tx tok what c) as [[c' log]|e] eqn:Hcall; [|apply IH, Hc].
  destruct what; cbn [call escrow_withdraw escrow_cancel DestinationEscrow] in Hcall.
  - apply destination_withdraw_Ok in Hcall as (_ & Hp & _). contradiction.
  - apply destination_cancel_Ok in Hcall as (_ & Hp & _). contradiction.
Qed.

Lemma source_paid_once txs : forall c : HTLCSource.Contract,
  paid_once (HTLCSource.makerAsset (HTLCSource.htlcData c))
    (HTLCSource.makingAmount (HTLCSource.htlcData c))
    (HTLCSource.maker (HTLCSource.htlcData c))
    (HTLCSource.orderHash (HTLCSource.htlcData c))
    (HTLCSource.hashLock (HTLCSource.htlcData c))
    (HTLCSource.timelock (HTLCSource.htlcData c))
    (senders txs) (emitted txs c).
Proof.
  induction txs as [|[[tx tok] what] rest IH]; intros c; [left; reflexivity|].
  cbn [emitted senders List.map fst].
  destruct (call tx tok what c) as [[c' log]|e] eqn:Hcall;
    [|apply paid_once_more, IH].
  destruct what; cbn [call escrow_withdraw escrow_cancel SourceEscrow] in Hcall.
  - pose proof (source_withdraw_log _ _ _ _ _ _ Hcall) as ->.
    apply source_withdraw_Ok in Hcall as (_ & _ & Ht & Hh & _ & Hs & _).
    rewrite source_emitted_after_leaving by (rewrite Hs; discriminate).
    right. left. exists tx, preimage. split; [left; reflexivity|]. auto.
  - pose proof (source_cancel_log _ _ _ _ _ Hcall) as ->.
    apply source_cancel_Ok in Hcall as (_ & _ & Ht & Hs).
    rewrite source_emitted_after_leaving by (rewrite Hs; discriminate).
    right. right. exists tx. split; [left; reflexivity|]. auto.
Qed.

Lemma destination_paid_once txs : forall c : HTLCDestination.Contract,
  paid_once (HTLCDestination.takerAsset (HTLCDestination.htlcData c))
    (HTLCDestination.takingAmount (HTLCDestination.htlcData c))
    (HTLCDestination.taker (HTLCDestination.htlcData c))
    (HTLCDestination.orderHash (HTLCDestination.htlcData c))
    (HTLCDestination.hashLock (HTLCDestination.htlcData c))
    (HTLCDestination.timelock (HTLCDestination.htlcData c))
    (senders txs) (emitted txs c).
Proof.
  induction txs as [|[[tx tok] what] rest IH]; intros c; [left; reflexivity|].
  cbn [emitted senders List.map fst].
  destruct (call tx tok what c) as [[c' log]|e] eqn:Hcall;
    [|apply paid_once_more, IH].
  destruct what; cbn [call escrow_withdraw escrow_cancel DestinationEscrow] in Hcall.
  - pose proof (destination_withdraw_log _ _ _ _ _ _ Hcall) as ->.
    apply destination_withdraw_Ok in Hcall as (_ & _ & Ht & Hh & _ & Hs & _).
    rewrite destination_emitted_after_leaving by (rewrite Hs; discriminate).
    right. left. exists tx, preimage. split; [left; reflexivity|]. auto.
  - pose proof (destination_cancel_log _ _ _ _ _ Hcall) as ->.
    apply destination_cancel_Ok in Hcall as (_ & _ & Ht & Hs).
    rewrite destination_emitted_after_leaving by (rewrite Hs; discriminate).
    right. right. exists tx. split; [left; reflexivity|]. auto.
Qed.

(** X15. An escrow pays out at most once, and in full.  Over every
    sequence of [withdraw] and [cancel] transactions, whatever their
    senders, block times and token behaviour, the log of a source escrow
    is empty, or it is one transfer of [makingAmount] of [makerAsset] to
    the sender of a [withdraw] that came before the timelock with a
    preimage of the hash lock, or it is one transfer of that amount back to
    [maker] by a [cancel] at or after the timelock.  The same holds for a
    destination escrow with [takingAmount], [takerAsset] and [taker]. *)
Theorem escrow_pays_once :
  (forall txs (c : HTLCSource.Contract),
     paid_once (HTLCSource.makerAsset (HTLCSource.htlcData c))
       (HTLCSource.makingAmount (HTLCSource.htlcData c))
       (HTLCSource.maker (HTLCSource.htlcData c))
       (HTLCSource.orderHash (HTLCSource.htlcData c))
       (HTLCSource.hashLock (HTLCSource.htlcData c))
       (HTLCSource.timelock (HTLCSource.htlcData c))
       (senders txs) (emitted txs c))
  /\ (forall txs (c : HTLCDestination.Contract),
        paid_once (HTLCDestination.takerAsset (HTLCDestination.htlcData c))
          (HTLCDestination.takingAmount (HTLCDestination.htlcData c))
          (HTLCDestination.taker (HTLCDestination.htlcData c))
          (HTLCDestination.orderHash (HTLCDestination.htlcData c))
          (HTLCDestination.hashLock (HTLCDestination.htlcData c))
          (HTLCDestination.timelock (HTLCDestination.htlcData c))
          (senders txs) (emitted txs c)).
Proof. split; [exact source_paid_once | exact destination_paid_once]. Qed.

End EscrowCalls.

(** ** The factory, deployment by deployment *)

Section FactoryCalls.
Import HTLCFactory Terms.

Ltac zbool :=
  repeat match goal with
         | H : (_ <=? _) = true |- _ => apply Z.leb_le in H
         | H : (_ <=? _) = false |- _ => apply Z.leb_gt in H
         | H : (_ <? _) = true |- _ => apply Z.ltb_lt in H
         | H : (_ <? _) = false |- _ => apply Z.ltb_ge in H
         | H : (_ >=? _) = _ |- _ => rewrite Z.geb_leb in H
         | H : (_ >? _) = _ |- _ => rewrite Z.gtb_ltb in H
         | H : (_ =? _) = true |- _ => apply Z.eqb_eq in H
         | H : (_ =? _) = false |- _ => apply Z.eqb_neq in H
         | H : negb _ = true |- _ => apply negb_true_iff in H
         | H : negb _ = false |- _ => apply negb_false_iff in H
         end.

Ltac conditions :=
  repeat match goal with
         | |- context [if ?b then _ else _] => destruct b eqn:?
         end.

Lemma deploySourceHTLC_iff tx tok htlc orderHash maker makerAsset makingAmount
    takerAsset takingAmount hashLock timelock dstChainId f :
  (exists res,
     deploySourceHTLC tx tok htlc orderHash maker makerAsset makingAmount takerAsset
       takingAmount hashLock timelock dstChainId f = Ok res)
  <-> deployable tx (entered f) (getSourceHTLC f orderHash) makingAmount timelock
      /\ transferFrom_ok tok makerAsset maker makingAmount = true
      /\ transfer_ok tok makerAsset htlc makingAmount = true.
Proof.
  unfold deploySourceHTLC, deployable, nonReentrant, rbind, require, checked_add,
    MIN_TIMELOCK, MAX_TIMELOCK.
  conditions; (split; [intros (res & Hres); try discriminate Hres
                      | intros ((He & Hk & Hmax & Hw & Ha) & Hfrom & Hto)]);
    zbool; try (repeat split; (assumption || lia)); try lia; try congruence;
    eauto.
Qed.

Lemma deployDestinationHTLC_iff tx tok htlc orderHash taker makerAsset makingAmount
    takerAsset takingAmount hashLock timelock srcChainId f :
  (exists res,
     deployDestinationHTLC tx tok htlc orderHash taker makerAsset makingAmount takerAsset
       takingAmount hashLock timelock srcChainId f = Ok res)
  <-> deployable tx (entered f) (getDestinationHTLC f orderHash) takingAmount timelock
      /\ transferFrom_ok tok takerAsset taker takingAmount = true
      /\ transfer_ok tok takerAsset htlc takingAmount = true.
Proof.
  unfold deployDestinationHTLC, deployable, nonReentrant, rbind, require, checked_add,
    MIN_TIMELOCK, MAX_TIMELOCK.
  conditions; (split; [intros (res & Hres); try discriminate Hres
                      | intros ((He & Hk & Hmax & Hw & Ha) & Hfrom & Hto)]);
    zbool; try (repeat split; (assumption || lia)); try lia; try congruence;
    eauto.
Qed.

Lemma deploySourceHTLC_result tx tok htlc orderHash maker makerAsset makingAmount
    takerAsset takingAmount hashLock timelock dstChainId f f' c log :
  deploySourceHTLC tx tok htlc orderHash maker makerAsset makingAmount takerAsset
    takingAmount hashLock timelock dstChainId f = Ok (f', c, log) ->
  c = HTLCSource.constructor orderHash maker makerAsset makingAmount takerAsset
        takingAmount hashLock timelock dstChainId
  /\ sourceHTLCs f' = <[orderHash := htlc]> (sourceHTLCs f)
  /\ destinationHTLCs f' = destinationHTLCs f
  /\ entered f' = false
  /\ log = [TransferFrom makerAsset maker makingAmount;
            Transfer makerAsset htlc makingAmount;
            HTLCSourceDeployed htlc orderHash maker takerAsset takingAmount hashLock
              timelock].
Proof.
  unfold deploySourceHTLC, nonReentrant, rbind, require, checked_add.
  conditions; intros [= <- <- <-] || discriminate.
  cbn [sourceHTLCs destinationHTLCs entered]. zbool. repeat split; assumption.
Qed.

Lemma deployDestinationHTLC_result tx tok htlc orderHash taker makerAsset makingAmount
    takerAsset takingAmount hashLock timelock srcChainId f f' c log :
  deployDestinationHTLC tx tok htlc orderHash taker makerAsset makingAmount takerAsset
    takingAmount hashLock timelock srcChainId f = Ok (f', c, log) ->
  c = HTLCDestination.constructor orderHash taker makerAsset makingAmount takerAsset
        takingAmount hashLock timelock srcChainId
  /\ sourceHTLCs f' = sourceHTLCs f
  /\ destinationHTLCs f' = <[orderHash := htlc]> (destinationHTLCs f)
  /\ entered f' = false
  /\ log = [TransferFrom takerAsset taker takingAmount;
            Transfer takerAsset htlc takingAmount;
            HTLCDestinationDeployed htlc orderHash taker makerAsset makingAmount hashLock
              timelock].
Proof.
  unfold deployDestinationHTLC, nonReentrant, rbind, require, checked_add.
  conditions; intros [= <- <- <-] || discriminate.
  cbn [sourceHTLCs destinationHTLCs entered]. zbool. repeat split; assumption.
Qed.

(** X16. When the factory deploys.  [deploySourceHTLC] goes through exactly
    when no call into the factory is under way, no address is recorded for
    the order hash, the timelock lies in the window from the block time
    plus one hour to the block time plus seven days (sums that must fit a
    [uint256]), the amount is positive, and both token transfers (from the
    maker to the factory, from the factory to the escrow) go through; the
    escrow then starts PENDING with the terms that were passed, and the log
    shows the two transfers of [makingAmount] followed by the deployment
    event.
    [deployDestinationHTLC] does the same with the taker, [takerAsset] and
    [takingAmount]. *)
Theorem factory_deploys tx tok htlc orderHash party makerAsset makingAmount
    takerAsset takingAmount hashLock timelock chainId f :
  ((exists res,
      deploySourceHTLC tx tok htlc orderHash party makerAsset makingAmount takerAsset
        takingAmount hashLock timelock chainId f = Ok res)
   <-> deployable tx (entered f) (getSourceHTLC f orderHash) makingAmount timelock
       /\ transferFrom_ok tok makerAsset party makingAmount = true
       /\ transfer_ok tok makerAsset htlc makingAmount = true)
  /\ (forall f' c log,
        deploySourceHTLC tx tok htlc orderHash party makerAsset makingAmount takerAsset
          takingAmount hashLock timelock chainId f = Ok (f', c, log) ->
        c = HTLCSource.constructor orderHash party makerAsset makingAmount takerAsset
              takingAmount hashLock timelock chainId
        /\ HTLCSource.state (HTLCSource.htlcData c) = PENDING
        /\ log = [TransferFrom makerAsset party makingAmount;
                  Transfer makerAsset htlc makingAmount;
                  HTLCSourceDeployed htlc orderHash party takerAsset takingAmount
                    hashLock timelock])
  /\ ((exists res,
         deployDestinationHTLC tx tok htlc orderHash party makerAsset makingAmount
           takerAsset takingAmount hashLock timelock chainId f = Ok res)
      <-> deployable tx (entered f) (getDestinationHTLC f orderHash) takingAmount timelock
          /\ transferFrom_ok tok takerAsset party takingAmount = true
          /\ transfer_ok tok takerAsset htlc takingAmount = true)
  /\ (forall f' c log,
        deployDestinationHTLC tx tok htlc orderHash party makerAsset makingAmount
          takerAsset takingAmount hashLock timelock chainId f = Ok (f', c, log) ->
        c = HTLCDestination.constructor orderHash party makerAsset makingAmount
              takerAsset takingAmount hashLock timelock chainId
        /\ HTLCDestination.state (HTLCDestination.htlcData c) = PENDING
        /\ log = [TransferFrom takerAsset party takingAmount;
                  Transfer takerAsset htlc takingAmount;
                  HTLCDestinationDeployed htlc orderHash party makerAsset makingAmount
                    hashLock timelock]).
Proof.
  split; [apply deploySourceHTLC_iff|].
  split; [intros f' c log H; apply deploySourceHTLC_result in H
                                  as (-> & _ & _ & _ & ->); auto|].
  split; [apply deployDestinationHTLC_iff|].
  intros f' c log H; apply deployDestinationHTLC_result in H
    as (-> & _ & _ & _ & ->); auto.
Qed.

Lemma already_exists_source tx tok htlc orderHash maker makerAsset makingAmount
    takerAsset takingAmount hashLock timelock dstChainId f :
  entered f = false -> getSourceHTLC f orderHash <> 0 ->
  deploySourceHTLC tx tok htlc orderHash maker makerAsset makingAmount takerAsset
    takingAmount hashLock timelock dstChainId f = Err (Reverted "HTLC already exists").
Proof.
  intros He Hk. unfold deploySourceHTLC, nonReentrant, rbind, require.
  rewrite He. cbn [negb]. apply Z.eqb_neq in Hk. rewrite Hk. reflexivity.
Qed.

Lemma already_exists_destination tx tok htlc orderHash taker makerAsset makingAmount
    takerAsset takingAmount hashLock timelock srcChainId f :
  entered f = false -> getDestinationHTLC f orderHash <> 0 ->
  deployDestinationHTLC tx tok htlc orderHash taker makerAsset makingAmount takerAsset
    takingAmount hashLock timelock srcChainId f = Err (Reverted "HTLC already exists").
Proof.
  intros He Hk. unfold deployDestinationHTLC, nonReentrant, rbind, require.
  rewrite He. cbn [negb]. apply Z.eqb_neq in Hk. rewrite Hk. reflexivity.
Qed.

(** X17. What the factory records stays recorded.  After a deployment that
    went through, the getter of that side returns the new escrow's address
    for the order hash; the address recorded for any other order hash, and
    every address on the other side, is what it was; and, the escrow's
    address not being zero, every later deployment on that side for the
    same order hash reverts with 'HTLC already exists', whatever its other
    arguments.  The two sides do not block each other. *)
Theorem factory_records_stay tx tok htlc orderHash party makerAsset makingAmount
    takerAsset takingAmount hashLock timelock chainId f :
  (forall f' c log,
     deploySourceHTLC tx tok htlc orderHash party makerAsset makingAmount takerAsset
       takingAmount hashLock timelock chainId f = Ok (f', c, log) ->
     getSourceHTLC f' orderHash = htlc
     /\ (forall other, other <> orderHash -> getSourceHTLC f' other = getSourceHTLC f other)
     /\ (forall any, getDestinationHTLC f' any = getDestinationHTLC f any)
     /\ (htlc <> 0 ->
         forall tx' tok' htlc' party' makerAsset' makingAmount' takerAsset' takingAmount'
                hashLock' timelock' chainId',
           deploySourceHTLC tx' tok' htlc' orderHash party' makerAsset' makingAmount'
             takerAsset' takingAmount' hashLock' timelock' chainId' f'
           = Err (Reverted "HTLC already exists")))
  /\ (forall f' c log,
        deployDestinationHTLC tx tok htlc orderHash party makerAsset makingAmount
          takerAsset takingAmount hashLock timelock chainId f = Ok (f', c, log) ->
        getDestinationHTLC f' orderHash = htlc
        /\ (forall other, other <> orderHash ->
              getDestinationHTLC f' other = getDestinationHTLC f other)
        /\ (forall any, getSourceHTLC f' any = getSourceHTLC f any)
        /\ (htlc <> 0 ->
            forall tx' tok' htlc' party' makerAsset' makingAmount' takerAsset'
                   takingAmount' hashLock' timelock' chainId',
              deployDestinationHTLC tx' tok' htlc' orderHash party' makerAsset'
                makingAmount' takerAsset' takingAmount' hashLock' timelock' chainId' f'
              = Err (Reverted "HTLC already exists"))).
Proof.
  split; intros f' c log H.
  - apply deploySourceHTLC_result in H as (_ & Hs & Hd & He & _).
    assert (Hget : getSourceHTLC f' orderHash = htlc)
      by (unfold getSourceHTLC; rewrite Hs, lookup_insert_eq; reflexivity).
    split; [exact Hget|]. split; [|split].
    + intros other Hne. unfold getSourceHTLC. rewrite Hs, lookup_insert_ne by congruence.
      reflexivity.
    + intros any. unfold getDestinationHTLC. rewrite Hd. reflexivity.
    + intros Hnz. intros. apply already_exists_source; [exact He | congruence].
  - apply deployDestinationHTLC_result in H as (_ & Hs & Hd & He & _).
    assert (Hget : getDestinationHTLC f' orderHash = htlc)
      by (unfold getDestinationHTLC; rewrite Hd, lookup_insert_eq; reflexivity).
    split; [exact Hget|]. split; [|split].
    + intros other Hne. unfold getDestinationHTLC.
      rewrite Hd, lookup_insert_ne by congruence. reflexivity.
    + intros any. unfold getSourceHTLC. rewrite Hs. reflexivity.
    + intros Hnz. intros. apply already_exists_destination; [exact He | congruence].
Qed.

Lemma source_call_keeps tx tok what (c c' : HTLCSource.Contract) log :
  call tx tok what c = Ok (c', log) ->
  HTLCSource.timelock (HTLCSource.htlcData c') = HTLCSource.timelock (HTLCSource.htlcData c)
  /\ HTLCSource.hashLock (HTLCSource.htlcData c') = HTLCSource.hashLock (HTLCSource.htlcData c)
  /\ HTLCSource.entered c' = HTLCSource.entered c.
Proof.
  destruct what; cbn [call escrow_withdraw escrow_cancel SourceEscrow];
    unfold HTLCSource.withdraw, HTLCSource.cancel, HTLCSource.nonReentrant,
      HTLCSource.onlyBeforeTimelock, HTLCSource.onlyAfterTimelock,
      HTLCSource.onlyPending, rbind, require;
    conditions; intros [= <- _] || discriminate; auto.
Qed.

Lemma destination_call_keeps tx tok what (c c' : HTLCDestination.Contract) log :
  call tx tok what c = Ok (c', log) ->
  HTLCDestination.timelock (HTLCDestination.htlcData c')
  = HTLCDestination.timelock (HTLCDestination.htlcData c)
  /\ HTLCDestination.hashLock (HTLCDestination.htlcData c')
     = HTLCDestination.hashLock (HTLCDestination.htlcData c)
  /\ HTLCDestination.entered c' = HTLCDestination.entered c.
Proof.
  destruct what; cbn [call escrow_withdraw escrow_cancel DestinationEscrow];
    unfold HTLCDestination.withdraw, HTLCDestination.cancel,
      HTLCDestination.nonReentrant, HTLCDestination.onlyBeforeTimelock,
      HTLCDestination.onlyAfterTimelock, HTLCDestination.onlyPending, rbind, require;
    conditions; intros [= <- _] || discriminate; auto.
Qed.

(** No history changes the timelock, the hash lock or the reentrancy
    flag of an escrow. *)
Lemma source_history_keeps txs : forall c : HTLCSource.Contract,
  HTLCSource.timelock (HTLCSource.htlcData (fst (history txs c)))
  = HTLCSource.timelock (HTLCSource.htlcData c)
  /\ HTLCSource.hashLock (HTLCSource.htlcData (fst (history txs c)))
     = HTLCSource.hashLock (HTLCSource.htlcData c)
  /\ HTLCSource.entered (fst (history txs c)) = HTLCSource.entered c.
Proof.
  induction txs as [|[[tx tok] what] rest IH]; intros c; [auto|].
  cbn [history]. destruct (call tx tok what c) as [[c' log]|e] eqn:Hcall; [|apply IH].
  apply source_call_keeps in Hcall as (<- & <- & <-).
  specialize (IH c'). destruct (history rest c') as [c'' n]. exact IH.
Qed.

Lemma destination_history_keeps txs : forall c : HTLCDestination.Contract,
  HTLCDestination.timelock (HTLCDestination.htlcData (fst (history txs c)))
  = HTLCDestination.timelock (HTLCDestination.htlcData c)
  /\ HTLCDestination.hashLock (HTLCDestination.htlcData (fst (history txs c)))
     = HTLCDestination.hashLock (HTLCDestination.htlcData c)
  /\ HTLCDestination.entered (fst (history txs c)) = HTLCDestination.entered c.
Proof.
  induction txs as [|[[tx tok] what] rest IH]; intros c; [auto|].
  cbn [history]. destruct (call tx tok what c) as [[c' log]|e] eqn:Hcall; [|apply IH].
  apply destination_call_keeps in Hcall as (<- & <- & <-).
  specialize (IH c'). destruct (history rest c') as [c'' n]. exact IH.
Qed.

(** X18. The window of a deployed escrow.  Take an escrow that the factory
    deployed at block time [t], after any history of [withdraw] and
    [cancel] transactions.  At every block time before [t] plus one hour
    [cancel] reverts with 'Timelock not yet passed', and [canWithdraw]
    answers true for a preimage of the hash lock exactly as long as the
    escrow is pending.  From [t] plus seven days on every [withdraw]
    reverts with 'Timelock has passed', and [canCancel] answers true
    exactly as long as the escrow is pending. *)
Theorem deployed_escrow_window tx tok htlc orderHash party makerAsset makingAmount
    takerAsset takingAmount hashLock timelock chainId f :
  (forall f' c log,
     deploySourceHTLC tx tok htlc orderHash party makerAsset makingAmount takerAsset
       takingAmount hashLock timelock chainId f = Ok (f', c, log) ->
     forall txs tx' tok',
       (block_timestamp tx' < block_timestamp tx + MIN_TIMELOCK ->
        HTLCSource.cancel tx' tok' (fst (history txs c))
        = Err (Reverted "Timelock not yet passed")
        /\ (forall preimage, keccak256_packed preimage = hashLock ->
              HTLCSource.canWithdraw tx' preimage (fst (history txs c))
              = State_eqb (HTLCSource.state (HTLCSource.htlcData (fst (history txs c))))
                  PENDING))
       /\ (block_timestamp tx + MAX_TIMELOCK <= block_timestamp tx' ->
           HTLCSource.canCancel tx' (fst (history txs c))
           = State_eqb (HTLCSource.state (HTLCSource.htlcData (fst (history txs c))))
               PENDING
           /\ (forall preimage,
                 HTLCSource.withdraw tx' tok' preimage (fst (history txs c))
                 = Err (Reverted "Timelock has passed"))))
  /\ (forall f' c log,
        deployDestinationHTLC tx tok htlc orderHash party makerAsset makingAmount
          takerAsset takingAmount hashLock timelock chainId f = Ok (f', c, log) ->
        forall txs tx' tok',
          (block_timestamp tx' < block_timestamp tx + MIN_TIMELOCK ->
           HTLCDestination.cancel tx' tok' (fst (history txs c))
           = Err (Reverted "Timelock not yet passed")
           /\ (forall preimage, keccak256_packed preimage = hashLock ->
                 HTLCDestination.canWithdraw tx' preimage (fst (history txs c))
                 = State_eqb
                     (HTLCDestination.state (HTLCDestination.htlcData (fst (history txs c))))
                     PENDING))
          /\ (block_timestamp tx + MAX_TIMELOCK <= block_timestamp tx' ->
              HTLCDestination.canCancel tx' (fst (history txs c))
              = State_eqb
                  (HTLCDestination.state (HTLCDestination.htlcData (fst (history txs c))))
                  PENDING
              /\ (forall preimage,
                    HTLCDestination.withdraw tx' tok' preimage (fst (history txs c))
                    = Err (Reverted "Timelock has passed")))).
Proof.
  split; intros f' c log H txs tx' tok'.
  - pose proof (deploySourceHTLC_Ok _ _ _ _ _ _ _ _ _ _ _ _ _ _ H) as (Hw & _ & _).
    apply deploySourceHTLC_result in H as (-> & _).
    destruct (source_history_keeps txs
                (HTLCSource.constructor orderHash party makerAsset makingAmount takerAsset
                   takingAmount hashLock timelock chainId)) as (Ht & Hh & He).
    cbn [HTLCSource.constructor HTLCSource.htlcData HTLCSource.entered
         HTLCSource.timelock HTLCSource.hashLock] in Ht, Hh, He.
    unfold HTLCSource.cancel, HTLCSource.withdraw, HTLCSource.canWithdraw,
      HTLCSource.canCancel, HTLCSource.nonReentrant, HTLCSource.onlyAfterTimelock,
      HTLCSource.onlyBeforeTimelock, HTLCSource.onlyPending, rbind, require.
    rewrite Ht, Hh, He. cbn [negb].
    split; intros Hb.
    + rewrite Z.geb_leb.
      replace (timelock <=? block_timestamp tx') with false by (symmetry; apply Z.leb_gt; lia).
      split; [reflexivity|]. intros p Hp.
      replace (block_timestamp tx' <? timelock) with true by (symmetry; apply Z.ltb_lt; lia).
      rewrite Hp, Z.eqb_refl, !andb_true_r. reflexivity.
    + rewrite Z.geb_leb.
      replace (timelock <=? block_timestamp tx') with true by (symmetry; apply Z.leb_le; lia).
      split; [apply andb_true_r|]. intros p.
      replace (block_timestamp tx' <? timelock) with false by (symmetry; apply Z.ltb_ge; lia).
      reflexivity.
  - pose proof (deployDestinationHTLC_Ok _ _ _ _ _ _ _ _ _ _ _ _ _ _ H) as (Hw & _ & _).
    apply deployDestinationHTLC_result in H as (-> & _).
    destruct (destination_history_keeps txs
                (HTLCDestination.constructor orderHash party makerAsset makingAmount
                   takerAsset takingAmount hashLock timelock chainId)) as (Ht & Hh & He).
    cbn [HTLCDestination.constructor HTLCDestination.htlcData HTLCDestination.entered
         HTLCDestination.timelock HTLCDestination.hashLock] in Ht, Hh, He.
    unfold HTLCDestination.cancel, HTLCDestination.withdraw, HTLCDestination.canWithdraw,
      HTLCDestination.canCancel, HTLCDestination.nonReentrant,
      HTLCDestination.onlyAfterTimelock, HTLCDestination.onlyBeforeTimelock,
      HTLCDestination.onlyPending, rbind, require.
    rewrite Ht, Hh, He. cbn [negb].
    split; intros Hb.
    + rewrite Z.geb_leb.
      replace (timelock <=? block_timestamp tx') with false by (symmetry; apply Z.leb_gt; lia).
      split; [reflexivity|]. intros p Hp.
      replace (block_timestamp tx' <? timelock) with true by (symmetry; apply Z.ltb_lt; lia).
      rewrite Hp, Z.eqb_refl, !andb_true_r. reflexivity.
    + rewrite Z.geb_leb.
      replace (timelock <=? block_timestamp tx') with true by (symmetry; apply Z.leb_le; lia).
      split; [apply andb_true_r|]. intros p.
      replace (block_timestamp tx' <? timelock) with false by (symmetry; apply Z.ltb_ge; lia).
      reflexivity.
Qed.

End FactoryCalls.

(** ** Quotes *)

Section Quotes.
Import Resolver Queries Text.

Ltac each_ascii c :=
  destruct c as [[] [] [] [] [] [] [] []]; vm_compute; try reflexivity; try discriminate.

Lemma decimal_digit_spaceless c : is_decimal_digit c = true -> Ethers.is_space c = false.
Proof. each_ascii c. Qed.

Lemma decimal_spaceless s : decimal s = true -> spaceless s = true.
Proof.
  induction s as [|c s IH]; [reflexivity|]. unfold decimal, spaceless.
  cbn [forall_string]. intros H. apply andb_true_iff in H as [Hc Hs].
  rewrite (decimal_digit_spaceless c Hc). cbn [negb andb]. apply IH, Hs.
Qed.

Lemma trim_left_spaceless s : spaceless s = true -> Ethers.trim_left s = s.
Proof.
  destruct s as [|c s]; [reflexivity|]. unfold spaceless. cbn [forall_string Ethers.trim_left].
  intros H. apply andb_true_iff in H as [Hc _]. apply negb_true_iff in Hc.
  rewrite Hc. reflexivity.
Qed.

Lemma rev_string_spaceless s : forall acc,
  spaceless s = true -> spaceless acc = true -> spaceless (Ethers.rev_string s acc) = true.
Proof.
  induction s as [|c s IH]; intros acc Hs Ha; [exact Ha|].
  unfold spaceless in Hs. cbn [forall_string] in Hs. apply andb_true_iff in Hs as [Hc Hs].
  cbn [Ethers.rev_string]. apply IH; [exact Hs|].
  unfold spaceless. cbn [forall_string]. rewrite Hc. exact Ha.
Qed.

Lemma rev_string_rev_string s : forall acc acc',
  Ethers.rev_string (Ethers.rev_string s acc) acc'
  = Ethers.rev_string acc (String.append s acc').
Proof.
  induction s as [|c s IH]; intros acc acc'; [reflexivity|].
  cbn [Ethers.rev_string String.append]. rewrite IH. reflexivity.
Qed.

Lemma append_empty s : String.append s EmptyString = s.
Proof.
  induction s as [|c s IH]; [reflexivity|].
  change (String c (String.append s EmptyString) = String c s). rewrite IH. reflexivity.
Qed.

Lemma trim_spaceless s : spaceless s = true -> Ethers.trim s = s.
Proof.
  intros H. unfold Ethers.trim. rewrite (trim_left_spaceless s H).
  rewrite trim_left_spaceless by (apply rev_string_spaceless; [exact H | reflexivity]).
  rewrite rev_string_rev_string. cbn [Ethers.rev_string]. apply append_empty.
Qed.

Lemma string_of_uint_decimal d : decimal (NilEmpty.string_of_uint d) = true.
Proof. induction d; cbn [NilEmpty.string_of_uint]; [reflexivity | exact IHd ..]. Qed.

Lemma string_of_uint_nonempty d :
  d <> Decimal.Nil -> NilEmpty.string_of_uint d <> EmptyString.
Proof. destruct d; [congruence | discriminate ..]. Qed.

Lemma parse_uint_acc d : forall acc,
  Ethers.parse_digits 10 (NilEmpty.string_of_uint d) (Z.pos acc)
  = Some (Z.pos (Pos.of_uint_acc d acc)).
Proof.
  induction d; intros acc; cbn [NilEmpty.string_of_uint Ethers.parse_digits Pos.of_uint_acc];
    [reflexivity | ..];
    match goal with
    | |- context [digit_value ?c] =>
        let v := eval vm_compute in (digit_value c) in
        change (digit_value c) with v
    end;
    cbv beta iota;
    match goal with
    | |- context [?a <? 10] => change (a <? 10) with true
    end;
    cbv beta iota;
    rewrite <- IHd; f_equal; lia.
Qed.

Lemma parse_uint d :
  Ethers.parse_digits 10 (NilEmpty.string_of_uint d) 0 = Some (Z.of_N (Pos.of_uint d)).
Proof.
  induction d; cbn [NilEmpty.string_of_uint Ethers.parse_digits Pos.of_uint];
    [reflexivity | ..];
    match goal with
    | |- context [digit_value ?c] =>
        let v := eval vm_compute in (digit_value c) in
        change (digit_value c) with v
    end;
    cbv beta iota;
    match goal with
    | |- context [?a <? 10] => change (a <? 10) with true
    end;
    cbv beta iota;
    [exact IHd | cbn [Z.of_N]; rewrite <- parse_uint_acc; f_equal ..].
Qed.

(** A decimal literal is read in base ten. *)
Lemma StringToBigInt_decimal s :
  decimal s = true -> s <> EmptyString ->
  Ethers.StringToBigInt s = Ethers.parse_digits 10 s 0.
Proof.
  intros Hd Hne. unfold Ethers.StringToBigInt.
  rewrite (trim_spaceless s (decimal_spaceless s Hd)).
  destruct s as [|c1 rest]; [congruence|].
  unfold decimal in Hd. cbn [forall_string] in Hd. apply andb_true_iff in Hd as [H1 Hrest].
  destruct rest as [|c2 rest].
  - destruct c1 as [[] [] [] [] [] [] [] []]; try (vm_compute in H1; discriminate H1);
      reflexivity.
  - cbn [forall_string] in Hrest. apply andb_true_iff in Hrest as [H2 _].
    destruct c1 as [[] [] [] [] [] [] [] []]; try (vm_compute in H1; discriminate H1);
      try reflexivity.
    destruct c2 as [[] [] [] [] [] [] [] []]; try (vm_compute in H2; discriminate H2);
      reflexivity.
Qed.

Lemma StringToBigInt_negative s :
  decimal s = true -> s <> EmptyString ->
  Ethers.StringToBigInt (String "-" s) = option_map Z.opp (Ethers.parse_digits 10 s 0).
Proof.
  intros Hd Hne. unfold Ethers.StringToBigInt.
  rewrite trim_spaceless
    by (unfold spaceless; cbn [forall_string]; apply (decimal_spaceless s Hd)).
  destruct s as [|c rest]; [congruence | reflexivity].
Qed.

(** Printing a BigInt and reading it back. *)
Lemma BigInt_toString_BigInt z : Ethers.StringToBigInt (BigInt_toString z) = Some z.
Proof.
  unfold BigInt_toString. destruct z as [|p|p]; cbn [Z.to_int NilZero.string_of_int].
  - reflexivity.
  - pose proof (DecimalPos.Unsigned.to_uint_nonnil p) as Hn.
    assert (Hs : NilZero.string_of_uint (Pos.to_uint p)
                 = NilEmpty.string_of_uint (Pos.to_uint p))
      by (destruct (Pos.to_uint p); [congruence | reflexivity ..]).
    rewrite Hs, StringToBigInt_decimal
      by (apply string_of_uint_decimal || apply string_of_uint_nonempty, Hn).
    rewrite parse_uint, DecimalPos.Unsigned.of_to. reflexivity.
  - pose proof (DecimalPos.Unsigned.to_uint_nonnil p) as Hn.
    assert (Hs : NilZero.string_of_uint (Pos.to_uint p)
                 = NilEmpty.string_of_uint (Pos.to_uint p))
      by (destruct (Pos.to_uint p); [congruence | reflexivity ..]).
    rewrite Hs, StringToBigInt_negative
      by (apply string_of_uint_decimal || apply string_of_uint_nonempty, Hn).
    rewrite parse_uint, DecimalPos.Unsigned.of_to. reflexivity.
Qed.

Lemma getQuote_nonzero nowMs amount a :
  Ethers.StringToBigInt amount = Some a -> a <> 0 ->
  getQuote nowMs amount
  = QuoteOk {| quote_srcAmount := amount;
               quote_dstAmount := BigInt_toString (Z.quot (a * 98) 100);
               quote_rate := BigInt_toString (Z.quot (Z.quot (a * 98) 100 * 10000) a);
               quote_priceImpact := "0.5%";
               quote_fee := "0.3%";
               quote_timelock := nowMs / 1000 + 2 * 60 * 60 |}.
Proof.
  intros Ha Hnz. unfold getQuote, BigInt, BigInt_div, bigint_bind.
  rewrite Ha. change (100 =? 0) with false. cbv beta iota.
  rewrite BigInt_toString_BigInt. apply Z.eqb_neq in Hnz. rewrite Hnz. reflexivity.
Qed.



End Quotes.

(** ** The service status *)

Section Status.
Import Resolver Queries Terms Count.

Lemma filter_length_Permutation {A : Type} (f : A -> bool) (l l' : list A) :
  Permutation l l' -> length (List.filter f l) = length (List.filter f l').
Proof.
  induction 1 as [|x l l' _ IH|x y l|l l' l'' _ IH1 _ IH2]; cbn [List.filter].
  - reflexivity.
  - destruct (f x); cbn [length]; rewrite IH; reflexivity.
  - destruct (f x), (f y); reflexivity.
  - rewrite IH1. exact IH2.
Qed.

Lemma active_count_fresh (r : HTLCResolver) h o :
  orders r !! h = None ->
  activeOrders (getStatus (with_orders r (<[h := o]> (orders r))))
  = (counted o + activeOrders (getStatus r))%nat.
Proof.
  intros Hnone. unfold getStatus, orders_values, counted. cbn [activeOrders orders with_orders].
  rewrite (filter_length_Permutation active _ (o :: List.map snd (map_to_list (orders r)))).
  - cbn [List.filter]. destruct (active o); reflexivity.
  - change (o :: List.map snd (map_to_list (orders r)))
      with (List.map snd ((h, o) :: map_to_list (orders r))).
    apply Permutation_map, map_to_list_insert, Hnone.
Qed.

Lemma active_count_update (r : HTLCResolver) h old o :
  orders r !! h = Some old ->
  (activeOrders (getStatus (with_orders r (<[h := o]> (orders r)))) + counted old
   = activeOrders (getStatus r) + counted o)%nat.
Proof.
  intros Hold.
  pose (r0 := with_orders r (delete h (orders r))).
  assert (Hnone : orders r0 !! h = None) by apply lookup_delete_eq.
  pose proof (active_count_fresh r0 h o Hnone) as Hnew.
  pose proof (active_count_fresh r0 h old Hnone) as Hwas.
  cbn [orders with_orders r0] in Hnew, Hwas.
  rewrite insert_delete_eq in Hnew. rewrite (insert_delete_id _ _ _ Hold) in Hwas.
  unfold getStatus, orders_values in *. cbn [activeOrders orders with_orders] in *.
  lia.
Qed.

Lemma active_count_bound (r : HTLCResolver) :
  (activeOrders (getStatus r) <= size (orders r))%nat.
Proof.
  unfold getStatus, orders_values. cbn [activeOrders].
  etransitivity; [apply List.filter_length_le|].
  rewrite length_map, length_map_to_list. reflexivity.
Qed.

(** X20. What [getStatus] counts.  [activeOrders] is at most the number of
    stored orders.  Creating an order under a new hash raises it by one;
    [executeSwap] and [withdraw] leave it as it is, so an order that was
    withdrawn from on both legs is counted as active for good; a [cancel]
    that returns lowers it by one when the order was pending or executed
    and leaves it when the order was cancelled already. *)
Theorem active_orders_count (r : HTLCResolver) :
  (activeOrders (getStatus r) <= size (orders r))%nat
  /\ (forall random nowMs params o r',
        createSwapOrder random nowMs params r = (Ok o, r') ->
        orders r !! orderHash o = None ->
        activeOrders (getStatus r') = S (activeOrders (getStatus r)))
  /\ (forall net env h sig result r',
        executeSwap net env h sig r = (Ok result, r') ->
        activeOrders (getStatus r') = activeOrders (getStatus r))
  /\ (forall net h s id,
        activeOrders (getStatus (snd (withdraw net h s id r))) = activeOrders (getStatus r))
  /\ (forall net nowMs h id result r' o,
        cancel net nowMs h id r = (Ok result, r') ->
        orders r !! h = Some o ->
        (activeOrders (getStatus r') + counted o = activeOrders (getStatus r))%nat).
Proof.
  split; [apply active_count_bound|]. split; [|split; [|split]].
  - intros random nowMs params o r' Hc Hnone.
    apply createSwapOrder_Ok in Hc as (-> & _ & _ & Hst & _).
    rewrite (active_count_fresh r _ o Hnone). unfold counted, active. rewrite Hst.
    reflexivity.
  - intros net env h sig result r'. rewrite executeSwap_unfold.
    destruct (orders r !! h) as [order|] eqn:Ho; [|discriminate].
    destruct (Status_eqb (status order) pending) eqn:Hst; cbn [negb]; [|discriminate].
    destruct (fst (deploySourceLeg _ _ _ _ _)) as [src|]; [|discriminate].
    destruct (fst (deployDestinationLeg _ _ _ _ _)) as [dst|]; [|discriminate].
    intros [= _ <-].
    pose proof (active_count_update r h order
                  (with_deployment order (fst src) (fst dst) (snd src) (snd dst)) Ho) as H.
    unfold counted, active in H. cbn [status with_deployment Status_eqb orb] in H.
    rewrite Hst in H. cbn [orb] in H. lia.
  - intros net h s id. rewrite withdraw_state. reflexivity.
  - intros net nowMs h id result r' o. rewrite cancel_unfold. intros Hc Ho.
    rewrite Ho in Hc.
    destruct (nowMs <? _); [discriminate|].
    destruct (unconfigured id r); [discriminate|].
    destruct (js_or _ _) as [htlc|]; [|discriminate].
    destruct (rpc_cancel _ _ _); [|discriminate].
    injection Hc as _ <-.
    pose proof (active_count_update r h o (with_status o cancelled) Ho) as H.
    unfold counted at 2 in H. unfold active in H.
    cbn [status with_status Status_eqb orb] in H. lia.
Qed.

End Status.

(** ** The handlers *)

Section Handlers.
Import Resolver Queries Http.

Lemma createSwapOrder_Err_state random nowMs params r e :
  fst (createSwapOrder random nowMs params r) = Err e ->
  snd (createSwapOrder random nowMs params r) = r.
Proof.
  destruct (createSwapOrder_inv random nowMs params r)
    as [[c He] | (o & _ & _ & _ & _ & He & _)];
    rewrite He; cbn [fst snd]; [reflexivity | discriminate].
Qed.

Lemma executeSwap_Err_state net env h sig r e :
  fst (executeSwap net env h sig r) = Err e -> snd (executeSwap net env h sig r) = r.
Proof.
  rewrite executeSwap_unfold.
  destruct (orders r !! h) as [order|]; [|reflexivity].
  destruct (negb _); [reflexivity|].
  destruct (fst (deploySourceLeg _ _ _ _ _)); [|reflexivity].
  destruct (fst (deployDestinationLeg _ _ _ _ _)); [discriminate | reflexivity].
Qed.

Lemma cancel_Err_state net nowMs h id r e :
  fst (cancel net nowMs h id r) = Err e -> snd (cancel net nowMs h id r) = r.
Proof.
  rewrite cancel_unfold.
  destruct (orders r !! h) as [order|]; [|reflexivity].
  destruct (nowMs <? _); [reflexivity|].
  destruct (unconfigured id r); [reflexivity|].
  destruct (js_or _ _); [|reflexivity].
  destruct (rpc_cancel _ _ _); [discriminate | reflexivity].
Qed.

(** X21. A request that is answered with an error has no effect.  When
    [POST /swap/create], [POST /swap/execute] or [POST /cancel] answer with
    status 400 or 500, the resolver is the object it was before the
    request; [POST /withdraw] and [GET /swap/:orderHash/status] never change
    it.  An order that [POST /swap/create] answered with is served by the
    status endpoint under its order hash, and the status endpoint answers
    an unknown order hash with status 200 and [null]. *)
Theorem error_replies_change_nothing (r : HTLCResolver) :
  (forall random handlerNowMs nowMs body,
     (forall o, fst (post_swap_create random handlerNowMs nowMs body r) <> Json o) ->
     snd (post_swap_create random handlerNowMs nowMs body r) = r)
  /\ (forall net env orderHash makerSignature,
        replied_200 (fst (post_swap_execute net env orderHash makerSignature r)) = false ->
        snd (post_swap_execute net env orderHash makerSignature r) = r)
  /\ (forall net nowMs orderHash chainId,
        replied_200 (fst (post_cancel net nowMs orderHash chainId r)) = false ->
        snd (post_cancel net nowMs orderHash chainId r) = r)
  /\ (forall net orderHash secret chainId,
        snd (post_withdraw net orderHash secret chainId r) = r)
  /\ (forall orderHash,
        get_swap_status orderHash r = (Reply200 (orders r !! orderHash), r))
  /\ (forall random handlerNowMs nowMs body o r',
        post_swap_create random handlerNowMs nowMs body r = (Json o, r') ->
        get_swap_status (orderHash o) r' = (Reply200 (Some o), r')).
Proof.
  split; [|split; [|split; [|split; [|split]]]].
  - intros random handlerNowMs nowMs body. unfold post_swap_create.
    destruct (_ || _); [reflexivity|].
    pose proof (createSwapOrder_Err_state random nowMs
                  (params_of_body handlerNowMs body) r) as He.
    destruct (createSwapOrder _ _ _ _) as [[o|e] r']; cbn [fst snd] in *.
    + intros Hno. destruct (Hno o). reflexivity.
    + intros _. exact (He e eq_refl).
  - intros net env orderHash makerSignature. unfold post_swap_execute.
    destruct (_ || _); [reflexivity|].
    pose proof (executeSwap_Err_state net env (text orderHash) (text makerSignature) r)
      as He.
    destruct (executeSwap _ _ _ _ _) as [[res|e] r']; cbn [fst snd replied_200] in *;
      [discriminate | intros _; exact (He e eq_refl)].
  - intros net nowMs orderHash chainId. unfold post_cancel.
    destruct (_ || _); [reflexivity|].
    pose proof (cancel_Err_state net nowMs (text orderHash) (number chainId) r) as He.
    destruct (cancel _ _ _ _ _) as [[res|e] r']; cbn [fst snd replied_200] in *;
      [discriminate | intros _; exact (He e eq_refl)].
  - intros net orderHash secret chainId. unfold post_withdraw.
    destruct (_ || _); [reflexivity|].
    pose proof (withdraw_state net (text orderHash) (text secret) (number chainId) r) as Hs.
    destruct (withdraw _ _ _ _ _) as [[res|e] r']; cbn [snd] in *; exact Hs.
  - intros orderHash. reflexivity.
  - intros random handlerNowMs nowMs body o r'. unfold post_swap_create.
    destruct (_ || _); [discriminate|].
    destruct (createSwapOrder _ _ _ _) as [[o'|e] r''] eqn:Hc; [|discriminate].
    intros [= -> ->]. apply createSwapOrder_Ok in Hc as (-> & _).
    unfold get_swap_status, getSwapStatus, orders_get. cbn [orders with_orders].
    rewrite lookup_insert_eq. reflexivity.
Qed.

End Handlers.

(** ** The resolver's checks and the escrow's *)

Section Agreement.
Import Resolver Terms.

Lemma bytes_of_hex_is_bytes n : forall s bs,
  (String.length s <= n)%nat -> bytes_of_hex s = Some bs -> Forall is_byte bs.
Proof.
  induction n as [|n IH]; intros s bs Hlen.
  - destruct s; [intros [= <-]; constructor | cbn in Hlen; lia].
  - destruct s as [|c1 [|c2 rest]]; [intros [= <-]; constructor | discriminate |].
    cbn [bytes_of_hex].
    destruct (digit_value c1) as [v1|] eqn:Hv1; [|discriminate].
    destruct (digit_value c2) as [v2|] eqn:Hv2; [|discriminate].
    destruct (bytes_of_hex rest) as [bs'|] eqn:Hrest; [|discriminate].
    intros [= <-].
    apply digit_value_is_nibble in Hv1. apply digit_value_is_nibble in Hv2.
    constructor; [unfold is_byte; lia|].
    apply (IH rest bs'); [cbn in Hlen; lia | exact Hrest].
Qed.

Lemma getBytes_is_bytes s bs : Ethers.getBytes s = Ok bs -> Forall is_byte bs.
Proof.
  unfold Ethers.getBytes. destruct s as [|z [|x digits]]; try discriminate.
  destruct (_ && _); [|discriminate].
  destruct (bytes_of_hex digits) as [bs'|] eqn:Hd; [|discriminate].
  intros [= <-]. exact (bytes_of_hex_is_bytes _ digits bs' (le_n _) Hd).
Qed.

Lemma Ok_inj {A : Type} (a b : A) : Ok a = Ok b -> a = b.
Proof.
  intros H.
  exact (f_equal (fun x => match x with Ok v => v | Err _ => a end) H).
Qed.

Lemma hexlify_inj a b :
  Forall is_byte a -> Forall is_byte b -> Ethers.hexlify a = Ethers.hexlify b -> a = b.
Proof.
  intros Ha Hb H. pose proof (getBytes_hexlify a Ha) as H1.
  rewrite H, (getBytes_hexlify b Hb) in H1. symmetry. exact (Ok_inj _ _ H1).
Qed.

Lemma be_word32_inj a b :
  length a = 32%nat -> length b = 32%nat -> Forall is_byte a -> Forall is_byte b ->
  be_word a 0 = be_word b 0 -> a = b.
Proof.
  intros La Lb Ha Hb H. rewrite <- (be_bytes32_be_word a La Ha), H.
  apply be_bytes32_be_word; assumption.
Qed.

(** The resolver's test of a secret and the escrow's test of a preimage. *)
Lemma secret_tests_agree random s bs :
  Forall is_byte random ->
  Ethers.getBytes s = Ok bs -> length bs = 32%nat ->
  (Ethers.keccak256 s = Ok (Ethers.hexlify (Keccak.keccak256 random))
   <-> keccak256_packed (be_word bs 0) = be_word (Keccak.keccak256 random) 0).
Proof.
  intros Hr Hs Hlen. pose proof (getBytes_is_bytes s bs Hs) as Hb.
  destruct (keccak256_digest bs) as [L1 B1]. destruct (keccak256_digest random) as [L2 B2].
  unfold Ethers.keccak256, rbind, keccak256_packed. rewrite Hs.
  rewrite (be_bytes32_be_word bs Hlen Hb). split.
  - intros H. apply Ok_inj, hexlify_inj in H; [|assumption..]. rewrite H. reflexivity.
  - intros H. apply be_word32_inj in H; [|assumption..]. rewrite H. reflexivity.
Qed.

Lemma withdraw_InvalidSecret net h s id r o bs :
  orders r !! h = Some o -> Ethers.getBytes s = Ok bs ->
  (fst (withdraw net h s id r) = Err InvalidSecret
   <-> Ethers.keccak256 s <> Ok (hashLock o)).
Proof.
  intros Ho Hs. rewrite withdraw_unfold, Ho.
  unfold Ethers.keccak256, rbind. rewrite Hs.
  destruct (String.eqb_spec (Ethers.hexlify (Keccak.keccak256 bs)) (hashLock o)) as [He|Hne];
    cbn [negb].
  - split; [|intros H; destruct H; congruence].
    destruct (unconfigured id r); [discriminate|].
    destruct (js_or _ _); [|discriminate].
    destruct (rpc_withdraw _ _ _ _); discriminate.
  - split; [intros _; congruence | reflexivity].
Qed.

(** X22. The resolver and the escrows test a secret alike.  For an order
    that [createSwapOrder] made from 32 random bytes and a candidate secret
    of 32 bytes, [withdraw] of the resolver throws 'Invalid secret' exactly
    when [canWithdraw] of a pending escrow that carries the order's hash
    lock answers false before the timelock, whichever leg the escrow is:
    the string comparison of the two hashes off chain and the [bytes32]
    comparison on chain decide the same. *)
Theorem secret_checks_agree random nowMs params r0 o r :
  createSwapOrder random nowMs params r0 = (Ok o, r) ->
  length random = 32%nat ->
  Forall is_byte random ->
  forall net id s bs tx (c : HTLCSource.Contract) (d : HTLCDestination.Contract),
    Ethers.getBytes s = Ok bs -> length bs = 32%nat ->
    HTLCSource.state (HTLCSource.htlcData c) = PENDING ->
    HTLCSource.hashLock (HTLCSource.htlcData c) = be_word (Keccak.keccak256 random) 0 ->
    block_timestamp tx < HTLCSource.timelock (HTLCSource.htlcData c) ->
    HTLCDestination.state (HTLCDestination.htlcData d) = PENDING ->
    HTLCDestination.hashLock (HTLCDestination.htlcData d)
    = be_word (Keccak.keccak256 random) 0 ->
    block_timestamp tx < HTLCDestination.timelock (HTLCDestination.htlcData d) ->
    (fst (withdraw net (orderHash o) s id r) = Err InvalidSecret
     <-> HTLCSource.canWithdraw tx (be_word bs 0) c = false)
    /\ (fst (withdraw net (orderHash o) s id r) = Err InvalidSecret
        <-> HTLCDestination.canWithdraw tx (be_word bs 0) d = false).
Proof.
  intros Hc Hlen Hall net id s bs tx c d Hs Hbs Hcp Hch Hct Hdp Hdh Hdt.
  apply createSwapOrder_Ok in Hc as (-> & Hsec & Hk & _).
  rewrite Hsec, (keccak256_hexlify random Hall) in Hk. apply Ok_inj in Hk.
  assert (Ho : orders (with_orders r0 (<[orderHash o := o]> (orders r0))) !! orderHash o
               = Some o) by apply lookup_insert_eq.
  rewrite (withdraw_InvalidSecret net _ s id _ o bs Ho Hs), <- Hk.
  rewrite (secret_tests_agree random s bs Hall Hs Hbs).
  unfold HTLCSource.canWithdraw, HTLCDestination.canWithdraw.
  rewrite Hcp, Hch, Hdp, Hdh. cbn [State_eqb andb].
  apply Z.ltb_lt in Hct, Hdt. rewrite Hct, Hdt. cbn [andb].
  split; (split; [intros H; apply Z.eqb_neq, H | intros H; apply Z.eqb_neq, H]).
Qed.

Lemma escrow_hashLock_of_random1 :
  HTLCSource.hashLock (HTLCSource.htlcData Scenario.escrow)
  = be_word (Keccak.keccak256 Scenario.random1) 0
  /\ HTLCDestination.hashLock (HTLCDestination.htlcData Scenario.escrow_dst)
     = be_word (Keccak.keccak256 Scenario.random1) 0.
Proof. split; vm_compute; reflexivity. Qed.

Lemma wrong_secret_bytes : Ethers.getBytes Scenario.wrong_secret = Ok Scenario.random2.
Proof. vm_compute. reflexivity. Qed.

Lemma wrong_preimage_refused :
  HTLCSource.canWithdraw (Scenario.at_time (Scenario.t0 + 1))
    (be_word Scenario.random2 0) Scenario.escrow = false.
Proof. vm_compute. reflexivity. Qed.

Lemma secret_checks_agree_witness :
  HTLCSource.canWithdraw (Scenario.at_time (Scenario.t0 + 1))
    (be_word Scenario.random2 0) Scenario.escrow = false
  /\ fst (withdraw Scenario.online (orderHash Scenario.order1) Scenario.wrong_secret
            SEPOLIA Scenario.created) = Err InvalidSecret.
Proof.
  split; [exact wrong_preimage_refused|].
  refine (proj2 (proj1 (secret_checks_agree Scenario.random1 (1000 * Scenario.t0)
            Scenario.params Scenario.fresh Scenario.order1 Scenario.created _ _ _
            Scenario.online SEPOLIA Scenario.wrong_secret Scenario.random2
            (Scenario.at_time (Scenario.t0 + 1)) Scenario.escrow Scenario.escrow_dst
            _ _ _ _ _ _ _ _)) wrong_preimage_refused).
  - apply pair_of_fst. exact first_create_order1.
  - reflexivity.
  - exact (proj2 random1_bytes).
  - exact wrong_secret_bytes.
  - reflexivity.
  - reflexivity.
  - exact (proj1 escrow_hashLock_of_random1).
  - vm_compute. reflexivity.
  - reflexivity.
  - exact (proj2 escrow_hashLock_of_random1).
  - vm_compute. reflexivity.
Defined.

Lemma cancel_before_timelock net nowMs h id r o :
  orders r !! h = Some o ->
  (fst (cancel net nowMs h id r) = Err CannotCancelBeforeTimelock
   <-> nowMs / 1000 < timelock o).
Proof.
  intros Ho. rewrite cancel_unfold, Ho.
  pose proof (Z.div_mod nowMs 1000 ltac:(lia)) as Hdm.
  pose proof (Z.mod_pos_bound nowMs 1000 ltac:(lia)) as Hm.
  destruct (Z.ltb_spec nowMs (1000 * timelock o)) as [Hlt|Hge].
  - split; [intros _; lia | reflexivity].
  - split; [|lia].
    destruct (unconfigured id r); [discriminate|].
    destruct (js_or _ _); [|discriminate].
    destruct (rpc_cancel _ _ _); discriminate.
Qed.

(** X23. The resolver and the escrows read the timelock alike.  For a
    stored order and a pending escrow with the order's timelock, at a block
    time equal to the resolver's clock in whole seconds, [cancel] of the
    resolver throws 'Cannot cancel before timelock expires' exactly when
    [canCancel] of the escrow answers false; so the resolver sends a
    cancellation only when the escrow's timelock test will pass, and
    refuses none that would pass. *)
Theorem cancel_checks_agree net nowMs h id r o tx (c : HTLCSource.Contract)
    (d : HTLCDestination.Contract) :
  orders r !! h = Some o ->
  block_timestamp tx = nowMs / 1000 ->
  HTLCSource.state (HTLCSource.htlcData c) = PENDING ->
  HTLCSource.timelock (HTLCSource.htlcData c) = timelock o ->
  HTLCDestination.state (HTLCDestination.htlcData d) = PENDING ->
  HTLCDestination.timelock (HTLCDestination.htlcData d) = timelock o ->
  (fst (cancel net nowMs h id r) = Err CannotCancelBeforeTimelock
   <-> HTLCSource.canCancel tx c = false)
  /\ (fst (cancel net nowMs h id r) = Err CannotCancelBeforeTimelock
      <-> HTLCDestination.canCancel tx d = false).
Proof.
  intros Ho Htx Hcp Hct Hdp Hdt.
  rewrite (cancel_before_timelock net nowMs h id r o Ho).
  unfold HTLCSource.canCancel, HTLCDestination.canCancel.
  rewrite Hcp, Hct, Hdp, Hdt, Htx. cbn [State_eqb andb]. rewrite Z.geb_leb.
  split; (split; [intros H; apply Z.leb_gt, H | intros H; apply Z.leb_gt, H]).
Qed.

Lemma cancel_checks_agree_witness :
  HTLCSource.canCancel (Scenario.at_time (Scenario.t0 + 7199)) Scenario.escrow = false
  /\ fst (cancel Scenario.online (1000 * (Scenario.t0 + 7199) + 999) Scenario.hash1
            SEPOLIA Scenario.created) = Err CannotCancelBeforeTimelock.
Proof.
  assert (Hcan : HTLCSource.canCancel (Scenario.at_time (Scenario.t0 + 7199))
                   Scenario.escrow = false) by (vm_compute; reflexivity).
  split; [exact Hcan|].
  refine (proj2 (proj1 (cancel_checks_agree Scenario.online
            (1000 * (Scenario.t0 + 7199) + 999) Scenario.hash1 SEPOLIA Scenario.created
            Scenario.order1 (Scenario.at_time (Scenario.t0 + 7199))
            Scenario.escrow Scenario.escrow_dst _ _ _ _ _ _)) Hcan).
  - exact created_order.
  - vm_compute. reflexivity.
  - reflexivity.
  - reflexivity.
  - reflexivity.
  - reflexivity.
Defined.

End Agreement.

(** ** Worked deployments *)

Section FactoryWitnesses.
Import HTLCFactory Terms.

Lemma factory_deploys_witness :
  exists res,
    deploySourceHTLC (Scenario.at_time Scenario.t0) Scenario.tokens_ok 0x77
      1 0xaa 0xbb 100 0xcc 99 5 (Scenario.t0 + 3600) Resolver.POLYGON_AMOY
      Scenario.empty_factory = Ok res.
Proof.
  apply (proj1 (factory_deploys (Scenario.at_time Scenario.t0) Scenario.tokens_ok 0x77
                  1 0xaa 0xbb 100 0xcc 99 5 (Scenario.t0 + 3600) Resolver.POLYGON_AMOY
                  Scenario.empty_factory)).
  split; [|split; reflexivity].
  split; [reflexivity|]. split; [reflexivity|].
  split; [vm_compute; discriminate|].
  split; [split; vm_compute; discriminate | reflexivity].
Defined.

Lemma factory_records_stay_witness :
  exists f' c log,
    deploySourceHTLC (Scenario.at_time Scenario.t0) Scenario.tokens_ok 0x77
      1 0xaa 0xbb 100 0xcc 99 5 (Scenario.t0 + 3600) Resolver.POLYGON_AMOY
      Scenario.empty_factory = Ok (f', c, log)
    /\ getSourceHTLC f' 1 = 0x77
    /\ deploySourceHTLC (Scenario.at_time (Scenario.t0 + 60)) Scenario.tokens_ok 0x78
         1 0xab 0xbb 200 0xcc 198 6 (Scenario.t0 + 7200) Resolver.POLYGON_AMOY f'
       = Err (Reverted "HTLC already exists").
Proof.
  destruct (deploySourceHTLC (Scenario.at_time Scenario.t0) Scenario.tokens_ok 0x77
              1 0xaa 0xbb 100 0xcc 99 5 (Scenario.t0 + 3600) Resolver.POLYGON_AMOY
              Scenario.empty_factory) as [[[f' c] log]|e] eqn:Hd;
    [|vm_compute in Hd; discriminate Hd].
  destruct (proj1 (factory_records_stay (Scenario.at_time Scenario.t0) Scenario.tokens_ok
                     0x77 1 0xaa 0xbb 100 0xcc 99 5 (Scenario.t0 + 3600)
                     Resolver.POLYGON_AMOY Scenario.empty_factory) f' c log Hd)
    as (Hget & _ & _ & Hblock).
  exists f', c, log. split; [reflexivity|]. split; [exact Hget|].
  apply Hblock. discriminate.
Defined.

Lemma deployed_escrow_window_witness :
  exists f' c log,
    deploySourceHTLC (Scenario.at_time Scenario.t0) Scenario.tokens_ok 0x77
      1 0xaa 0xbb 100 0xcc 99 (keccak256_packed Scenario.preimage1) (Scenario.t0 + 3600)
      Resolver.POLYGON_AMOY Scenario.empty_factory = Ok (f', c, log)
    /\ HTLCSource.cancel (Scenario.at_time (Scenario.t0 + 3599)) Scenario.tokens_ok
         (fst (history [(Scenario.at_time (Scenario.t0 + 1), Scenario.tokens_ok,
                         CallWithdraw Scenario.preimage1)] c))
       = Err (Reverted "Timelock not yet passed").
Proof.
  destruct (deploySourceHTLC (Scenario.at_time Scenario.t0) Scenario.tokens_ok 0x77
              1 0xaa 0xbb 100 0xcc 99 (keccak256_packed Scenario.preimage1)
              (Scenario.t0 + 3600) Resolver.POLYGON_AMOY Scenario.empty_factory)
    as [[[f' c] log]|e] eqn:Hd; [|vm_compute in Hd; discriminate Hd].
  exists f', c, log. split; [reflexivity|].
  refine (proj1 (proj1 (proj1 (deployed_escrow_window (Scenario.at_time Scenario.t0)
            Scenario.tokens_ok 0x77 1 0xaa 0xbb 100 0xcc 99
            (keccak256_packed Scenario.preimage1) (Scenario.t0 + 3600)
            Resolver.POLYGON_AMOY Scenario.empty_factory) f' c log Hd
            [(Scenario.at_time (Scenario.t0 + 1), Scenario.tokens_ok,
              CallWithdraw Scenario.preimage1)]
            (Scenario.at_time (Scenario.t0 + 3599)) Scenario.tokens_ok) _)).
  vm_compute. reflexivity.
Defined.

End FactoryWitnesses.

(** ** Proposed timelocks *)

Section Proposals.
Import Resolver Queries HTLCFactory.

Lemma getQuote_timelock nowMs amount q :
  getQuote nowMs amount = QuoteOk q -> quote_timelock q = nowMs / 1000 + 7200.
Proof.
  unfold getQuote, bigint_bind.
  destruct (BigInt amount) as [|a]; [discriminate|].
  destruct (BigInt_div _ _) as [|d]; [discriminate|].
  destruct (BigInt _) as [|d']; [discriminate|].
  destruct (BigInt_div _ _) as [|rate]; [discriminate|].
  intros [= <-]. reflexivity.
Qed.

Lemma default_timelock handlerNowMs body :
  truthy_number (body_timelock body) = false ->
  Params.timelock (params_of_body handlerNowMs body) = handlerNowMs / 1000 + 86400.
Proof. intros H. unfold params_of_body. cbn [Params.timelock]. rewrite H. reflexivity. Qed.

(** X24. How long a proposed timelock can be deployed.  The timelock of a
    quote is two hours after the resolver's clock and the factory wants at
    least one hour between the block time and the timelock: [deploySourceHTLC]
    and [deployDestinationHTLC] with a quoted timelock go through only in
    blocks dated at most one hour after the quote.  With the timelock that
    [POST /swap/create] fills in when the request has none (or has 0), 24
    hours after the handler's clock, they go through only in blocks dated
    at most 23 hours after the request. *)
Theorem proposed_timelocks nowMs tx tok htlc orderHash party makerAsset makingAmount
    takerAsset takingAmount hashLock chainId f :
  (forall amount q,
     getQuote nowMs amount = QuoteOk q ->
     (exists res,
        deploySourceHTLC tx tok htlc orderHash party makerAsset makingAmount takerAsset
          takingAmount hashLock (quote_timelock q) chainId f = Ok res)
     \/ (exists res,
           deployDestinationHTLC tx tok htlc orderHash party makerAsset makingAmount
             takerAsset takingAmount hashLock (quote_timelock q) chainId f = Ok res) ->
     nowMs / 1000 - 597600 <= block_timestamp tx <= nowMs / 1000 + 3600)
  /\ (forall body,
        truthy_number (body_timelock body) = false ->
        (exists res,
           deploySourceHTLC tx tok htlc orderHash party makerAsset makingAmount
             takerAsset takingAmount hashLock
             (Params.timelock (params_of_body nowMs body)) chainId f = Ok res)
        \/ (exists res,
              deployDestinationHTLC tx tok htlc orderHash party makerAsset makingAmount
                takerAsset takingAmount hashLock
                (Params.timelock (params_of_body nowMs body)) chainId f = Ok res) ->
        nowMs / 1000 - 518400 <= block_timestamp tx <= nowMs / 1000 + 82800).
Proof.
  split.
  - intros amount q Hq Hd. rewrite (getQuote_timelock nowMs amount q Hq) in Hd.
    destruct Hd as [[res Hd]|[res Hd]];
      [apply deploySourceHTLC_Ok in Hd | apply deployDestinationHTLC_Ok in Hd];
      unfold MIN_TIMELOCK, MAX_TIMELOCK in Hd; lia.
  - intros body Hb Hd. rewrite (default_timelock nowMs body Hb) in Hd.
    destruct Hd as [[res Hd]|[res Hd]];
      [apply deploySourceHTLC_Ok in Hd | apply deployDestinationHTLC_Ok in Hd];
      unfold MIN_TIMELOCK, MAX_TIMELOCK in Hd; lia.
Qed.

Lemma proposed_timelocks_witness :
  exists q res,
    getQuote (1000 * Scenario.t0) "1000" = QuoteOk q
    /\ deploySourceHTLC (Scenario.at_time (Scenario.t0 + 3600)) Scenario.tokens_ok 0x77
         1 0xaa 0xbb 100 0xcc 99 5 (quote_timelock q) POLYGON_AMOY Scenario.empty_factory
       = Ok res
    /\ 1000 * Scenario.t0 / 1000 - 597600 <= Scenario.t0 + 3600
       <= 1000 * Scenario.t0 / 1000 + 3600.
Proof.
  destruct (getQuote (1000 * Scenario.t0) "1000") as [q|e] eqn:Hq;
    [|vm_compute in Hq; discriminate Hq].
  pose proof (getQuote_timelock _ _ _ Hq) as Ht.
  destruct (deploySourceHTLC (Scenario.at_time (Scenario.t0 + 3600)) Scenario.tokens_ok
              0x77 1 0xaa 0xbb 100 0xcc 99 5 (quote_timelock q) POLYGON_AMOY
              Scenario.empty_factory) as [res|e] eqn:Hd;
    [|rewrite Ht in Hd; vm_compute in Hd; discriminate Hd].
  exists q, res. split; [reflexivity|]. split; [exact Hd|].
  exact (proj1 (proposed_timelocks (1000 * Scenario.t0)
                  (Scenario.at_time (Scenario.t0 + 3600)) Scenario.tokens_ok 0x77
                  1 0xaa 0xbb 100 0xcc 99 5 POLYGON_AMOY Scenario.empty_factory)
               "1000"%string q Hq (or_introl (ex_intro _ res Hd))).
Defined.

End Proposals.

(** ** The token table *)

Section Tokens.
Import Resolver TokenTable.

Lemma getSupportedTokens_cases id :
  (id = SEPOLIA /\ tokens !! id = Some (getSupportedTokens SEPOLIA))
  \/ (id = POLYGON_AMOY /\ tokens !! id = Some (getSupportedTokens POLYGON_AMOY))
  \/ (id <> SEPOLIA /\ id <> POLYGON_AMOY /\ getSupportedTokens id = []).
Proof.
  unfold getSupportedTokens, tokens.
  destruct (decide (id = SEPOLIA)) as [->|H1].
  { left. rewrite lookup_insert_eq. auto. }
  destruct (decide (id = POLYGON_AMOY)) as [->|H2].
  { right. left. rewrite lookup_insert_ne by discriminate.
    rewrite lookup_insert_eq. auto. }
  right. right. rewrite !lookup_insert_ne, lookup_empty by congruence. auto.
Qed.

(** X25. The token table fits the rest of the resolver.  Every token that
    [getSupportedTokens] lists, for whatever chain id, is listed for one of
    the two chains of the resolver's chain table, and its address is in
    the checksummed form that [getAddress] maps to itself, so
    [createSwapOrder] takes it; for every other chain id the list is
    empty. *)
Theorem listed_tokens_are_usable (id : Z) (t : TokenConfig) :
  In t (getSupportedTokens id) ->
  (id = SEPOLIA \/ id = POLYGON_AMOY)
  /\ (forall net env, In id (List.map chainId (chains (new_HTLCResolver net env))))
  /\ Ethers.getAddress (token_address t) = Ok (token_address t).
Proof.
  intros Hin.
  assert (Hid : id = SEPOLIA \/ id = POLYGON_AMOY).
  { destruct (getSupportedTokens_cases id) as [[-> _] | [[-> _] | (_ & _ & He)]]; auto.
    rewrite He in Hin. destruct Hin. }
  split; [exact Hid|]. split.
  - intros net env. unfold new_HTLCResolver, initializeProviders.
    assert (Hchains : forall key l r,
              chains (fold_left
                        (fun r chain =>
                           match rpc_wallet net key with
                           | Ok wallet =>
                               {| orders := orders r;
                                  providers := <[chainId chain := rpcUrl chain]> (providers r);
                                  resolverWallet :=
                                    <[chainId chain := wallet]> (resolverWallet r);
                                  chains := chains r |}
                           | Err _ => r
                           end) l r) = chains r).
    { intros key l. induction l as [|c l IH]; intros r; [reflexivity|].
      cbn [fold_left]. rewrite IH. destruct (rpc_wallet net key); reflexivity. }
    destruct (js_or _ _) as [key|]; [rewrite Hchains|];
      cbn [chains configured_chains List.map chainId];
      destruct Hid as [-> | ->]; [left | right; left | left | right; left]; reflexivity.
  - destruct Hid as [-> | ->]; vm_compute in Hin;
      destruct Hin as [<- | []]; vm_compute; reflexivity.
Qed.

Lemma listed_tokens_are_usable_witness :
  exists t, In t (getSupportedTokens SEPOLIA)
            /\ token_symbol t = "ROSE"%string
            /\ Ethers.getAddress (token_address t) = Ok (token_address t).
Proof.
  eexists. split; [left; reflexivity|]. split; [reflexivity|].
  refine (proj2 (proj2 (listed_tokens_are_usable SEPOLIA _ _))).
  left. reflexivity.
Defined.

End Tokens.
